(** * GrayScope analysis fixtures: a shallow embedding of the C samples

    The repository ships C translation units that an analyzer is run on
    (lock imbalance, ABBA lock order, buffer misuse, TOCTOU, function
    pointers, branches) and a storage module.  Each C function below is
    a Rocq function in a small monad: global variables are threaded as
    state, calls into libc / pthread / the kernel are visible events
    whose answers are chosen by the environment, and operations that C
    leaves undefined stop the program with the reason. *)

From Stdlib Require Import ZArith Lia List String Strings.Byte.
From stdpp Require Import base option list gmap strings.
Import ListNotations.
Local Open Scope Z_scope.

(** ** The C runtime model *)

Module Crt.

(** What C leaves undefined and the fixtures can reach. *)
Inductive undefined : Type :=
| DivisionByZero
| OutOfBounds (index capacity : Z)
| NullDereference
| InvalidPointer
| UninitialisedRead
| BadIndirectCall.

(** A program either returns, asks the environment for the answer [X] of
    an external call [e] and continues with it, stops on undefined
    behaviour, or has used up the fuel of one of its loops. *)
Inductive prog (E : Type -> Type) (R : Type) : Type :=
| Ret (r : R)
| Vis {X : Type} (e : E X) (k : X -> prog E R)
| Undef (u : undefined)
| Timeout.
Arguments Ret {E R} r.
Arguments Vis {E R X} e k.
Arguments Undef {E R} u.
Arguments Timeout {E R}.

Fixpoint bind {E A B} (p : prog E A) (f : A -> prog E B) : prog E B :=
  match p with
  | Ret a => f a
  | Vis e k => Vis e (fun x => bind (k x) f)
  | Undef u => Undef u
  | Timeout => Timeout
  end.

(** One observed external call with the answer it got. *)
Inductive event (E : Type -> Type) : Type :=
| Ev {X : Type} (e : E X) (x : X).
Arguments Ev {E X} e x.

Inductive outcome (A : Type) : Type :=
| Returns (a : A)
| Faults (u : undefined)
| Unfinished.
Arguments Returns {A} a.
Arguments Faults {A} u.
Arguments Unfinished {A}.

(** [exec p tr o]: some choice of answers by the environment makes [p]
    perform exactly the calls [tr] and end in [o]. *)
Fixpoint exec {E A} (p : prog E A) (tr : list (event E)) (o : outcome A) : Prop :=
  match p with
  | Ret a => tr = [] /\ o = Returns a
  | Undef u => tr = [] /\ o = Faults u
  | Timeout => tr = [] /\ o = Unfinished
  | Vis e k => exists x tr', tr = Ev e x :: tr' /\ exec (k x) tr' o
  end.

(** The same, computed against a fixed environment. *)
Fixpoint run {E A} (env : forall X, E X -> X) (p : prog E A)
  : list (event E) * outcome A :=
  match p with
  | Ret a => ([], Returns a)
  | Undef u => ([], Faults u)
  | Timeout => ([], Unfinished)
  | Vis e k => let x := env _ e in
               let '(tr, o) := run env (k x) in (Ev e x :: tr, o)
  end.

(** Programs over a store [S] of globals and memory. *)
Definition M (E : Type -> Type) (S R : Type) : Type := S -> prog E (R * S).

Definition ret {E S R} (r : R) : M E S R := fun s => Ret (r, s).
Definition bindM {E S A B} (m : M E S A) (f : A -> M E S B) : M E S B :=
  fun s => bind (m s) (fun '(a, s') => f a s').
Definition trigger {E S X} (e : E X) : M E S X :=
  fun s => Vis e (fun x => Ret (x, s)).
Definition undef {E S R} (u : undefined) : M E S R := fun _ => Undef u.
Definition gets {E S A} (f : S -> A) : M E S A := fun s => Ret (f s, s).
Definition modify {E S} (f : S -> S) : M E S unit := fun s => Ret (tt, f s).

(** [while (cond) body], unrolled at most [fuel] times. *)
Fixpoint while {E S} (fuel : nat) (cond : S -> bool) (body : M E S unit)
  : M E S unit :=
  fun s =>
    if cond s then
      match fuel with
      | O => Timeout
      | S fuel' => bind (body s) (fun '(_, s') => while fuel' cond body s')
      end
    else Ret (tt, s).

(** [for (i = lo; i < lo + n; i++) body], where [body] may leave the
    enclosing function with a value ([Some v]) or go on ([None]); the
    bound and [i] are not written by the body. *)
Fixpoint for_upto {E S R} (n : nat) (i : Z) (body : Z -> M E S (option R))
  : M E S (option R) :=
  match n with
  | O => ret None
  | S n' => fun s =>
      bind (body i s) (fun '(r, s') =>
        match r with
        | Some v => Ret (Some v, s')
        | None => for_upto n' (i + 1) body s'
        end)
  end.

(** *** Programs of one unit inside another *)

(** [translate f p] is [p] with every call [e] made as [f e]: the way a
    function of a unit is called from code whose calls include more. *)
Fixpoint translate {E F : Type -> Type} {A} (f : forall X, E X -> F X)
    (p : prog E A) : prog F A :=
  match p with
  | Ret r => Ret r
  | Vis e k => Vis (f _ e) (fun x => translate f (k x))
  | Undef u => Undef u
  | Timeout => Timeout
  end.

Definition translate_event {E F : Type -> Type} (f : forall X, E X -> F X)
    (ev : event E) : event F :=
  match ev with
  | Ev e x => Ev (f _ e) x
  end.

Definition liftM {E F : Type -> Type} {S A} (f : forall X, E X -> F X)
    (m : M E S A) : M F S A :=
  fun s => translate f (m s).

(** [int]: 32 bits, two's complement; arithmetic is taken to wrap (the
    fixtures never reach the limits). *)
Definition wrap_int (z : Z) : Z := (z + 2 ^ 31) mod 2 ^ 32 - 2 ^ 31.
Definition INT_MIN : Z := - 2 ^ 31.
Definition INT_MAX : Z := 2 ^ 31 - 1.

(** Pointers: the null pointer or an address. *)
Inductive ptr : Type := NULL | Addr (a : N).

Definition is_null (p : ptr) : bool :=
  match p with NULL => true | Addr _ => false end.

#[global] Instance ptr_eq_dec : EqDecision ptr.
Proof. solve_decision. Defined.

(** *** Mutexes held by the running thread *)

Inductive lockop (L : Type) : Type :=
| Acquire (l : L)
| Release (l : L).
Arguments Acquire {L} l.
Arguments Release {L} l.

Section Locks.
Context {L : Type} `{EqDecision L}.

Fixpoint drop_lock (l : L) (h : list L) : list L :=
  match h with
  | [] => []
  | l' :: h' => if decide (l = l') then h' else l' :: drop_lock l h'
  end.

Definition lock_step (h : list L) (op : lockop L) : list L :=
  match op with
  | Acquire l => l :: h
  | Release l => drop_lock l h
  end.

(** Locks held after [ops], starting with [h] held. *)
Definition held_from (h : list L) (ops : list (lockop L)) : list L :=
  fold_left lock_step ops h.

Definition held (ops : list (lockop L)) : list L := held_from [] ops.

(** Every operation paired with the locks held just before it. *)
Fixpoint annotate_from (h : list L) (ops : list (lockop L))
  : list (list L * lockop L) :=
  match ops with
  | [] => []
  | op :: ops' => (h, op) :: annotate_from (lock_step h op) ops'
  end.

Definition annotate (ops : list (lockop L)) : list (list L * lockop L) :=
  annotate_from [] ops.

(** Every event of a trace paired with the locks held just before it,
    [lock_of] telling which events are lock operations. *)
Fixpoint with_held_from {E} (lock_of : event E -> option (lockop L))
    (h : list L) (tr : list (event E)) : list (list L * event E) :=
  match tr with
  | [] => []
  | ev :: tr' =>
      (h, ev) :: with_held_from lock_of
                   (match lock_of ev with
                    | Some op => lock_step h op
                    | None => h
                    end) tr'
  end.
End Locks.

(** Arguments after the format of a [printf]. *)
Inductive printf_arg : Type :=
| ArgStr (s : list byte)
| ArgInt (z : Z).

(** The character written [\n] in a C literal. *)
Definition newline : string := String (Ascii.ascii_of_nat 10) EmptyString.

Definition is_nul (b : byte) : bool :=
  match b with x00 => true | _ => false end.

End Crt.
Import Crt.

Declare Scope prog_scope.
Delimit Scope prog_scope with prog.
Notation "x <- c1 ;; c2" := (bindM c1 (fun x => c2))
  (at level 100, c1 at next level, c2 at level 200, right associativity)
  : prog_scope.
Notation "c1 ;; c2" := (bindM c1 (fun _ => c2))
  (at level 100, c2 at level 200, right associativity) : prog_scope.
Local Open Scope prog_scope.

(** ** sample_lock.c *)

Module SampleLock.

(** [pthread_mutex_t g_lock_a, g_lock_b]. *)
Inductive mutex : Type := g_lock_a | g_lock_b.

#[global] Instance mutex_eq_dec : EqDecision mutex.
Proof. solve_decision. Defined.

(** The functions of the translation unit. *)
Inductive func : Type :=
| fn_safe_increment
| fn_risky_operation
| fn_path_a_handler
| fn_path_b_handler
| fn_conditional_lock
| fn_on_message_callback
| fn_thread_entry.

#[global] Instance func_eq_dec : EqDecision func.
Proof. solve_decision. Defined.

(** Calls that leave the function body: the two pthread primitives (the
    fixtures ignore their result; acquiring waits until it succeeds), and
    the markers of a function's frame being entered and left. *)
Inductive ext : Type -> Type :=
| Lock (m : mutex) : ext unit
| Unlock (m : mutex) : ext unit
| Enter (f : func) : ext unit
| Leave (f : func) : ext unit.

(** [int g_shared_data], [int g_counter], and the [int] cells that
    pointer arguments may address. *)
Record state : Type := mkState {
  g_shared_data : Z;
  g_counter : Z;
  mem : gmap N Z
}.

Definition set_g_shared_data (v : Z) (s : state) : state :=
  mkState v (g_counter s) (mem s).
Definition set_g_counter (v : Z) (s : state) : state :=
  mkState (g_shared_data s) v (mem s).
Definition set_mem (m : gmap N Z) (s : state) : state :=
  mkState (g_shared_data s) (g_counter s) m.

(** The C start-up values ([= 0]). *)
Definition initial : state := mkState 0 0 ∅.

Definition C (R : Type) : Type := M ext state R.

Definition pthread_mutex_lock (m : mutex) : C unit := trigger (Lock m).
Definition pthread_mutex_unlock (m : mutex) : C unit := trigger (Unlock m).

(** A function body inside its frame markers. *)
Definition fn {R} (f : func) (body : C R) : C R :=
  trigger (Enter f) ;; r <- body ;; trigger (Leave f) ;; ret r.

(** [*p = v] for [int *p]. *)
Definition store_int (p : ptr) (v : Z) : C unit :=
  match p with
  | NULL => undef NullDereference
  | Addr a => fun s =>
      match mem s !! a with
      | Some _ => Ret (tt, set_mem (<[a:=v]> (mem s)) s)
      | None => Undef InvalidPointer
      end
  end.

Definition safe_increment : C unit :=
  fn fn_safe_increment (
    pthread_mutex_lock g_lock_a ;;
    modify (fun s => set_g_shared_data (wrap_int (g_shared_data s + 1)) s) ;;
    pthread_mutex_unlock g_lock_a).

Definition risky_operation (result : ptr) : C Z :=
  fn fn_risky_operation (
    pthread_mutex_lock g_lock_a ;;
    if is_null result then
      ret (-1)
    else
      v <- gets g_shared_data ;;
      store_int result v ;;
      modify (fun s => set_g_counter (wrap_int (g_counter s + 1)) s) ;;
      pthread_mutex_unlock g_lock_a ;;
      ret 0).

Definition path_a_handler : C unit :=
  fn fn_path_a_handler (
    pthread_mutex_lock g_lock_a ;;
    modify (set_g_shared_data 1) ;;
    pthread_mutex_lock g_lock_b ;;
    modify (fun s => set_g_counter (wrap_int (g_counter s + 1)) s) ;;
    pthread_mutex_unlock g_lock_b ;;
    pthread_mutex_unlock g_lock_a).

Definition path_b_handler : C unit :=
  fn fn_path_b_handler (
    pthread_mutex_lock g_lock_b ;;
    modify (set_g_counter 1) ;;
    pthread_mutex_lock g_lock_a ;;
    modify (fun s => set_g_shared_data (wrap_int (g_shared_data s + 1)) s) ;;
    pthread_mutex_unlock g_lock_a ;;
    pthread_mutex_unlock g_lock_b).

Definition conditional_lock (condition : Z) : C unit :=
  fn fn_conditional_lock (
    (if condition >? 0 then
       pthread_mutex_lock g_lock_a ;;
       modify (fun s => set_g_shared_data (wrap_int (g_shared_data s + 1)) s)
     else
       modify (fun s => set_g_counter (wrap_int (g_counter s + 1)) s)) ;;
    pthread_mutex_unlock g_lock_a).

Definition on_message_callback (type : Z) (data : ptr) : C unit :=
  fn fn_on_message_callback (
    if type =? 1 then safe_increment
    else if type =? 2 then path_a_handler
    else ret tt).

Definition thread_entry (arg : ptr) : C ptr :=
  fn fn_thread_entry (
    on_message_callback 1 arg ;;
    ret NULL).

(** *** Reading a trace *)

Definition lock_of (ev : event ext) : option (lockop mutex) :=
  match ev with
  | Ev e _ =>
      match e with
      | Lock m => Some (Acquire m)
      | Unlock m => Some (Release m)
      | _ => None
      end
  end.

Definition lock_ops (tr : list (event ext)) : list (lockop mutex) :=
  omap lock_of tr.

(** Acquire-while-holding facts: [(f, (l1, l2))] when the frame of [f]
    acquires [l2] while the thread holds [l1].  [stack] is the call
    stack, innermost frame first. *)
Fixpoint order_edges_from (stack : list func) (h : list mutex)
    (tr : list (event ext)) : list (func * (mutex * mutex)) :=
  match tr with
  | [] => []
  | Ev e _ :: tr' =>
      match e with
      | Lock m =>
          match stack with
          | f :: _ => map (fun l => (f, (l, m))) h
          | [] => []
          end ++ order_edges_from stack (m :: h) tr'
      | Unlock m => order_edges_from stack (drop_lock m h) tr'
      | Enter f => order_edges_from (f :: stack) h tr'
      | Leave _ => order_edges_from (tail stack) h tr'
      end
  end.

Definition order_edges (tr : list (event ext)) : list (func * (mutex * mutex)) :=
  order_edges_from [] [] tr.

(** A call of one of the functions, with its arguments. *)
Inductive invocation : Type :=
| call_safe_increment
| call_risky_operation (result : ptr)
| call_path_a_handler
| call_path_b_handler
| call_conditional_lock (condition : Z)
| call_on_message_callback (type : Z) (data : ptr)
| call_thread_entry (arg : ptr).

Definition invoke (i : invocation) : C unit :=
  match i with
  | call_safe_increment => safe_increment
  | call_risky_operation result => risky_operation result ;; ret tt
  | call_path_a_handler => path_a_handler
  | call_path_b_handler => path_b_handler
  | call_conditional_lock condition => conditional_lock condition
  | call_on_message_callback type data => on_message_callback type data
  | call_thread_entry arg => thread_entry arg ;; ret tt
  end.

(** [f] contributes the lock-order edge [l1 -> l2]: in some run of some
    function of the unit, started with no lock held, a frame of [f]
    acquires [l2] while [l1] is held. *)
Definition contributes (f : func) (l1 l2 : mutex) : Prop :=
  exists i s tr o, exec (invoke i s) tr o /\ In (f, (l1, l2)) (order_edges tr).

(** The environment that answers the unit-valued calls. *)
Definition env (X : Type) (e : ext X) : X :=
  match e with
  | Lock _ | Unlock _ | Enter _ | Leave _ => tt
  end.

End SampleLock.

(** ** sample_protocol.c

    The two handlers that block while holding [conn_lock]. *)

Module SampleProtocol.

(** [pthread_mutex_t conn_lock]. *)
Inductive mutex : Type := conn_lock.

#[global] Instance mutex_eq_dec : EqDecision mutex.
Proof. solve_decision. Defined.

(** The pthread primitives and the two blocking socket calls.  [recv]
    answers the number of bytes it stored through [buffer] (or -1),
    [accept] the new descriptor (or -1); what they store through their
    pointer arguments is not read by the callers below. *)
Inductive ext : Type -> Type :=
| Lock (m : mutex) : ext unit
| Unlock (m : mutex) : ext unit
| Recv (fd : Z) (buffer : ptr) (maxlen : Z) (flags : Z) : ext Z
| Accept (server_fd : Z) : ext Z.

(** [int g_connection_state]. *)
Record state : Type := mkState { g_connection_state : Z }.

Definition C (R : Type) : Type := M ext state R.

Definition pthread_mutex_lock (m : mutex) : C unit := trigger (Lock m).
Definition pthread_mutex_unlock (m : mutex) : C unit := trigger (Unlock m).

Definition recv_data_handler (fd : Z) (buffer : ptr) (maxlen : Z) : C Z :=
  pthread_mutex_lock conn_lock ;;
  n <- trigger (Recv fd buffer maxlen 0) ;;
  let received := wrap_int n in
  pthread_mutex_unlock conn_lock ;;
  ret received.

Definition accept_connection_callback (server_fd : Z) : C Z :=
  pthread_mutex_lock conn_lock ;;
  client_fd <- trigger (Accept server_fd) ;;
  pthread_mutex_unlock conn_lock ;;
  if client_fd <? 0 then
    ret (-1)
  else
    modify (fun _ => mkState 2) ;;
    ret client_fd.

Definition lock_of (ev : event ext) : option (lockop mutex) :=
  match ev with
  | Ev e _ =>
      match e with
      | Lock m => Some (Acquire m)
      | Unlock m => Some (Release m)
      | _ => None
      end
  end.

Definition lock_ops (tr : list (event ext)) : list (lockop mutex) :=
  omap lock_of tr.

(** The receive / accept primitives. *)
Definition blocking (ev : event ext) : bool :=
  match ev with
  | Ev e _ =>
      match e with
      | Recv _ _ _ _ | Accept _ => true
      | _ => false
      end
  end.

(** The locks held at each blocking call of a trace, in order. *)
Definition held_at_blocking (tr : list (event ext)) : list (list mutex) :=
  map fst (filter (fun hev => blocking (snd hev) = true)
             (with_held_from lock_of [] tr)).

(** An environment whose [recv] and [accept] both answer [r]. *)
Definition env (r : Z) (X : Type) (e : ext X) : X :=
  match e with
  | Lock _ | Unlock _ => tt
  | Recv _ _ _ _ | Accept _ => r
  end.

End SampleProtocol.

(** ** sample_protocol.c, the connection functions

    The functions that open, use and close the connection.  Their calls
    are those of the two handlers above and the socket calls. *)

Module SampleProtocolIO.

Definition AF_INET : Z := 2.
Definition SOCK_STREAM : Z := 1.

(** [sizeof(struct sockaddr_in)]. *)
Definition sizeof_sockaddr_in : Z := 16.

(** [Connect] carries the fields of the address that the caller has set
    ([sin_family] and [sin_port]). *)
Inductive ext : Type -> Type :=
| Base {X : Type} (e : SampleProtocol.ext X) : ext X
| Socket (domain type protocol : Z) : ext Z
| Connect (sockfd sin_family sin_port addrlen : Z) : ext Z
| Close (fd : Z) : ext Z
| Send (fd : Z) (buf : list byte) (len flags : Z) : ext Z.

Definition C (R : Type) : Type := M ext SampleProtocol.state R.

Definition pthread_mutex_lock (m : SampleProtocol.mutex) : C unit :=
  trigger (Base (SampleProtocol.Lock m)).
Definition pthread_mutex_unlock (m : SampleProtocol.mutex) : C unit :=
  trigger (Base (SampleProtocol.Unlock m)).

(** [addr.sin_port = port] stores into 16 bits. *)
Definition init_connection (host : list byte) (port : Z) : C Z :=
  sockfd <- trigger (Socket AF_INET SOCK_STREAM 0) ;;
  if sockfd <? 0 then
    ret (-1)
  else
    c <- trigger (Connect sockfd AF_INET (port mod 2 ^ 16) sizeof_sockaddr_in) ;;
    if c <? 0 then
      trigger (Close sockfd) ;;
      ret (-2)
    else
      modify (fun _ => SampleProtocol.mkState 1) ;;
      ret sockfd.

Definition send_data (fd : Z) (input_buffer : list byte) (len : Z) : C Z :=
  pthread_mutex_lock SampleProtocol.conn_lock ;;
  if fd <? 0 then
    pthread_mutex_unlock SampleProtocol.conn_lock ;;
    ret (-1)
  else
    n <- trigger (Send fd input_buffer len 0) ;;
    let sent := wrap_int n in
    if sent <? 0 then
      pthread_mutex_unlock SampleProtocol.conn_lock ;;
      ret (-2)
    else
      pthread_mutex_unlock SampleProtocol.conn_lock ;;
      ret sent.

Definition close_connection (fd : Z) : C unit :=
  pthread_mutex_lock SampleProtocol.conn_lock ;;
  trigger (Close fd) ;;
  modify (fun _ => SampleProtocol.mkState 0) ;;
  pthread_mutex_unlock SampleProtocol.conn_lock.

(** The literal [hello] with its terminator. *)
Definition hello : list byte := [x68; x65; x6c; x6c; x6f; x00].

(** [buffer] is the address of the local [char buffer[256]]. *)
Definition process_handler (buffer : ptr) (fd cmd : Z) : C unit :=
  if cmd =? 1 then
    send_data fd hello 5 ;;
    ret tt
  else if cmd =? 2 then
    liftM (@Base) (SampleProtocol.recv_data_handler fd buffer 256) ;;
    ret tt
  else if cmd =? 0 then
    close_connection fd
  else
    ret tt.

Definition lock_of (ev : event ext) : option (lockop SampleProtocol.mutex) :=
  match ev with
  | Ev e x =>
      match e in ext X return X -> _ with
      | Base e' => fun x => SampleProtocol.lock_of (Ev e' x)
      | _ => fun _ => None
      end x
  end.

Definition lock_ops (tr : list (event ext))
  : list (lockop SampleProtocol.mutex) :=
  omap lock_of tr.

(** The receive / accept primitives, and the [send] calls. *)
Definition blocking (ev : event ext) : bool :=
  match ev with
  | Ev e x =>
      match e in ext X return X -> bool with
      | Base e' => fun x => SampleProtocol.blocking (Ev e' x)
      | _ => fun _ => false
      end x
  end.

Definition is_send (ev : event ext) : bool :=
  match ev with
  | Ev e _ =>
      match e with
      | Send _ _ _ _ => true
      | _ => false
      end
  end.

(** The locks held at each event of a trace that [P] selects, in
    order. *)
Definition held_where (P : event ext -> bool) (tr : list (event ext))
  : list (list SampleProtocol.mutex) :=
  map fst (filter (fun hev => P (snd hev) = true)
             (with_held_from lock_of [] tr)).

(** An environment whose calls all answer [r]. *)
Definition env (r : Z) (X : Type) (e : ext X) : X :=
  match e with
  | Base e' => SampleProtocol.env r _ e'
  | Socket _ _ _ | Connect _ _ _ _ | Close _ | Send _ _ _ _ => r
  end.

End SampleProtocolIO.

(** ** sample_overflow.c

    The allocation, string-copy and file-access functions that come in a
    vulnerable and a safe variant. *)

Module SampleOverflow.

(** Constants of the headers the unit includes (Linux, LP64). *)
Definition SIZE_MAX : Z := 2 ^ 64 - 1.
Definition R_OK : Z := 4.
Definition O_RDONLY : Z := 0.
Definition O_NOFOLLOW : Z := 131072.
Definition S_IFMT : Z := 61440.
Definition S_IFREG : Z := 32768.

(** [S_ISREG(m)]: [((m) & S_IFMT) == S_IFREG]. *)
Definition S_ISREG (m : Z) : bool := Z.land m S_IFMT =? S_IFREG.

(** Calls into libc and the kernel.  [Fstat] answers the result and the
    [st_mode] it stored. *)
Inductive ext : Type -> Type :=
| Malloc (size : Z) : ext ptr
| Printf (format : string) (args : list printf_arg) : ext Z
| Access (path : string) (mode : Z) : ext Z
| Open (path : string) (flags : Z) : ext Z
| Fstat (fd : Z) : ext (Z * Z)
| Close (fd : Z) : ext Z.

(** The unit has no globals. *)
Definition C (R : Type) : Type := M ext unit R.

(** *** [size_t] arithmetic *)

(** [a / b] on [size_t]: undefined for a zero divisor. *)
Definition size_div (a b : Z) : C Z :=
  if b =? 0 then undef DivisionByZero else ret (a / b).

(** [a * b] on [size_t]: reduced modulo [SIZE_MAX + 1]. *)
Definition size_mul (a b : Z) : Z := (a * b) mod (SIZE_MAX + 1).

Definition allocate_buffer (count size : Z) : C ptr :=
  buf <- trigger (Malloc (size_mul count size)) ;;
  ret buf.

Definition allocate_buffer_safe (count size : Z) : C ptr :=
  q <- size_div SIZE_MAX size ;;
  if count >? q then
    ret NULL
  else
    buf <- trigger (Malloc (size_mul count size)) ;;
    ret buf.

(** *** Local [char] arrays and the string functions *)

(** A local array: every cell is a byte or not yet written. *)
Abbreviation array := (list (option byte)).

Definition local_array (n : nat) : array := replicate n None.

(** [a[i] = b], undefined outside the declared bounds. *)
Definition store (a : array) (i : Z) (b : byte) : C array :=
  if (0 <=? i) && (i <? Z.of_nat (length a)) then
    ret (<[Z.to_nat i := Some b]> a)
  else
    undef (OutOfBounds i (Z.of_nat (length a))).

(** [strlen]: bytes before the first NUL; the end of the list stands for
    the terminator of the caller's string. *)
Fixpoint strlen (s : list byte) : Z :=
  match s with
  | [] => 0
  | b :: s' => if is_nul b then 0 else 1 + strlen s'
  end.

(** [strcpy(dest + i, src)]: the bytes of [src] and then the NUL, one
    store after the other. *)
Fixpoint strcpy_from (i : Z) (dest : array) (src : list byte) : C array :=
  match src with
  | [] => store dest i x00
  | b :: src' =>
      if is_nul b then store dest i x00
      else dest' <- store dest i b ;; strcpy_from (i + 1) dest' src'
  end.

Definition strcpy (dest : array) (src : list byte) : C array :=
  strcpy_from 0 dest src.

(** [strncpy(dest + i, src, n)]: exactly [n] stores, the bytes of [src]
    and then NUL padding. *)
Fixpoint strncpy_from (i : Z) (dest : array) (src : list byte) (n : nat)
  : C array :=
  match n with
  | O => ret dest
  | S n' =>
      match src with
      | [] => dest' <- store dest i x00 ;; strncpy_from (i + 1) dest' [] n'
      | b :: src' =>
          if is_nul b then
            dest' <- store dest i x00 ;; strncpy_from (i + 1) dest' [] n'
          else
            dest' <- store dest i b ;; strncpy_from (i + 1) dest' src' n'
      end
  end.

Definition strncpy (dest : array) (src : list byte) (n : Z) : C array :=
  strncpy_from 0 dest src (Z.to_nat n).

(** Reading the string held in an array (what [%s] does). *)
Fixpoint load_str_from (i cap : Z) (a : array) : C (list byte) :=
  match a with
  | [] => undef (OutOfBounds i cap)
  | None :: _ => undef UninitialisedRead
  | Some b :: a' =>
      if is_nul b then ret []
      else s <- load_str_from (i + 1) cap a' ;; ret (b :: s)
  end.

Definition load_str (a : array) : C (list byte) :=
  load_str_from 0 (Z.of_nat (length a)) a.

(** The string held in [s]: its bytes before the first NUL. *)
Fixpoint c_str (s : list byte) : list byte :=
  match s with
  | [] => []
  | b :: s' => if is_nul b then [] else b :: c_str s'
  end.

(** The [n] bytes [strncpy] produces from [src]: the string, cut or
    padded with NUL to length [n]. *)
Fixpoint pad (n : nat) (src : list byte) : list byte :=
  match n with
  | O => []
  | S n' =>
      match src with
      | [] => x00 :: pad n' []
      | b :: src' => if is_nul b then x00 :: pad n' [] else b :: pad n' src'
      end
  end.

(** [sizeof(a)] for [char a[n]]. *)
Definition sizeof (a : array) : Z := Z.of_nat (length a).

(** Both functions are [void]; the embedding hands back the final
    contents of the local [buffer] so that they can be inspected. *)
Definition process_username (input : list byte) : C array :=
  let buffer := local_array 64 in
  buffer <- strcpy buffer input ;;
  shown <- load_str buffer ;;
  trigger (Printf (String.append "User: %s" newline) [ArgStr shown]) ;;
  ret buffer.

Definition process_username_safe (input : list byte) : C array :=
  let buffer := local_array 64 in
  buffer <- strncpy buffer input (sizeof buffer - 1) ;;
  buffer <- store buffer (sizeof buffer - 1) x00 ;;
  shown <- load_str buffer ;;
  trigger (Printf (String.append "User: %s" newline) [ArgStr shown]) ;;
  ret buffer.

(** [strcat(dest, src)]: look for the NUL that ends the string in [dest],
    then copy [src] there. *)
Fixpoint find_nul_from (i cap : Z) (a : array) : C Z :=
  match a with
  | [] => undef (OutOfBounds i cap)
  | None :: _ => undef UninitialisedRead
  | Some b :: a' => if is_nul b then ret i else find_nul_from (i + 1) cap a'
  end.

Definition strcat (dest : array) (src : list byte) : C array :=
  i <- find_nul_from 0 (Z.of_nat (length dest)) dest ;;
  strcpy_from i dest src.

(** The literal [/]. *)
Definition slash : list byte := [x2f; x00].

(** As for [process_username], the final [path] is handed back. *)
Definition build_path (dir file : list byte) : C array :=
  let path := local_array 128 in
  path <- strcpy path dir ;;
  path <- strcat path slash ;;
  path <- strcat path file ;;
  shown <- load_str path ;;
  trigger (Printf (String.append "Path: %s" newline) [ArgStr shown]) ;;
  ret path.

(** *** File access *)

Definition open_if_readable (path : string) : C Z :=
  r <- trigger (Access path R_OK) ;;
  if r =? 0 then
    trigger (Open path O_RDONLY)
  else
    ret (-1).

Definition open_and_verify (path : string) : C Z :=
  fd <- trigger (Open path (Z.lor O_RDONLY O_NOFOLLOW)) ;;
  if fd <? 0 then
    ret (-1)
  else
    st <- trigger (Fstat fd) ;;
    let '(r, st_mode) := st in
    if r <? 0 then
      trigger (Close fd) ;;
      ret (-1)
    else if negb (S_ISREG st_mode) then
      trigger (Close fd) ;;
      ret (-1)
    else
      ret fd.

(** What a filesystem call operates on: a path string or a descriptor. *)
Inductive fs_op : Type :=
| CheckByPath (path : string) (mode result : Z)
| OpenByPath (path : string) (flags fd : Z)
| CheckByFd (fd : Z)
| CloseFd (fd : Z).

Definition fs_of (ev : event ext) : option fs_op :=
  match ev with
  | Ev e x =>
      match e in ext X return X -> option fs_op with
      | Access path mode => fun r => Some (CheckByPath path mode r)
      | Open path flags => fun fd => Some (OpenByPath path flags fd)
      | Fstat fd => fun _ => Some (CheckByFd fd)
      | Close fd => fun _ => Some (CloseFd fd)
      | _ => fun _ => None
      end x
  end.

Definition fs_ops (tr : list (event ext)) : list fs_op := omap fs_of tr.

(** An environment: [malloc] fails, every other call answers [r], and
    [fstat] reports [mode]. *)
Definition env (r mode : Z) (X : Type) (e : ext X) : X :=
  match e with
  | Malloc _ => NULL
  | Printf _ _ | Access _ _ | Open _ _ | Close _ => r
  | Fstat _ => (r, mode)
  end.

End SampleOverflow.

(** ** sample_overflow.c, the functions that check a path with [stat] *)

Module SampleOverflowStat.

(** [Stat] answers the result and the [st_mode] it stored. *)
Inductive ext : Type -> Type :=
| Stat (path : string) : ext (Z * Z)
| Unlink (path : string) : ext Z
| Open (path : string) (flags : Z) : ext Z.

Definition C (R : Type) : Type := M ext unit R.

Definition delete_if_regular (path : string) : C Z :=
  st <- trigger (Stat path) ;;
  let '(r, st_mode) := st in
  if r =? 0 then
    if SampleOverflow.S_ISREG st_mode then
      trigger (Unlink path)
    else
      ret (-1)
  else
    ret (-1).

Definition open_regular_file (path : string) : C Z :=
  st <- trigger (Stat path) ;;
  let '(r, st_mode) := st in
  if r <? 0 then
    ret (-1)
  else if negb (SampleOverflow.S_ISREG st_mode) then
    ret (-1)
  else
    trigger (Open path SampleOverflow.O_RDONLY).

(** What a call of a trace did, by path. *)
Inductive path_op : Type :=
| StatPath (path : string) (result st_mode : Z)
| UnlinkPath (path : string) (result : Z)
| OpenPath (path : string) (flags fd : Z).

Definition path_of (ev : event ext) : path_op :=
  match ev with
  | Ev e x =>
      match e in ext X return X -> path_op with
      | Stat path => fun st => StatPath path (fst st) (snd st)
      | Unlink path => fun r => UnlinkPath path r
      | Open path flags => fun fd => OpenPath path flags fd
      end x
  end.

(** An environment: [stat] answers [r] and reports [mode]; the other
    calls answer [fd]. *)
Definition env (r mode fd : Z) (X : Type) (e : ext X) : X :=
  match e with
  | Stat _ => (r, mode)
  | Unlink _ | Open _ _ => fd
  end.

End SampleOverflowStat.

(** ** sample_funcptr.c *)

Module SampleFuncptr.

(** The functions of the unit; a function pointer holds one of them or
    is null. *)
Inductive func : Type :=
| fn_my_callback
| fn_process_data
| fn_cleanup_handler
| fn_test_direct_assignment
| fn_test_addressof_assignment
| fn_test_struct_member
| fn_test_array_funcptr
| fn_register_callback
| fn_setup_callbacks.

#[global] Instance func_eq_dec : EqDecision func.
Proof. solve_decision. Defined.

Inductive fnptr : Type :=
| FnNull
| Fn (f : func).

(** A function name used as a value ([f]) and its address ([&f]) are the
    same pointer. *)
Definition designator (f : func) : fnptr := Fn f.
Definition address_of (f : func) : fnptr := Fn f.

(** Argument values. *)
Inductive value : Type :=
| Vint (z : Z)
| Vptr (p : ptr)
| Vfn (p : fnptr).

(** Calls that leave the unit, and the marker of a function of the unit
    being entered with its arguments. *)
Inductive ext : Type -> Type :=
| Printf (format : string) (args : list printf_arg) : ext Z
| Free (p : ptr) : ext unit
| Enter (f : func) (args : list value) : ext unit.

(** [callback_t callback_table[10]] and the [static callback_t saved_cb]
    of [register_callback]. *)
Record state : Type := mkState {
  callback_table : list fnptr;
  saved_cb : fnptr
}.

(** Static storage starts out null. *)
Definition initial : state := mkState (replicate 10 FnNull) FnNull.

Definition C (R : Type) : Type := M ext state R.

(** [struct handler_ops]; a field of a local is unset until assigned. *)
Record handler_ops : Type := mkOps {
  process : option fnptr;
  cleanup : option fnptr
}.

Definition my_callback (val : Z) : C unit :=
  trigger (Enter fn_my_callback [Vint val]) ;;
  trigger (Printf (String.append "Callback called with %d" newline)
             [ArgInt val]) ;;
  ret tt.

Definition process_data (data : ptr) (len : Z) : C Z :=
  trigger (Enter fn_process_data [Vptr data; Vint len]) ;;
  if is_null data || (len =? 0) then ret (-1) else ret 0.

Definition cleanup_handler (data : ptr) (len : Z) : C Z :=
  trigger (Enter fn_cleanup_handler [Vptr data; Vint len]) ;;
  (if is_null data then ret tt else trigger (Free data)) ;;
  ret 0.

(** A call through a [callback_t], a pointer to a function from [int]
    to [void]: the pointer must hold a function of that type. *)
Definition call_callback_t (p : fnptr) (val : Z) : C unit :=
  match p with
  | Fn fn_my_callback => my_callback val
  | FnNull => undef NullDereference
  | Fn _ => undef BadIndirectCall
  end.

(** A call through a [handler_func], a pointer to a function from a
    [void] pointer and a [size_t] to [int]. *)
Definition call_handler_func (p : option fnptr) (data : ptr) (len : Z) : C Z :=
  match p with
  | None => undef UninitialisedRead
  | Some (Fn fn_process_data) => process_data data len
  | Some (Fn fn_cleanup_handler) => cleanup_handler data len
  | Some FnNull => undef NullDereference
  | Some (Fn _) => undef BadIndirectCall
  end.

(** [callback_table[i]] as an lvalue and as an rvalue. *)
Definition table_store (i : Z) (p : fnptr) : C unit :=
  fun s =>
    let t := callback_table s in
    if (0 <=? i) && (i <? Z.of_nat (length t)) then
      Ret (tt, mkState (<[Z.to_nat i := p]> t) (saved_cb s))
    else
      Undef (OutOfBounds i (Z.of_nat (length t))).

Definition table_load (i : Z) : C fnptr :=
  fun s =>
    let t := callback_table s in
    match (if 0 <=? i then t !! Z.to_nat i else None) with
    | Some p => Ret (p, s)
    | None => Undef (OutOfBounds i (Z.of_nat (length t)))
    end.

Definition test_direct_assignment : C unit :=
  trigger (Enter fn_test_direct_assignment []) ;;
  let cb := designator fn_my_callback in
  call_callback_t cb 42.

Definition test_addressof_assignment : C unit :=
  trigger (Enter fn_test_addressof_assignment []) ;;
  let cb := address_of fn_my_callback in
  call_callback_t cb 100.

Definition test_struct_member : C unit :=
  trigger (Enter fn_test_struct_member []) ;;
  let ops := mkOps None None in
  let ops := mkOps (Some (designator fn_process_data)) (cleanup ops) in
  let ops := mkOps (process ops) (Some (designator fn_cleanup_handler)) in
  call_handler_func (process ops) NULL 0 ;;
  call_handler_func (cleanup ops) NULL 0 ;;
  ret tt.

Definition test_array_funcptr : C unit :=
  trigger (Enter fn_test_array_funcptr []) ;;
  table_store 0 (designator fn_my_callback) ;;
  table_store 1 (designator fn_my_callback) ;;
  for_upto (R := unit) 2 0 (fun i =>
    p <- table_load i ;;
    call_callback_t p i ;;
    ret None) ;;
  ret tt.

Definition register_callback (cb : fnptr) : C unit :=
  trigger (Enter fn_register_callback [Vfn cb]) ;;
  modify (fun s => mkState (callback_table s) cb).

Definition setup_callbacks : C unit :=
  trigger (Enter fn_setup_callbacks []) ;;
  register_callback (designator fn_my_callback).

(** The functions entered during a run, with their arguments, in order. *)
Definition call_of (ev : event ext) : option (func * list value) :=
  match ev with
  | Ev e _ =>
      match e with
      | Enter f args => Some (f, args)
      | _ => None
      end
  end.

Definition calls (tr : list (event ext)) : list (func * list value) :=
  omap call_of tr.

(** An environment whose [printf] answers [r]. *)
Definition env (r : Z) (X : Type) (e : ext X) : X :=
  match e with
  | Printf _ _ => r
  | Free _ | Enter _ _ => tt
  end.

End SampleFuncptr.

(** ** sample_branch.c *)

Module SampleBranch.

(** The two functions below call nothing outside the unit. *)
Inductive ext : Type -> Type := .

(** [int global_counter], [static int g_status]. *)
Record state : Type := mkState {
  global_counter : Z;
  g_status : Z
}.

Definition set_global_counter (v : Z) (s : state) : state :=
  mkState v (g_status s).
Definition set_g_status (v : Z) (s : state) : state :=
  mkState (global_counter s) v.

Definition initial : state := mkState 0 0.

Definition C (R : Type) : Type := M ext state R.

(** [buffer[i]] for the array [buffer] points to. *)
Definition load (buffer : list byte) (i : Z) : C byte :=
  match (if 0 <=? i then buffer !! Z.to_nat i else None) with
  | Some b => ret b
  | None => undef (OutOfBounds i (Z.of_nat (length buffer)))
  end.

(** [buffer] is [None] for the null pointer, else the array it points
    to.  The loop leaves early ([break]) at the first NUL. *)
Definition process_input (buffer : option (list byte)) (size : Z) : C Z :=
  match buffer with
  | None => ret (-1)
  | Some buf =>
      if size <=? 0 then ret (-2)
      else if size >? 1024 then ret (-3)
      else
        modify (fun s => set_global_counter (wrap_int (global_counter s + 1)) s) ;;
        for_upto (Z.to_nat size) 0 (fun i =>
          b <- load buf i ;;
          if is_nul b then ret (Some tt) else ret None) ;;
        ret 0
  end.

(** The body of [while (g_status > 0)]. *)
Definition decrement_status : C unit :=
  modify (fun s => set_g_status (wrap_int (g_status s - 1)) s).

(** The [switch] either returns from the function ([Some v]) or breaks
    to the loop after it ([None]). *)
Definition handle_command (fuel : nat) (cmd : Z) : C Z :=
  left <- match cmd with
          | 1 =>
              modify (set_g_status 1) ;;
              v <- process_input None 0 ;;
              ret (Some v)
          | 2 =>
              modify (set_g_status 2) ;;
              ret None
          | 3 =>
              modify (set_g_status 3) ;;
              ret None
          | _ =>
              modify (set_g_status (-1)) ;;
              ret (Some (-1))
          end ;;
  match left with
  | Some v => ret v
  | None =>
      while fuel (fun s => g_status s >? 0) decrement_status ;;
      ret 0
  end.

(** [ret < 0] sends [cmd_handler] back before it looks at [data]. *)
Definition cmd_handler (fuel : nat) (cmd : Z) (data : option (list byte))
    (len : Z) : C unit :=
  r <- handle_command fuel cmd ;;
  if r <? 0 then
    ret tt
  else
    process_input data len ;;
    ret tt.

(** [argv] is the array of argument strings; reading [argv[1]] outside
    it is out of bounds. *)
Definition main (fuel : nat) (argc : Z) (argv : list (option (list byte)))
  : C Z :=
  if argc <? 2 then
    ret 1
  else
    match argv !! 1%nat with
    | Some arg => cmd_handler fuel 1 arg 10 ;; ret 0
    | None => undef (OutOfBounds 1 (Z.of_nat (length argv)))
    end.

End SampleBranch.

(** ** storage_module.c *)

Module StorageModule.

Definition MAX_KEY_LEN : Z := 256.
Definition POOL_SIZE : Z := 64.

(** [<errno.h>] on Linux. *)
Definition EINVAL : Z := 22.
Definition ENOSPC : Z := 28.
Definition EEXIST : Z := 17.

(** [block_entry_t]; [key] is the contents of [char key[MAX_KEY_LEN]].
    The [lock] member is the mutex [entry_lock] of the entry's address. *)
Record block_entry_t : Type := mkEntry {
  key : list byte;
  data : ptr;
  size : Z;
  ref_count : Z
}.

(** [block_pool_t]; the [pool_lock] member is the mutex [pool_lock] of
    the pool's address. *)
Record block_pool_t : Type := mkPool {
  entries : list ptr;
  count : Z
}.

(** A mutex is named by the object it is a member of. *)
Inductive mutex : Type :=
| pool_lock (pool : ptr)
| entry_lock (entry : ptr).

#[global] Instance mutex_eq_dec : EqDecision mutex.
Proof. solve_decision. Defined.

Inductive ext : Type -> Type :=
| Lock (m : mutex) : ext unit
| Unlock (m : mutex) : ext unit.

(** The pools and entries that are allocated, by address. *)
Record state : Type := mkState {
  pools : gmap N block_pool_t;
  blocks : gmap N block_entry_t
}.

Definition C (R : Type) : Type := M ext state R.

Definition pthread_mutex_lock (m : mutex) : C unit := trigger (Lock m).
Definition pthread_mutex_unlock (m : mutex) : C unit := trigger (Unlock m).

(** [*pool] and [*entry]. *)
Definition load_pool (pool : ptr) : C block_pool_t :=
  match pool with
  | NULL => undef NullDereference
  | Addr a => fun s =>
      match pools s !! a with
      | Some p => Ret (p, s)
      | None => Undef InvalidPointer
      end
  end.

Definition store_pool (pool : ptr) (p : block_pool_t) : C unit :=
  match pool with
  | NULL => undef NullDereference
  | Addr a => fun s =>
      match pools s !! a with
      | Some _ => Ret (tt, mkState (<[a:=p]> (pools s)) (blocks s))
      | None => Undef InvalidPointer
      end
  end.

Definition load_entry (entry : ptr) : C block_entry_t :=
  match entry with
  | NULL => undef NullDereference
  | Addr a => fun s =>
      match blocks s !! a with
      | Some e => Ret (e, s)
      | None => Undef InvalidPointer
      end
  end.

(** [pool->entries[i]] as an rvalue and as an lvalue. *)
Definition load_slot (pool : ptr) (i : Z) : C ptr :=
  p <- load_pool pool ;;
  match (if 0 <=? i then entries p !! Z.to_nat i else None) with
  | Some e => ret e
  | None => undef (OutOfBounds i (Z.of_nat (length (entries p))))
  end.

Definition store_slot (pool : ptr) (i : Z) (e : ptr) : C unit :=
  p <- load_pool pool ;;
  if (0 <=? i) && (i <? Z.of_nat (length (entries p))) then
    store_pool pool (mkPool (<[Z.to_nat i := e]> (entries p)) (count p))
  else
    undef (OutOfBounds i (Z.of_nat (length (entries p)))).

(** [strcmp] on the contents of two arrays; running off the end of one
    before a NUL or a difference is an out-of-bounds read. *)
Fixpoint strcmp (a b : list byte) : C Z :=
  match a, b with
  | ca :: a', cb :: b' =>
      if negb (Byte.eqb ca cb) then
        ret (Z.of_N (Byte.to_N ca) - Z.of_N (Byte.to_N cb))
      else if is_nul ca then ret 0
      else strcmp a' b'
  | _, _ => undef (OutOfBounds MAX_KEY_LEN MAX_KEY_LEN)
  end.

Definition pool_insert (pool entry : ptr) : C Z :=
  if is_null pool || is_null entry then
    ret (- EINVAL)
  else
    pthread_mutex_lock (pool_lock pool) ;;
    p <- load_pool pool ;;
    if count p >=? POOL_SIZE then
      ret (- ENOSPC)
    else
      dup <- for_upto (Z.to_nat (count p)) 0 (fun i =>
               slot <- load_slot pool i ;;
               other <- load_entry slot ;;
               mine <- load_entry entry ;;
               c <- strcmp (key other) (key mine) ;;
               if c =? 0 then
                 pthread_mutex_unlock (pool_lock pool) ;;
                 ret (Some (- EEXIST))
               else
                 ret None) ;;
      match dup with
      | Some r => ret r
      | None =>
          p <- load_pool pool ;;
          store_slot pool (count p) entry ;;
          p <- load_pool pool ;;
          store_pool pool (mkPool (entries p) (wrap_int (count p + 1))) ;;
          pthread_mutex_unlock (pool_lock pool) ;;
          ret 0
      end.

(** *** Validation and lookup *)

Definition MAX_BLOCK_SIZE : Z := 4 * 1024 * 1024.
Definition ENAMETOOLONG : Z := 36.
Definition EFBIG : Z := 27.

(** [strlen] on the contents of an array; running off its end before a
    NUL is an out-of-bounds read. *)
Fixpoint strlen (s : list byte) : C Z :=
  match s with
  | [] => undef (OutOfBounds MAX_KEY_LEN MAX_KEY_LEN)
  | b :: s' => if is_nul b then ret 0 else n <- strlen s' ;; ret (1 + n)
  end.

(** A [const char *key]: [None] for the null pointer, else the array it
    points to. *)
Definition validate_key (key : option (list byte)) : C Z :=
  match key with
  | None => ret (- EINVAL)
  | Some k =>
      len <- strlen k ;;
      if len =? 0 then ret (- EINVAL)
      else if len >=? MAX_KEY_LEN then ret (- ENAMETOOLONG)
      else ret 0
  end.

Definition validate_size (size : Z) : C Z :=
  if size =? 0 then ret (- EINVAL)
  else if size >? MAX_BLOCK_SIZE then ret (- EFBIG)
  else ret 0.

Definition pool_lookup (pool : ptr) (key : option (list byte)) : C ptr :=
  match key with
  | None => ret NULL
  | Some k =>
      if is_null pool then
        ret NULL
      else
        pthread_mutex_lock (pool_lock pool) ;;
        p <- load_pool pool ;;
        hit <- for_upto (Z.to_nat (count p)) 0 (fun i =>
                 slot <- load_slot pool i ;;
                 other <- load_entry slot ;;
                 c <- strcmp (StorageModule.key other) k ;;
                 if c =? 0 then
                   found <- load_slot pool i ;;
                   pthread_mutex_unlock (pool_lock pool) ;;
                   ret (Some found)
                 else
                   ret None) ;;
        match hit with
        | Some found => ret found
        | None =>
            pthread_mutex_unlock (pool_lock pool) ;;
            ret NULL
        end
  end.

(** Slot [i] of the pool [p] holds the pointer [e], which addresses a
    live entry whose key is the string [ks]. *)
Definition slot_key (s : state) (p : block_pool_t) (i : Z) (e : ptr)
    (ks : list byte) : Prop :=
  0 <= i /\ entries p !! Z.to_nat i = Some e
  /\ exists a other, e = Addr a /\ blocks s !! a = Some other
                     /\ SampleOverflow.c_str (StorageModule.key other) = ks.

Definition lock_of (ev : event ext) : option (lockop mutex) :=
  match ev with
  | Ev e _ =>
      match e with
      | Lock m => Some (Acquire m)
      | Unlock m => Some (Release m)
      end
  end.

Definition lock_ops (tr : list (event ext)) : list (lockop mutex) :=
  omap lock_of tr.

Definition env (X : Type) (e : ext X) : X :=
  match e with
  | Lock _ | Unlock _ => tt
  end.

(** Sample stores: a pool at address 1, entries at 10 (key [A]), 11 (key
    [B]) and 12 (key [A] again).  In the first the pool holds the entry
    at 10 only; in the second all [POOL_SIZE] slots are taken. *)
Definition entry_named (k : byte) : block_entry_t :=
  mkEntry (k :: replicate 255 x00) NULL 1 1.

Definition sample_blocks : gmap N block_entry_t :=
  {[ 10%N := entry_named x41; 11%N := entry_named x42;
     12%N := entry_named x41 ]}.

Definition one_entry_store : state :=
  mkState {[ 1%N := mkPool (Addr 10 :: replicate 63 NULL) 1 ]} sample_blocks.

Definition full_store : state :=
  mkState {[ 1%N := mkPool (replicate 64 (Addr 10)) 64 ]} sample_blocks.

End StorageModule.

(** ** storage_module.c, the storage interface

    The functions that allocate entries and write them to a pool, read
    them back and delete them.  Their calls are those of the pool
    functions above, the allocator, the initialisation of an entry's
    mutex, [memcpy] on block data (the bytes of a block are not part of
    the store) and the store through [out_size]. *)

Module StorageApi.

Definition MAX_RETRIES : Z := 3.

(** [<errno.h>] on Linux. *)
Definition ENOMEM : Z := 12.
Definition EIO : Z := 5.

(** [sizeof(block_entry_t)] on x86-64 with glibc. *)
Definition sizeof_block_entry_t : Z := 320.

Inductive ext : Type -> Type :=
| Pool {X : Type} (e : StorageModule.ext X) : ext X
| Malloc (size : Z) : ext ptr
| Free (p : ptr) : ext unit
| MutexInit (m : StorageModule.mutex) : ext unit
| MutexDestroy (m : StorageModule.mutex) : ext unit
| Memcpy (dest src : ptr) (n : Z) : ext unit
| StoreSize (p : ptr) (n : Z) : ext unit.

Definition C (R : Type) : Type := M ext StorageModule.state R.

(** A function of the pool layer, called from here. *)
Definition pool_call {R} (m : StorageModule.C R) : C R := liftM (@Pool) m.

(** The block [entry] points to comes to hold [e] (its first complete
    contents, or a changed field). *)
Definition store_entry (entry : ptr) (e : StorageModule.block_entry_t)
  : C unit :=
  match entry with
  | NULL => undef NullDereference
  | Addr a =>
      modify (fun s => StorageModule.mkState (StorageModule.pools s)
                         (<[a := e]> (StorageModule.blocks s)))
  end.

(** [free(entry)]: the block is gone from the store. *)
Definition free_block (entry : ptr) : C unit :=
  trigger (Free entry) ;;
  match entry with
  | NULL => ret tt
  | Addr a =>
      modify (fun s => StorageModule.mkState (StorageModule.pools s)
                         (delete a (StorageModule.blocks s)))
  end.

(** What [strncpy(entry->key, key, MAX_KEY_LEN - 1)] followed by
    [entry->key[MAX_KEY_LEN - 1] = 0] leaves in [entry->key]. *)
Definition copied_key (key : list byte) : list byte :=
  SampleOverflow.pad (Z.to_nat (StorageModule.MAX_KEY_LEN - 1)) key ++ [x00].

(** The fields of the new block are written one by one in the source;
    the block enters the store here once they are all set, right before
    its mutex is initialised.  When the second [malloc] fails the first
    block is not given back. *)
Definition alloc_entry (key : option (list byte)) (size : Z) : C ptr :=
  entry <- trigger (Malloc sizeof_block_entry_t) ;;
  if is_null entry then
    ret NULL
  else
    data <- trigger (Malloc size) ;;
    if is_null data then
      ret NULL
    else
      match key with
      | None => undef NullDereference
      | Some k =>
          store_entry entry
            (StorageModule.mkEntry (copied_key k) data size 1) ;;
          trigger (MutexInit (StorageModule.entry_lock entry)) ;;
          ret entry
      end.

Definition free_entry (entry : ptr) : C unit :=
  if is_null entry then
    ret tt
  else
    e <- pool_call (StorageModule.load_entry entry) ;;
    (if negb (is_null (StorageModule.data e)) then
       trigger (Free (StorageModule.data e)) ;;
       store_entry entry
         (StorageModule.mkEntry (StorageModule.key e) NULL
            (StorageModule.size e) (StorageModule.ref_count e))
     else
       ret tt) ;;
    trigger (MutexDestroy (StorageModule.entry_lock entry)) ;;
    free_block entry.

(** The retry loop runs its body for [retries = 0, 1, 2]; a turn leaves
    the function ([Some r]) or goes on. *)
Definition storage_write (pool : ptr) (key : option (list byte))
    (data : ptr) (size : Z) : C Z :=
  r <- pool_call (StorageModule.validate_key key) ;;
  if r <? 0 then
    ret r
  else
    r <- pool_call (StorageModule.validate_size size) ;;
    if r <? 0 then
      ret r
    else
      entry <- alloc_entry key size ;;
      if is_null entry then
        ret (- ENOMEM)
      else
        e <- pool_call (StorageModule.load_entry entry) ;;
        trigger (Memcpy (StorageModule.data e) data size) ;;
        done <- for_upto (Z.to_nat MAX_RETRIES) 0 (fun retries =>
                  r <- pool_call (StorageModule.pool_insert pool entry) ;;
                  if r =? 0 then
                    ret (Some 0)
                  else if r =? - StorageModule.EEXIST then
                    free_entry entry ;;
                    ret (Some (- StorageModule.EEXIST))
                  else
                    ret None) ;;
        match done with
        | Some r => ret r
        | None =>
            free_entry entry ;;
            ret (- EIO)
        end.

(** *** Reading and deleting *)

Definition ENOENT : Z := 2.
Definition ERANGE : Z := 34.

(** [*out_size = entry->size] writes to an object of the caller: the
    call [StoreSize out_size n]. *)
Definition storage_read (pool : ptr) (key : option (list byte))
    (buf : ptr) (buf_size : Z) (out_size : ptr) : C Z :=
  r <- pool_call (StorageModule.validate_key key) ;;
  if r <? 0 then
    ret r
  else
    entry <- pool_call (StorageModule.pool_lookup pool key) ;;
    if is_null entry then
      ret (- ENOENT)
    else
      pool_call (StorageModule.pthread_mutex_lock
                   (StorageModule.entry_lock entry)) ;;
      e <- pool_call (StorageModule.load_entry entry) ;;
      if buf_size <? StorageModule.size e then
        pool_call (StorageModule.pthread_mutex_unlock
                     (StorageModule.entry_lock entry)) ;;
        ret (- ERANGE)
      else
        trigger (Memcpy buf (StorageModule.data e) (StorageModule.size e)) ;;
        (if negb (is_null out_size) then
           trigger (StoreSize out_size (StorageModule.size e))
         else
           ret tt) ;;
        pool_call (StorageModule.pthread_mutex_unlock
                     (StorageModule.entry_lock entry)) ;;
        ret 0.

(** [strcmp(pool->entries[i]->key, key)]. *)
Definition key_at (pool : ptr) (i : Z) (k : list byte)
  : StorageModule.C Z :=
  (slot <- StorageModule.load_slot pool i ;;
   other <- StorageModule.load_entry slot ;;
   StorageModule.strcmp (StorageModule.key other) k)%prog.

(** [pool->count--]. *)
Definition decrement_count (pool : ptr) : StorageModule.C unit :=
  (p <- StorageModule.load_pool pool ;;
   StorageModule.store_pool pool
     (StorageModule.mkPool (StorageModule.entries p)
        (wrap_int (StorageModule.count p - 1))))%prog.

(** The loops read [pool->count], which only the turn that leaves the
    function writes.  A null [key] does not get past [validate_key];
    [pool] is used without a check. *)
Definition storage_delete (pool : ptr) (key : option (list byte)) : C Z :=
  r <- pool_call (StorageModule.validate_key key) ;;
  if r <? 0 then
    ret r
  else
    match key with
    | None => undef NullDereference
    | Some k =>
        if is_null pool then
          undef NullDereference
        else
          pool_call (StorageModule.pthread_mutex_lock
                       (StorageModule.pool_lock pool)) ;;
          p <- pool_call (StorageModule.load_pool pool) ;;
          done <- for_upto (Z.to_nat (StorageModule.count p)) 0 (fun i =>
                    c <- pool_call (key_at pool i k) ;;
                    if c =? 0 then
                      entry <- pool_call (StorageModule.load_slot pool i) ;;
                      for_upto
                        (Z.to_nat (wrap_int (StorageModule.count p - 1) - i))
                        i (fun j =>
                             next <- pool_call
                                       (StorageModule.load_slot pool (j + 1)) ;;
                             pool_call (StorageModule.store_slot pool j next) ;;
                             ret (@None unit)) ;;
                      pool_call (decrement_count pool) ;;
                      pool_call (StorageModule.pthread_mutex_unlock
                                   (StorageModule.pool_lock pool)) ;;
                      free_entry entry ;;
                      ret (Some 0)
                    else
                      ret None) ;;
          match done with
          | Some r => ret r
          | None =>
              pool_call (StorageModule.pthread_mutex_unlock
                           (StorageModule.pool_lock pool)) ;;
              ret (- ENOENT)
          end
    end.

(** *** Batches *)

(** [a[i]] for an array argument. *)
Definition index {A} (a : list A) (i : Z) : C A :=
  match (if 0 <=? i then a !! Z.to_nat i else None) with
  | Some x => ret x
  | None => undef (OutOfBounds i (Z.of_nat (length a)))
  end.



Definition lock_of (ev : event ext)
  : option (lockop StorageModule.mutex) :=
  match ev with
  | Ev e x =>
      match e in ext X return X -> _ with
      | Pool e' => fun x => StorageModule.lock_of (Ev e' x)
      | _ => fun _ => None
      end x
  end.

Definition lock_ops (tr : list (event ext))
  : list (lockop StorageModule.mutex) :=
  omap lock_of tr.

(** The blocks asked of [malloc] with the pointer each call answered,
    and the pointers given to [free], in order. *)
Definition malloc_of (ev : event ext) : option (Z * ptr) :=
  match ev with
  | Ev e x =>
      match e in ext X return X -> option (Z * ptr) with
      | Malloc n => fun p => Some (n, p)
      | _ => fun _ => None
      end x
  end.

Definition free_of (ev : event ext) : option ptr :=
  match ev with
  | Ev e _ =>
      match e with
      | Free p => Some p
      | _ => None
      end
  end.

Definition mallocs (tr : list (event ext)) : list (Z * ptr) :=
  omap malloc_of tr.
Definition frees (tr : list (event ext)) : list ptr := omap free_of tr.

(** The copies made by [memcpy] (destination, source, bytes) and the
    sizes stored through [out_size], in order. *)
Definition copy_of (ev : event ext) : option (ptr * ptr * Z) :=
  match ev with
  | Ev e _ =>
      match e with
      | Memcpy dest src n => Some (dest, src, n)
      | _ => None
      end
  end.

Definition size_store_of (ev : event ext) : option (ptr * Z) :=
  match ev with
  | Ev e _ =>
      match e with
      | StoreSize p n => Some (p, n)
      | _ => None
      end
  end.

Definition copies (tr : list (event ext)) : list (ptr * ptr * Z) :=
  omap copy_of tr.
Definition size_stores (tr : list (event ext)) : list (ptr * Z) :=
  omap size_store_of tr.

(** An environment whose [malloc] answers [entry] for an entry block and
    [data] for anything else. *)
Definition env (entry data : ptr) (X : Type) (e : ext X) : X :=
  match e with
  | Pool e' => StorageModule.env _ e'
  | Malloc n => if n =? sizeof_block_entry_t then entry else data
  | Free _ | MutexInit _ | MutexDestroy _ | Memcpy _ _ _ | StoreSize _ _ => tt
  end.

End StorageApi.

(** * Properties *)

(** ** Runs of programs *)

Arguments wrap_int : simpl never.

Lemma wrap_int_id (z : Z) : INT_MIN <= z <= INT_MAX -> wrap_int z = z.
Proof.
  unfold wrap_int, INT_MIN, INT_MAX. intros Hz.
  rewrite Z.mod_small by lia. lia.
Qed.

(** The run against an environment is one of the executions. *)
Lemma exec_run {E A} (env : forall X, E X -> X) (p : prog E A) :
  exec p (fst (run env p)) (snd (run env p)).
Proof.
  induction p as [r | X e k IH | u | ]; simpl; auto.
  specialize (IH (env X e)).
  destruct (run env (k (env X e))) as [tr o]. simpl in *. eauto.
Qed.

(** An execution of [bind p f] is one of [p] followed, when [p] returns,
    by one of [f]. *)
Lemma exec_bind {E A B} (p : prog E A) (f : A -> prog E B) tr o :
  exec (bind p f) tr o ->
  (exists a tr1 tr2,
      exec p tr1 (Returns a) /\ exec (f a) tr2 o /\ tr = tr1 ++ tr2)
  \/ (exists u, exec p tr (Faults u) /\ o = Faults u)
  \/ (exec p tr Unfinished /\ o = Unfinished).
Proof.
  revert tr. induction p as [r | X e k IH | u | ]; simpl; intros tr H.
  - left. exists r, [], tr. auto.
  - destruct H as (x & tr' & -> & H).
    destruct (IH x tr' H) as [(a & tr1 & tr2 & H1 & H2 & ->) | [(u & H1 & ->) | [H1 ->]]].
    + left. exists a, (Ev e x :: tr1), tr2. simpl. eauto 7.
    + right. left. exists u. eauto 7.
    + right. right. eauto 7.
  - destruct H as [-> ->]. right. left. eauto.
  - destruct H as [-> ->]. right. right. auto.
Qed.

(** Unfolds an execution of a program without loops into its events. *)
Ltac exec_step H :=
  cbn in H;
  repeat match type of H with
         | context [if ?b then _ else _] => destruct b eqn:?; cbn in H
         | context [match ?x !! ?a with _ => _ end] =>
             destruct (x !! a) eqn:?; cbn in H
         | context [match ?x with (_, _) => _ end] =>
             is_var x; destruct x; cbn in H
         end.

Ltac exec_inv :=
  repeat match goal with
         | H : exec _ _ _ |- _ => progress exec_step H
         | H : exists _, _ |- _ => destruct H
         | H : _ /\ _ |- _ => destruct H
         | x : unit |- _ => destruct x
         end;
  subst.

(** ** sample_lock.c *)

Section SampleLockFacts.
Import SampleLock.

Lemma path_a_handler_ops s tr o :
  exec (path_a_handler s) tr o ->
  lock_ops tr = [Acquire g_lock_a; Acquire g_lock_b;
                 Release g_lock_b; Release g_lock_a]
  /\ order_edges tr = [(fn_path_a_handler, (g_lock_a, g_lock_b))]
  /\ exists s', o = Returns (tt, s').
Proof. intros H. exec_inv. cbn. eauto. Qed.

Lemma path_b_handler_ops s tr o :
  exec (path_b_handler s) tr o ->
  lock_ops tr = [Acquire g_lock_b; Acquire g_lock_a;
                 Release g_lock_a; Release g_lock_b]
  /\ order_edges tr = [(fn_path_b_handler, (g_lock_b, g_lock_a))]
  /\ exists s', o = Returns (tt, s').
Proof. intros H. exec_inv. cbn. eauto. Qed.

(** No other function of the unit acquires a lock while one is held. *)
Lemma order_edges_cases i s tr o :
  exec (invoke i s) tr o ->
  order_edges tr = []
  \/ order_edges tr = [(fn_path_a_handler, (g_lock_a, g_lock_b))]
  \/ order_edges tr = [(fn_path_b_handler, (g_lock_b, g_lock_a))].
Proof.
  intros H. destruct i; try destruct result; exec_inv; cbn; auto.
Qed.

(** C1. On every run of [path_a_handler] the lock operations are: acquire
    [g_lock_a], acquire [g_lock_b], release [g_lock_b], release
    [g_lock_a], and the function returns with nothing held; on every run
    of [path_b_handler] they are the same with the two locks swapped.  The
    acquire-while-holding facts of the whole unit are exactly
    [g_lock_a -> g_lock_b], contributed by [path_a_handler] alone, and
    [g_lock_b -> g_lock_a], contributed by [path_b_handler] alone: these
    two functions, and no others, form the cycle of length 2. *)
Theorem abba_lock_order_cycle :
  (forall s tr o, exec (path_a_handler s) tr o ->
     lock_ops tr = [Acquire g_lock_a; Acquire g_lock_b;
                    Release g_lock_b; Release g_lock_a]
     /\ held (lock_ops tr) = []
     /\ exists s', o = Returns (tt, s'))
  /\ (forall s tr o, exec (path_b_handler s) tr o ->
     lock_ops tr = [Acquire g_lock_b; Acquire g_lock_a;
                    Release g_lock_a; Release g_lock_b]
     /\ held (lock_ops tr) = []
     /\ exists s', o = Returns (tt, s'))
  /\ (forall f l1 l2,
       contributes f l1 l2 <->
       (f = fn_path_a_handler /\ l1 = g_lock_a /\ l2 = g_lock_b)
       \/ (f = fn_path_b_handler /\ l1 = g_lock_b /\ l2 = g_lock_a)).
Proof.
  split; [| split].
  - intros s tr o H. destruct (path_a_handler_ops _ _ _ H) as (-> & _ & Hr).
    auto.
  - intros s tr o H. destruct (path_b_handler_ops _ _ _ H) as (-> & _ & Hr).
    auto.
  - intros f l1 l2. split.
    + intros (i & s & tr & o & H & Hin).
      destruct (order_edges_cases _ _ _ _ H) as [E | [E | E]];
        rewrite E in Hin; simpl in Hin.
      * contradiction.
      * destruct Hin as [[= <- <- <-] | []]. auto.
      * destruct Hin as [[= <- <- <-] | []]. auto.
    + intros [(-> & -> & ->) | (-> & -> & ->)].
      * exists call_path_a_handler, initial.
        exists (fst (run env (path_a_handler initial))),
               (snd (run env (path_a_handler initial))).
        split; [apply exec_run | vm_compute; auto].
      * exists call_path_b_handler, initial.
        exists (fst (run env (path_b_handler initial))),
               (snd (run env (path_b_handler initial))).
        split; [apply exec_run | vm_compute; auto].
Qed.

Lemma abba_lock_order_cycle_witness :
  lock_ops (fst (run env (path_a_handler initial)))
  = [Acquire g_lock_a; Acquire g_lock_b; Release g_lock_b; Release g_lock_a]
  /\ lock_ops (fst (run env (path_b_handler initial)))
  = [Acquire g_lock_b; Acquire g_lock_a; Release g_lock_a; Release g_lock_b]
  /\ contributes fn_path_a_handler g_lock_a g_lock_b.
Proof.
  destruct abba_lock_order_cycle as (Ha & Hb & Hc).
  split; [| split].
  - apply (Ha initial _ _ (exec_run env (path_a_handler initial))).
  - apply (Hb initial _ _ (exec_run env (path_b_handler initial))).
  - apply Hc. left. repeat split; reflexivity.
Defined.

(** C2. In [conditional_lock] the two branches reach the statement after
    the [if] with different locks held.  For [condition > 0] the lock
    operations of every run are: acquire [g_lock_a] with nothing held,
    then the unconditional release with [g_lock_a] held.  For
    [condition <= 0] the only lock operation is that release, performed
    with nothing held. *)
Theorem conditional_lock_join condition s tr o :
  exec (conditional_lock condition s) tr o ->
  (condition > 0 ->
   annotate (lock_ops tr)
   = [([], Acquire g_lock_a); ([g_lock_a], Release g_lock_a)])
  /\ (condition <= 0 ->
      annotate (lock_ops tr) = [([], Release g_lock_a)]).
Proof.
  intros H. unfold conditional_lock in H.
  destruct (Z.gtb_spec condition 0) as [Hc | Hc]; exec_inv; cbn;
    split; intros; solve [reflexivity | lia].
Qed.

Lemma conditional_lock_join_witness :
  annotate (lock_ops (fst (run env (conditional_lock 1 initial))))
  = [([], Acquire g_lock_a); ([g_lock_a], Release g_lock_a)]
  /\ annotate (lock_ops (fst (run env (conditional_lock 0 initial))))
     = [([], Release g_lock_a)].
Proof.
  split.
  - apply (conditional_lock_join 1 initial _ _
             (exec_run env (conditional_lock 1 initial))). lia.
  - apply (conditional_lock_join 0 initial _ _
             (exec_run env (conditional_lock 0 initial))). lia.
Defined.

(** C6. Every run of [risky_operation] starts by acquiring [g_lock_a].
    With [result == NULL] it returns -1 and [g_lock_a] is still held;
    with [result] pointing at an [int] it returns 0 and nothing is
    held.  Those are the only two ways it returns, so exactly one of
    them ends with a lock held. *)
Theorem risky_operation_paths result s tr o :
  exec (risky_operation result s) tr o ->
  (exists ops, lock_ops tr = Acquire g_lock_a :: ops)
  /\ (result = NULL ->
      exists s', o = Returns (-1, s') /\ held (lock_ops tr) = [g_lock_a])
  /\ (forall a, result = Addr a -> is_Some (mem s !! a) ->
      exists s', o = Returns (0, s') /\ held (lock_ops tr) = [])
  /\ (forall r s', o = Returns (r, s') ->
      (r = -1 /\ result = NULL /\ held (lock_ops tr) = [g_lock_a])
      \/ (r = 0 /\ result <> NULL /\ held (lock_ops tr) = [])).
Proof.
  intros H. destruct result as [| a]; exec_inv; cbn.
  - repeat split; eauto.
    + intros a [=].
    + intros r s' [= <- <-]. auto.
  - repeat split; eauto.
    + intros [=].
    + intros r s' [= <- <-]. right. repeat split; congruence.
  - repeat split; eauto.
    + intros [=].
    + intros a' [= <-] [v Hv]. congruence.
    + intros r s' [=].
Qed.

Lemma risky_operation_paths_witness :
  (exists s', snd (run env (risky_operation NULL initial)) = Returns (-1, s')
     /\ held (lock_ops (fst (run env (risky_operation NULL initial))))
        = [g_lock_a])
  /\ (exists s',
        snd (run env (risky_operation (Addr 8) (mkState 5 0 {[ 8%N := 0 ]})))
        = Returns (0, s')
        /\ held (lock_ops (fst (run env (risky_operation (Addr 8)
                                          (mkState 5 0 {[ 8%N := 0 ]})))))
           = []).
Proof.
  split.
  - apply (risky_operation_paths NULL initial _ _
             (exec_run env (risky_operation NULL initial))). reflexivity.
  - destruct (risky_operation_paths (Addr 8) (mkState 5 0 {[ 8%N := 0 ]}) _ _
                (exec_run env (risky_operation (Addr 8)
                                 (mkState 5 0 {[ 8%N := 0 ]}))))
      as (_ & _ & H & _).
    apply (H 8%N).
    + reflexivity.
    + exists 0. reflexivity.
Defined.

End SampleLockFacts.

(** ** sample_protocol.c *)

Section SampleProtocolFacts.
Import SampleProtocol.

(** C7. On every run of [recv_data_handler] there is exactly one blocking
    call, the [recv], and it is made with [conn_lock] held; the same for
    the [accept] of [accept_connection_callback].  In both functions the
    lock operations are one acquire followed by one release of
    [conn_lock], the function returns, and nothing is held then. *)
Theorem blocking_call_under_conn_lock :
  (forall fd buffer maxlen s tr o,
     exec (recv_data_handler fd buffer maxlen s) tr o ->
     held_at_blocking tr = [[conn_lock]]
     /\ lock_ops tr = [Acquire conn_lock; Release conn_lock]
     /\ held (lock_ops tr) = []
     /\ exists r s', o = Returns (r, s'))
  /\ (forall server_fd s tr o,
     exec (accept_connection_callback server_fd s) tr o ->
     held_at_blocking tr = [[conn_lock]]
     /\ lock_ops tr = [Acquire conn_lock; Release conn_lock]
     /\ held (lock_ops tr) = []
     /\ exists r s', o = Returns (r, s')).
Proof.
  split.
  - intros fd buffer maxlen s tr o H. exec_inv. cbn. eauto 6.
  - intros server_fd s tr o H. exec_inv; cbn; eauto 6.
Qed.

Lemma blocking_call_under_conn_lock_witness :
  held_at_blocking
    (fst (run (env 7) (recv_data_handler 3 (Addr 64) 256 (mkState 1))))
  = [[conn_lock]]
  /\ held_at_blocking
       (fst (run (env (-1)) (accept_connection_callback 3 (mkState 1))))
     = [[conn_lock]].
Proof.
  destruct blocking_call_under_conn_lock as [Hr Ha].
  split.
  - apply (Hr 3 (Addr 64) 256 (mkState 1) _ _ (exec_run (env 7) _)).
  - apply (Ha 3 (mkState 1) _ _ (exec_run (env (-1)) _)).
Defined.

End SampleProtocolFacts.

(** ** sample_overflow.c *)

Section SampleOverflowFacts.
Import SampleOverflow.

(** *** [allocate_buffer_safe] *)

(** With a non-zero [size] the guard does its work: the function returns
    [NULL] without allocating, or asks [malloc] for the exact product. *)
Lemma allocate_buffer_safe_nonzero count size tr o :
  0 <= count <= SIZE_MAX -> 0 < size <= SIZE_MAX ->
  exec (allocate_buffer_safe count size tt) tr o ->
  (tr = [] /\ o = Returns (NULL, tt) /\ count * size > SIZE_MAX)
  \/ (exists p, tr = [Ev (Malloc (count * size)) p] /\ o = Returns (p, tt)
               /\ count * size <= SIZE_MAX).
Proof.
  intros Hc Hs H. unfold allocate_buffer_safe, size_div, bindM in H.
  destruct (Z.eqb_spec size 0) as [-> | _]; [lia |].
  cbn [bind ret exec] in H.
  pose proof (Z.mul_div_le SIZE_MAX size ltac:(lia)) as Hle.
  pose proof (Z.mul_succ_div_gt SIZE_MAX size ltac:(lia)) as Hgt.
  destruct (Z.gtb_spec count (SIZE_MAX / size)) as [Hg | Hg].
  - cbn in H. destruct H as [-> ->]. left. repeat split. nia.
  - cbn in H. destruct H as (p & tr' & -> & -> & ->).
    assert (count * size <= SIZE_MAX) as Hp by nia.
    right. exists p. unfold size_mul.
    rewrite Z.mod_small by (unfold SIZE_MAX in *; nia). auto.
Qed.

(** C5. With [size == 0] the guard of [allocate_buffer_safe] divides
    [SIZE_MAX] by zero: whatever [count] is, the function has no defined
    result and never reaches [malloc]. *)
Theorem allocate_buffer_safe_zero_size count :
  allocate_buffer_safe count 0 tt = Undef DivisionByZero.
Proof. reflexivity. Qed.

(** *** [open_if_readable] and [open_and_verify] *)

(** C4. [open_if_readable] either stops after a failed [access] on [path],
    or opens [path] by name right after an [access] on the same [path]
    that answered 0; these are its only runs.  [open_and_verify] starts
    every run with [open] on [path]; every later filesystem call is an
    [fstat] or [close] on the descriptor that this [open] returned. *)
Theorem check_then_open_by_path_vs_open_then_fstat path :
  (forall tr o, exec (open_if_readable path tt) tr o ->
     (exists r, r <> 0 /\ fs_ops tr = [CheckByPath path R_OK r]
                /\ o = Returns (-1, tt))
     \/ (exists fd, fs_ops tr = [CheckByPath path R_OK 0;
                                 OpenByPath path O_RDONLY fd]
                    /\ o = Returns (fd, tt)))
  /\ (forall tr o, exec (open_and_verify path tt) tr o ->
     exists fd rest,
       fs_ops tr = OpenByPath path (Z.lor O_RDONLY O_NOFOLLOW) fd :: rest
       /\ Forall (fun op => op = CheckByFd fd \/ op = CloseFd fd) rest).
Proof.
  split.
  - intros tr o H. unfold open_if_readable, bindM in H.
    cbn [trigger bind exec] in H. destruct H as (r & tr' & -> & H).
    destruct (Z.eqb_spec r 0) as [-> | Hr].
    + cbn in H. destruct H as (fd & tr'' & -> & -> & ->).
      right. exists fd. auto.
    + cbn in H. destruct H as [-> ->]. left. exists r. auto.
  - intros tr o H. unfold open_and_verify in H.
    exec_inv; cbn; (eexists _, _; split; [reflexivity |]);
      repeat match goal with
             | |- Forall _ (_ :: _) => constructor; [solve [auto] |]
             | |- Forall _ [] => constructor
             end.
Qed.

Lemma check_then_open_by_path_vs_open_then_fstat_witness :
  ((exists r, r <> 0
      /\ fs_ops (fst (run (env 0 S_IFREG) (open_if_readable "data.bin" tt)))
         = [CheckByPath "data.bin" R_OK r]
      /\ snd (run (env 0 S_IFREG) (open_if_readable "data.bin" tt))
         = Returns (-1, tt))
   \/ (exists fd,
        fs_ops (fst (run (env 0 S_IFREG) (open_if_readable "data.bin" tt)))
        = [CheckByPath "data.bin" R_OK 0; OpenByPath "data.bin" O_RDONLY fd]
        /\ snd (run (env 0 S_IFREG) (open_if_readable "data.bin" tt))
           = Returns (fd, tt)))
  /\ (exists fd rest,
        fs_ops (fst (run (env 3 S_IFREG) (open_and_verify "data.bin" tt)))
        = OpenByPath "data.bin" (Z.lor O_RDONLY O_NOFOLLOW) fd :: rest
        /\ Forall (fun op => op = CheckByFd fd \/ op = CloseFd fd) rest).
Proof.
  destruct (check_then_open_by_path_vs_open_then_fstat "data.bin") as [H1 H2].
  split.
  - apply (H1 _ _ (exec_run (env 0 S_IFREG) _)).
  - apply (H2 _ _ (exec_run (env 3 S_IFREG) _)).
Defined.

(** *** [process_username] and [process_username_safe] *)

Lemma store_in_bounds (a : array) (k : nat) (b : byte) :
  (k < length a)%nat ->
  store a (Z.of_nat k) b tt = Ret (<[k := Some b]> a, tt).
Proof.
  intros Hk. unfold store.
  destruct (Z.leb_spec 0 (Z.of_nat k)); [| lia].
  destruct (Z.ltb_spec (Z.of_nat k) (Z.of_nat (length a))); [| lia].
  cbn. by rewrite Nat2Z.id.
Qed.

Lemma store_past_end (a : array) (b : byte) :
  store a (Z.of_nat (length a)) b tt
  = Undef (OutOfBounds (Z.of_nat (length a)) (Z.of_nat (length a))).
Proof.
  unfold store. rewrite Z.ltb_irrefl, andb_false_r. reflexivity.
Qed.

Lemma strlen_nonneg (s : list byte) : 0 <= strlen s.
Proof. induction s as [| b s IH]; simpl; [| destruct (is_nul b)]; lia. Qed.

(** A string that does not fit makes [strcpy] store one past the end. *)
Lemma strcpy_from_overflow (src : list byte) :
  forall (k : nat) (dest : array),
    (k <= length dest)%nat ->
    Z.of_nat (length dest) <= Z.of_nat k + strlen src ->
    strcpy_from (Z.of_nat k) dest src tt
    = Undef (OutOfBounds (Z.of_nat (length dest)) (Z.of_nat (length dest))).
Proof.
  induction src as [| b src IH]; intros k dest Hk Hlen; simpl in *.
  - assert (k = length dest) as -> by lia. apply store_past_end.
  - destruct (is_nul b).
    + assert (k = length dest) as -> by lia. apply store_past_end.
    + unfold bindM. destruct (decide (k = length dest)) as [-> | Hne].
      * by rewrite store_past_end.
      * rewrite store_in_bounds by lia. cbn [bind].
        replace (Z.of_nat k + 1) with (Z.of_nat (S k)) by lia.
        rewrite IH by (rewrite length_insert; lia).
        by rewrite length_insert.
Qed.

(** A string that fits is copied with its terminator. *)
Lemma strcpy_from_fits (src : list byte) :
  forall (k : nat) (dest : array),
    Z.of_nat k + strlen src < Z.of_nat (length dest) ->
    strcpy_from (Z.of_nat k) dest src tt
    = Ret (take k dest ++ (Some <$> c_str src)
             ++ Some x00 :: drop (k + length (c_str src) + 1) dest, tt).
Proof.
  induction src as [| b src IH]; intros k dest Hlen; simpl in *.
  - rewrite store_in_bounds by lia.
    rewrite insert_take_drop by lia.
    by replace (k + 0 + 1)%nat with (S k) by lia.
  - pose proof (strlen_nonneg src) as Hsrc. destruct (is_nul b); simpl.
    + rewrite store_in_bounds by lia.
      rewrite insert_take_drop by lia.
      by replace (k + 0 + 1)%nat with (S k) by lia.
    + unfold bindM. rewrite store_in_bounds by lia. cbn [bind].
      replace (Z.of_nat k + 1) with (Z.of_nat (S k)) by lia.
      rewrite IH by (rewrite length_insert; lia).
      rewrite (take_S_r _ k (Some b)) by (apply list_lookup_insert_eq; lia).
      rewrite take_insert_ge by lia. rewrite drop_insert_lt by lia.
      rewrite <- app_assoc. simpl.
      by replace (k + S (length (c_str src)) + 1)%nat
        with (S (k + length (c_str src) + 1)) by lia.
Qed.

(** [strncpy] with room for its [n] stores replaces exactly the cells
    [k .. k + n - 1]. *)
Lemma strncpy_from_spec (n : nat) :
  forall (src : list byte) (k : nat) (dest : array),
    (k + n <= length dest)%nat ->
    strncpy_from (Z.of_nat k) dest src n tt
    = Ret (take k dest ++ (Some <$> pad n src) ++ drop (k + n) dest, tt).
Proof.
  induction n as [| n IH]; intros src k dest Hk.
  - simpl. rewrite Nat.add_0_r, take_drop. reflexivity.
  - assert (forall b src',
              bind (store dest (Z.of_nat k) b tt)
                (fun '(dest', s') => strncpy_from (Z.of_nat k + 1) dest' src' n s')
              = Ret (take k dest ++ (Some b :: (Some <$> pad n src'))
                       ++ drop (k + S n) dest, tt)) as Hstep.
    { intros b src'. rewrite store_in_bounds by lia. cbn [bind].
      replace (Z.of_nat k + 1) with (Z.of_nat (S k)) by lia.
      rewrite IH by (rewrite length_insert; lia).
      rewrite (take_S_r _ k (Some b)) by (apply list_lookup_insert_eq; lia).
      rewrite take_insert_ge by lia. rewrite drop_insert_lt by lia.
      rewrite <- app_assoc. simpl.
      replace (S (k + n)) with (k + S n)%nat by lia. reflexivity. }
    simpl. destruct src as [| b src]; [apply Hstep |].
    destruct (is_nul b); apply Hstep.
Qed.

Lemma strncpy_spec (dest : array) (src : list byte) (n : nat) :
  (n <= length dest)%nat ->
  strncpy dest src (Z.of_nat n) tt
  = Ret ((Some <$> pad n src) ++ drop n dest, tt).
Proof.
  intros Hn. unfold strncpy. rewrite Nat2Z.id.
  apply (strncpy_from_spec n src 0 dest). lia.
Qed.

(** Reading back stops at the first NUL. *)
Lemma load_str_from_spec (l : list byte) :
  forall (i cap : Z) (rest : array),
    load_str_from i cap ((Some <$> l) ++ Some x00 :: rest) tt
    = Ret (c_str l, tt).
Proof.
  induction l as [| b l IH]; intros i cap rest; simpl.
  - reflexivity.
  - destruct (is_nul b); [reflexivity |].
    unfold bindM. rewrite IH. reflexivity.
Qed.

Lemma length_pad (n : nat) : forall src, length (pad n src) = n.
Proof.
  induction n as [| n IH]; intros src; simpl; [reflexivity |].
  destruct src as [| b src]; [| destruct (is_nul b)]; simpl; by rewrite IH.
Qed.

(** What [process_username_safe] does, in closed form. *)
Lemma process_username_safe_run (input : list byte) :
  process_username_safe input tt
  = Vis (Printf (String.append "User: %s" newline)
           [ArgStr (c_str (pad 63 input))])
      (fun _ => Ret ((Some <$> pad 63 input) ++ [Some x00], tt)).
Proof.
  unfold process_username_safe, bindM. cbv zeta.
  change (sizeof (local_array 64) - 1) with (Z.of_nat 63).
  rewrite strncpy_spec
    by (unfold local_array; rewrite length_replicate; lia).
  cbn [bind].
  change (drop 63 (local_array 64)) with [@None byte].
  assert (length ((Some <$> pad 63 input) ++ [@None byte]) = 64%nat) as Hlen
    by (rewrite length_app, length_fmap, length_pad; reflexivity).
  unfold sizeof. rewrite Hlen.
  change (Z.of_nat 64 - 1) with (Z.of_nat 63).
  rewrite store_in_bounds by lia. cbn [bind].
  assert (<[63%nat := Some x00]> ((Some <$> pad 63 input) ++ [@None byte])
          = (Some <$> pad 63 input) ++ [Some x00]) as ->.
  { rewrite insert_app_r_alt by (rewrite length_fmap, length_pad; lia).
    rewrite length_fmap, length_pad. reflexivity. }
  unfold load_str. rewrite load_str_from_spec. reflexivity.
Qed.

Lemma c_str_idemp (l : list byte) : c_str (c_str l) = c_str l.
Proof.
  induction l as [| b l IH]; simpl; [reflexivity |].
  destruct (is_nul b) eqn:Hb; simpl; [reflexivity |]. by rewrite Hb, IH.
Qed.

(** With a string of at most 63 bytes [process_username] stays within
    its buffer and prints the string. *)
Lemma process_username_fits (input : list byte) :
  strlen input < 64 ->
  exists buffer,
    process_username input tt
    = Vis (Printf (String.append "User: %s" newline) [ArgStr (c_str input)])
        (fun _ => Ret (buffer, tt)).
Proof.
  intros Hlen. unfold process_username, strcpy, bindM. cbv zeta.
  change 0 with (Z.of_nat 0) at 1.
  rewrite strcpy_from_fits
    by (unfold local_array; rewrite length_replicate; lia).
  cbn [bind]. rewrite take_0, app_nil_l. unfold load_str.
  rewrite load_str_from_spec, c_str_idemp. cbn [bind trigger].
  eexists. reflexivity.
Qed.

(** C3. [process_username] given a string of 64 bytes or more stores
    past the end of its 64-byte [buffer]: the store at index 64 is out of
    bounds.  [process_username_safe] returns for every input; all its
    stores are within the 64 bytes, and on return [buffer] has 64 cells
    of which the one at index 63 holds NUL. *)
Theorem strcpy_overflows_and_strncpy_does_not :
  (forall input, 64 <= strlen input ->
     process_username input tt = Undef (OutOfBounds 64 64))
  /\ (forall input tr o, exec (process_username_safe input tt) tr o ->
     exists buffer, o = Returns (buffer, tt)
       /\ length buffer = 64%nat
       /\ buffer !! 63%nat = Some (Some x00)).
Proof.
  split.
  - intros input Hlen. unfold process_username, strcpy, bindM. cbv zeta.
    change 0 with (Z.of_nat 0) at 1.
    rewrite strcpy_from_overflow; [reflexivity | cbn; lia | cbn; lia].
  - intros input tr o H. rewrite process_username_safe_run in H.
    cbn [exec] in H. destruct H as (r & tr' & -> & -> & ->).
    eexists. split; [reflexivity |]. split.
    + rewrite length_app, length_fmap, length_pad. reflexivity.
    + rewrite lookup_app_r by (rewrite length_fmap, length_pad; lia).
      rewrite length_fmap, length_pad. reflexivity.
Qed.

Lemma strcpy_overflows_and_strncpy_does_not_witness :
  process_username (repeat x41 64) tt = Undef (OutOfBounds 64 64)
  /\ exists buffer,
       snd (run (env 0 0) (process_username_safe (repeat x41 100) tt))
       = Returns (buffer, tt)
       /\ length buffer = 64%nat
       /\ buffer !! 63%nat = Some (Some x00).
Proof.
  destruct strcpy_overflows_and_strncpy_does_not as [Hu Hs].
  split.
  - apply Hu. vm_compute. discriminate.
  - apply (Hs _ _ _ (exec_run (env 0 0) _)).
Defined.

End SampleOverflowFacts.

(** ** sample_funcptr.c *)

Section SampleFuncptrFacts.
Import SampleFuncptr.

(** C8. Whatever the store and whatever [printf] answers, the functions
    entered during a run are fixed: [test_direct_assignment] enters
    [my_callback] with 42, [test_addressof_assignment] enters
    [my_callback] with 100, [test_struct_member] enters [process_data]
    and then [cleanup_handler], both with [(NULL, 0)], and
    [test_array_funcptr] enters [my_callback] with 0 and then with 1.
    Each indirect call therefore has exactly one target, and the four
    ways of binding a pointer resolve alike. *)
Theorem indirect_calls_resolve_to_one_target :
  (forall s tr o, exec (test_direct_assignment s) tr o ->
     calls tr = [(fn_test_direct_assignment, []);
                 (fn_my_callback, [Vint 42])])
  /\ (forall s tr o, exec (test_addressof_assignment s) tr o ->
     calls tr = [(fn_test_addressof_assignment, []);
                 (fn_my_callback, [Vint 100])])
  /\ (forall s tr o, exec (test_struct_member s) tr o ->
     calls tr = [(fn_test_struct_member, []);
                 (fn_process_data, [Vptr NULL; Vint 0]);
                 (fn_cleanup_handler, [Vptr NULL; Vint 0])])
  /\ (forall s tr o, length (callback_table s) = 10%nat ->
     exec (test_array_funcptr s) tr o ->
     calls tr = [(fn_test_array_funcptr, []);
                 (fn_my_callback, [Vint 0]);
                 (fn_my_callback, [Vint 1])]).
Proof.
  repeat split.
  - intros s tr o H. exec_inv. reflexivity.
  - intros s tr o H. exec_inv. reflexivity.
  - intros s tr o H. exec_inv. reflexivity.
  - intros [t cb] tr o Hlen H. simpl in Hlen.
    do 10 (destruct t as [| ? t]; [discriminate |]).
    destruct t; [| discriminate].
    vm_compute in H. exec_inv. reflexivity.
Qed.

Lemma indirect_calls_resolve_to_one_target_witness :
  calls (fst (run (env 0) (test_direct_assignment initial)))
  = [(fn_test_direct_assignment, []); (fn_my_callback, [Vint 42])]
  /\ calls (fst (run (env 0) (test_addressof_assignment initial)))
     = [(fn_test_addressof_assignment, []); (fn_my_callback, [Vint 100])]
  /\ calls (fst (run (env 0) (test_struct_member initial)))
     = [(fn_test_struct_member, []);
        (fn_process_data, [Vptr NULL; Vint 0]);
        (fn_cleanup_handler, [Vptr NULL; Vint 0])]
  /\ calls (fst (run (env 0) (test_array_funcptr initial)))
     = [(fn_test_array_funcptr, []);
        (fn_my_callback, [Vint 0]);
        (fn_my_callback, [Vint 1])].
Proof.
  destruct indirect_calls_resolve_to_one_target as (H1 & H2 & H3 & H4).
  split; [| split; [| split]].
  - apply (H1 initial _ _ (exec_run (env 0) _)).
  - apply (H2 initial _ _ (exec_run (env 0) _)).
  - apply (H3 initial _ _ (exec_run (env 0) _)).
  - apply (H4 initial _ _ eq_refl (exec_run (env 0) _)).
Defined.

End SampleFuncptrFacts.

(** ** sample_branch.c *)

Section SampleBranchFacts.
Import SampleBranch.

(** One turn of the loop body takes a positive [g_status] down by one. *)
Lemma decrement_status_positive s :
  0 < g_status s <= INT_MAX ->
  decrement_status s = Ret (tt, set_g_status (g_status s - 1) s).
Proof.
  intros Hg. unfold decrement_status, modify.
  rewrite wrap_int_id by (unfold INT_MIN, INT_MAX in *; lia). reflexivity.
Qed.

(** The loop of [handle_command] ends from every value of [g_status],
    given fuel for one turn per unit of it. *)
Lemma status_loop_terminates (fuel : nat) :
  forall s,
    g_status s <= INT_MAX -> (Z.to_nat (g_status s) <= fuel)%nat ->
    while fuel (fun s => g_status s >? 0) decrement_status s
    = Ret (tt, set_g_status (Z.min (g_status s) 0) s).
Proof.
  induction fuel as [| fuel IH]; intros s Hmax Hfuel; cbn [while]; cbv beta.
  - destruct (Z.gtb_spec (g_status s) 0); [lia |].
    rewrite Z.min_l by lia. by destruct s.
  - destruct (Z.gtb_spec (g_status s) 0) as [Hpos | Hneg].
    + rewrite decrement_status_positive by lia. cbn [bind].
      rewrite IH by (simpl; lia). simpl.
      rewrite Z.min_r by lia. rewrite Z.min_r by lia. reflexivity.
    + rewrite Z.min_l by lia. by destruct s.
Qed.

(** C10. [handle_command] returns for every [cmd] and every store, in
    particular every value of [g_status]: three turns of its loop always
    suffice.  Whenever it returns 0, [g_status] is 0.  The loop body
    takes a positive [g_status] down by exactly one, and the loop on its
    own ends from every value of [g_status]. *)
Theorem handle_command_terminates :
  (forall fuel cmd s, (3 <= fuel)%nat ->
     exists r s', handle_command fuel cmd s = Ret (r, s')
                  /\ (r = 0 -> g_status s' = 0))
  /\ (forall s, 0 < g_status s <= INT_MAX ->
     exists s', decrement_status s = Ret (tt, s')
                /\ g_status s' = g_status s - 1
                /\ g_status s' < g_status s)
  /\ (forall s, g_status s <= INT_MAX ->
     exists fuel s',
       while fuel (fun s => g_status s >? 0) decrement_status s = Ret (tt, s')
       /\ g_status s' <= 0).
Proof.
  split; [| split].
  - intros fuel cmd s Hfuel.
    assert (forall v, 0 <= v <= 3 ->
              exists s', (while fuel (fun s => g_status s >? 0)
                            decrement_status ;; ret 0) (set_g_status v s)
                         = Ret (0, s') /\ g_status s' = 0) as Hloop.
    { intros v Hv. unfold bindM.
      rewrite status_loop_terminates
        by (unfold INT_MAX; simpl; lia).
      cbn [bind]. eexists. split; [reflexivity |].
      simpl. lia. }
    destruct cmd as [| p | p];
      [| destruct p as [[q | q |] | [q | q |] |] |];
      cbn -[while];
      try (eexists _, _; split; [reflexivity | discriminate]).
    + destruct (Hloop 3 ltac:(lia)) as (s' & -> & Hs'). eauto.
    + destruct (Hloop 2 ltac:(lia)) as (s' & -> & Hs'). eauto.
  - intros s Hg. rewrite decrement_status_positive by lia.
    eexists. split; [reflexivity |]. simpl. lia.
  - intros s Hg. exists (Z.to_nat (g_status s)).
    rewrite status_loop_terminates by lia.
    eexists. split; [reflexivity |]. simpl. lia.
Qed.

Lemma handle_command_terminates_witness :
  (exists r s', handle_command 3 3 (mkState 0 77) = Ret (r, s')
                /\ (r = 0 -> g_status s' = 0))
  /\ (exists s', decrement_status (mkState 0 2) = Ret (tt, s')
                 /\ g_status s' = g_status (mkState 0 2) - 1
                 /\ g_status s' < g_status (mkState 0 2))
  /\ (exists fuel s',
        while fuel (fun s => g_status s >? 0) decrement_status (mkState 0 5)
        = Ret (tt, s')
        /\ g_status s' <= 0).
Proof.
  destruct handle_command_terminates as (H1 & H2 & H3).
  split; [| split].
  - apply H1. lia.
  - apply H2. vm_compute. split; [reflexivity | discriminate].
  - apply H3. vm_compute. discriminate.
Defined.

End SampleBranchFacts.

(** ** storage_module.c *)

(** A counted loop whose body leaves the store alone and makes no call
    unless it leaves the function does the same as a whole. *)
Lemma for_upto_scan {E S R} (body : Z -> M E S (option R))
    (Q : list (event E) -> R -> Prop) :
  (forall i s tr o, exec (body i s) tr o ->
     (tr = [] /\ o = Returns (None, s))
     \/ (exists v, Q tr v /\ o = Returns (Some v, s))
     \/ (exists u, o = Faults u)) ->
  forall n i s tr o, exec (for_upto n i body s) tr o ->
     (tr = [] /\ o = Returns (None, s))
     \/ (exists v, Q tr v /\ o = Returns (Some v, s))
     \/ (exists u, o = Faults u).
Proof.
  intros Hbody. induction n as [| n IH]; intros i s tr o H.
  - cbn in H. destruct H as [-> ->]. auto.
  - cbn [for_upto] in H. apply exec_bind in H.
    destruct H as [([r s1] & tr1 & tr2 & H1 & H2 & ->) | [(u & _ & ->) | [H1 _]]].
    + destruct (Hbody _ _ _ _ H1) as [[-> [= -> ->]] | [(v & HQ & [= -> ->]) | [u [=]]]].
      * simpl. eauto.
      * cbn in H2. destruct H2 as [-> ->]. rewrite app_nil_r. eauto.
    + eauto.
    + destruct (Hbody _ _ _ _ H1) as [[_ [=]] | [(v & _ & [=]) | [u [=]]]].
Qed.

Section StorageModuleFacts.
Import StorageModule.

(** [strcmp] reads only. *)
Lemma strcmp_pure (a : list byte) :
  forall (b : list byte) (s : state),
    (exists c, strcmp a b s = Ret (c, s)) \/ (exists u, strcmp a b s = Undef u).
Proof.
  induction a as [| ca a IH]; intros [| cb b] s; simpl;
    try (right; eexists; reflexivity).
  destruct (negb (Byte.eqb ca cb)); [left; eexists; reflexivity |].
  destruct (is_nul ca); [left; eexists; reflexivity | apply IH].
Qed.

(** One turn of the duplicate-key loop of [pool_insert]. *)
Lemma duplicate_check_turn pool entry i s tr o :
  exec ((slot <- load_slot pool i ;;
         other <- load_entry slot ;;
         mine <- load_entry entry ;;
         c <- strcmp (key other) (key mine) ;;
         if c =? 0 then
           pthread_mutex_unlock (pool_lock pool) ;;
           ret (Some (- EEXIST))
         else
           ret None) s) tr o ->
  (tr = [] /\ o = Returns (None, s))
  \/ (exists v, (tr = [Ev (Unlock (pool_lock pool)) tt] /\ v = - EEXIST)
                /\ o = Returns (Some v, s))
  \/ (exists u, o = Faults u).
Proof.
  intros H. unfold load_slot, load_entry in H.
  destruct pool as [| a]; [exec_inv; eauto |].
  cbn in H. destruct (pools s !! a) as [p |] eqn:Hp; cbn in H;
    [| exec_inv; eauto].
  destruct (if 0 <=? i then entries p !! Z.to_nat i else None) as [slot |];
    cbn in H; [| exec_inv; eauto].
  destruct slot as [| b]; cbn in H; [exec_inv; eauto |].
  destruct (blocks s !! b) as [other |]; cbn in H; [| exec_inv; eauto].
  destruct entry as [| e]; cbn in H; [exec_inv; eauto |].
  destruct (blocks s !! e) as [mine |]; cbn in H; [| exec_inv; eauto].
  unfold bindM at 1 in H.
  destruct (strcmp_pure (key other) (key mine) s) as [[c Hc] | [u Hu]].
  - rewrite Hc in H. cbn in H. destruct (c =? 0); exec_inv; eauto 7.
  - rewrite Hu in H. exec_inv. eauto.
Qed.

Lemma load_pool_valid a p s :
  pools s !! a = Some p -> load_pool (Addr a) s = Ret (p, s).
Proof. intros Hp. cbn. by rewrite Hp. Qed.

Lemma store_pool_valid a p0 p s :
  pools s !! a = Some p0 ->
  store_pool (Addr a) p s = Ret (tt, mkState (<[a:=p]> (pools s)) (blocks s)).
Proof. intros Hp. cbn. by rewrite Hp. Qed.

(** The four ways [pool_insert] returns. *)
Lemma pool_insert_cases pool entry s tr r s' :
  exec (pool_insert pool entry s) tr (Returns (r, s')) ->
  (r = - EINVAL /\ s' = s /\ lock_ops tr = []
   /\ (pool = NULL \/ entry = NULL))
  \/ (r = - ENOSPC /\ s' = s
      /\ lock_ops tr = [Acquire (pool_lock pool)]
      /\ exists a p, pool = Addr a /\ pools s !! a = Some p
                     /\ POOL_SIZE <= count p)
  \/ (r = - EEXIST /\ s' = s
      /\ lock_ops tr = [Acquire (pool_lock pool); Release (pool_lock pool)])
  \/ (r = 0
      /\ lock_ops tr = [Acquire (pool_lock pool); Release (pool_lock pool)]
      /\ exists a p, pool = Addr a /\ pools s !! a = Some p
           /\ pools s' !! a
              = Some (mkPool (<[Z.to_nat (count p) := entry]> (entries p))
                        (wrap_int (count p + 1)))).
Proof.
  intros H. unfold pool_insert in H.
  destruct (is_null pool || is_null entry) eqn:Hnull.
  { cbn in H. destruct H as [-> [= <- <-]]. left. repeat split.
    destruct pool; [auto |]. destruct entry; [auto | discriminate]. }
  destruct pool as [| a]; [discriminate |].
  unfold bindM at 1 in H. cbn [pthread_mutex_lock trigger bind exec] in H.
  destruct H as ([] & tr1 & -> & H).
  unfold bindM at 1 in H.
  destruct (pools s !! a) as [p |] eqn:Hp;
    [| cbn in H; rewrite Hp in H; destruct H as [_ [=]]].
  rewrite (load_pool_valid _ _ _ Hp) in H. cbn [bind] in H.
  destruct (Z.geb_spec (count p) POOL_SIZE) as [Hfull | Hroom].
  { cbn in H. destruct H as [-> [= <- <-]]. right. left. eauto 10. }
  unfold bindM at 1 in H. apply exec_bind in H.
  destruct H as [(ds & tr2 & tr3 & Hloop & H & ->) | [(u & _ & Hu) | [_ Hu]]];
    [| discriminate Hu | discriminate Hu].
  destruct ds as [dup s1].
  apply (for_upto_scan _
           (fun tr v => tr = [Ev (Unlock (pool_lock (Addr a))) tt]
                        /\ v = - EEXIST)
           (duplicate_check_turn (Addr a) entry)) in Hloop.
  destruct Hloop as [[-> [= -> ->]] | [(v & [-> ->] & [= -> ->]) | [u [=]]]].
  - right. right. right.
    unfold bindM at 1 in H.
    rewrite (load_pool_valid _ _ _ Hp) in H. cbn [bind] in H.
    unfold bindM at 1 in H. unfold store_slot at 1 in H.
    unfold bindM at 1 in H.
    rewrite (load_pool_valid _ _ _ Hp) in H. cbn [bind] in H.
    destruct ((0 <=? count p) && (count p <? Z.of_nat (length (entries p))));
      [| cbn in H; destruct H as [_ [=]]].
    rewrite (store_pool_valid _ _ _ _ Hp) in H. cbn [bind] in H.
    unfold bindM at 1 in H.
    rewrite (load_pool_valid a _ _ (lookup_insert_eq _ _ _)) in H.
    cbn [bind] in H. unfold bindM at 1 in H.
    rewrite (store_pool_valid a _ _ _ (lookup_insert_eq _ _ _)) in H.
    cbn in H. destruct H as ([] & tr4 & -> & -> & [= -> ->]).
    split; [reflexivity |]. split; [reflexivity |].
    exists a, p. split; [reflexivity |]. split; [assumption |].
    cbn. apply lookup_insert_eq.
  - right. right. left. cbn in H. destruct H as [-> [= <- <-]].
    repeat split.
Qed.

(** C9. Whenever [pool_insert] returns, the result is 0, [-EINVAL],
    [-ENOSPC] or [-EEXIST].  With a non-zero result the store is the one
    it was called with, so [pool->entries] and [pool->count] are
    unchanged.  The result [-ENOSPC] comes with [pool->count >= POOL_SIZE]
    and with [pool->pool_lock] acquired and never released: it is still
    held.  On every other return nothing is held: the lock was acquired
    and released, or (for [-EINVAL]) never acquired. *)
Theorem pool_insert_failure_paths pool entry s tr o r s' :
  exec (pool_insert pool entry s) tr o ->
  o = Returns (r, s') ->
  (r = 0 \/ r = - EINVAL \/ r = - ENOSPC \/ r = - EEXIST)
  /\ (r <> 0 -> s' = s)
  /\ (r = - ENOSPC ->
      lock_ops tr = [Acquire (pool_lock pool)]
      /\ held (lock_ops tr) = [pool_lock pool]
      /\ exists a p, pool = Addr a /\ pools s !! a = Some p
                     /\ POOL_SIZE <= count p)
  /\ (r <> - ENOSPC ->
      held (lock_ops tr) = []
      /\ (lock_ops tr = []
          \/ lock_ops tr = [Acquire (pool_lock pool);
                            Release (pool_lock pool)])).
Proof.
  intros H ->. apply pool_insert_cases in H.
  assert (held [Acquire (pool_lock pool); Release (pool_lock pool)] = [])
    as Hbal by (cbn; by rewrite decide_True).
  destruct H as [(-> & -> & -> & _) | [(-> & -> & -> & Hfull)
                | [(-> & -> & ->) | (-> & -> & _)]]];
    (split; [auto |]); (split; [intros; congruence || reflexivity |]);
    split; intros Hr; try (exfalso; vm_compute in Hr; congruence); auto.
Qed.

Lemma pool_insert_failure_paths_witness :
  (held (lock_ops (fst (run env (pool_insert (Addr 1) (Addr 11) full_store))))
   = [pool_lock (Addr 1)])
  /\ (exists s',
        snd (run env (pool_insert (Addr 1) (Addr 12) one_entry_store))
        = Returns (- EEXIST, s')
        /\ s' = one_entry_store)
  /\ (held (lock_ops (fst (run env (pool_insert (Addr 1) (Addr 11)
                                      one_entry_store))))
      = []).
Proof.
  split; [| split].
  - refine (proj1 (proj2 (proj1 (proj2 (proj2
      (pool_insert_failure_paths (Addr 1) (Addr 11) full_store _ _
         (- ENOSPC) full_store (exec_run env _) _))) eq_refl))).
    vm_compute. reflexivity.
  - eexists. split; [vm_compute; reflexivity |].
    refine (proj1 (proj2
      (pool_insert_failure_paths (Addr 1) (Addr 12) one_entry_store _ _
         (- EEXIST) _ (exec_run env _) _)) _).
    + vm_compute. reflexivity.
    + vm_compute. discriminate.
  - refine (proj1 (proj2 (proj2 (proj2
      (pool_insert_failure_paths (Addr 1) (Addr 11) one_entry_store _ _
         0 _ (exec_run env _) _))) _)).
    + vm_compute. reflexivity.
    + vm_compute. discriminate.
Defined.

End StorageModuleFacts.

(** * Further properties of the sample code *)

(** ** More on runs and loops *)

(** A run without calls that returns is a program that has returned. *)
Lemma exec_nil_returns {E A} (p : prog E A) (a : A) :
  exec p [] (Returns a) -> p = Ret a.
Proof.
  destruct p as [r | X e k | u |]; simpl.
  - intros [_ [= ->]]. reflexivity.
  - intros (x & tr & [=] & _).
  - intros [_ [=]].
  - intros [_ [=]].
Qed.

(** Turns that go on without touching the store can be skipped. *)
Lemma for_upto_skip {E S R} (body : Z -> M E S (option R)) (s : S) (k : nat) :
  forall (n : nat) (i : Z),
    (forall j, i <= j < i + Z.of_nat k -> body j s = Ret (None, s)) ->
    for_upto (k + n) i body s = for_upto n (i + Z.of_nat k) body s.
Proof.
  induction k as [| k IH]; intros n i Hskip.
  - simpl. by rewrite Z.add_0_r.
  - cbn [Nat.add for_upto]. rewrite Hskip by lia. cbn [bind].
    rewrite IH by (intros j Hj; apply Hskip; lia).
    f_equal. lia.
Qed.

(** A counted loop of read-only turns from the store [s], with the index
    of the turn that left it. *)
Lemma for_upto_scan_at {E S R} (body : Z -> M E S (option R)) (s : S)
    (Q : Z -> list (event E) -> R -> Prop) :
  (forall i tr o, exec (body i s) tr o ->
     (tr = [] /\ o = Returns (None, s))
     \/ (exists v, Q i tr v /\ o = Returns (Some v, s))
     \/ (exists u, o = Faults u)) ->
  forall n i tr o, exec (for_upto n i body s) tr o ->
     (tr = [] /\ o = Returns (None, s)
      /\ forall j, i <= j < i + Z.of_nat n -> body j s = Ret (None, s))
     \/ (exists j v, i <= j < i + Z.of_nat n /\ Q j tr v
                     /\ o = Returns (Some v, s)
                     /\ forall j', i <= j' < j -> body j' s = Ret (None, s))
     \/ (exists u, o = Faults u).
Proof.
  intros Hbody. induction n as [| n IH]; intros i tr o H.
  - cbn in H. destruct H as [-> ->]. left. repeat split. intros j Hj. lia.
  - cbn [for_upto] in H. apply exec_bind in H.
    destruct H as [(rs & tr1 & tr2 & H1 & H2 & ->) | [(u & _ & ->) | [H1 _]]].
    + destruct rs as [r s1].
      destruct (Hbody _ _ _ H1) as [[-> [= -> ->]] | [(v & HQ & [= -> ->]) | [u [=]]]].
      * apply exec_nil_returns in H1.
        destruct (IH _ _ _ H2) as [(-> & -> & Hall) | [(j & v & Hj & HQ & -> & Hbefore) | [u ->]]].
        -- left. repeat split. intros j Hj.
           destruct (decide (j = i)) as [-> | Hne]; [exact H1 | apply Hall; lia].
        -- right. left. exists j, v. repeat split; [lia | lia | exact HQ |].
           intros j' Hj'.
           destruct (decide (j' = i)) as [-> | Hne]; [exact H1 | apply Hbefore; lia].
        -- right. right. eauto.
      * cbn in H2. destruct H2 as [-> ->]. rewrite app_nil_r.
        right. left. exists i, v. repeat split; [lia | lia | exact HQ |].
        intros j' Hj'. lia.
    + right. right. eauto.
    + destruct (Hbody _ _ _ H1) as [[_ [=]] | [(v & _ & [=]) | [u [=]]]].
Qed.

(** ** storage_module.c: keys, lookup and insertion *)

Section StorageLookupFacts.
Import StorageModule.

Lemma is_nul_true (b : byte) : is_nul b = true <-> b = x00.
Proof. split; [by destruct b | by intros ->]. Qed.

Lemma byte_to_N_inj (a b : byte) : Byte.to_N a = Byte.to_N b -> a = b.
Proof.
  intros H. pose proof (Byte.of_to_N a) as Ha. rewrite H, Byte.of_to_N in Ha.
  congruence.
Qed.

(** [strcmp] does not depend on the store. *)
Lemma strcmp_any_store (a : list byte) :
  forall (b : list byte) (s s' : state) (c : Z),
    strcmp a b s = Ret (c, s) -> strcmp a b s' = Ret (c, s').
Proof.
  induction a as [| ca a IH]; intros [| cb b] s s' c; simpl; try discriminate.
  destruct (negb (Byte.eqb ca cb)); [by intros [= ->] |].
  destruct (is_nul ca); [by intros [= ->] | apply IH].
Qed.

(** [strcmp] answers 0 exactly when the two strings are the same. *)
Lemma strcmp_zero_iff (a : list byte) :
  forall (b : list byte) (s : state) (c : Z),
    strcmp a b s = Ret (c, s) ->
    (c = 0 <-> SampleOverflow.c_str a = SampleOverflow.c_str b).
Proof.
  induction a as [| ca a IH]; intros [| cb b] s c; simpl; try discriminate.
  destruct (Byte.eqb ca cb) eqn:Heq; simpl.
  - apply Byte.byte_dec_bl in Heq as <-.
    destruct (is_nul ca); [intros [= <-]; tauto |].
    intros H. rewrite (IH _ _ _ H). split; [by intros -> | by intros [= ->]].
  - apply Byte.eqb_false in Heq. intros [= <-]. split.
    + intros Hc. exfalso. apply Heq, byte_to_N_inj. lia.
    + destruct (is_nul ca) eqn:Ha, (is_nul cb) eqn:Hb; try discriminate.
      * apply is_nul_true in Ha, Hb. congruence.
      * intros [= -> _]. congruence.
Qed.

(** A NUL-terminated array compares equal to itself. *)
Lemma strcmp_same (l : list byte) (s : state) :
  In x00 l -> strcmp l l s = Ret (0, s).
Proof.
  induction l as [| b l IH]; simpl; [tauto |].
  rewrite (Byte.byte_dec_lb eq_refl). simpl.
  destruct (is_nul b) eqn:Hb; [reflexivity |].
  intros [-> | Hin]; [discriminate | auto].
Qed.

(** One turn of the loop of [pool_lookup]. *)
Lemma lookup_turn_cases a p k s i tr o :
  pools s !! a = Some p ->
  exec ((slot <- load_slot (Addr a) i ;;
         other <- load_entry slot ;;
         c <- strcmp (key other) k ;;
         if c =? 0 then
           found <- load_slot (Addr a) i ;;
           pthread_mutex_unlock (pool_lock (Addr a)) ;;
           ret (Some found)
         else
           ret None) s) tr o ->
  (tr = [] /\ o = Returns (None, s))
  \/ (exists v, (tr = [Ev (Unlock (pool_lock (Addr a))) tt]
                 /\ exists e other,
                      0 <= i /\ entries p !! Z.to_nat i = Some v
                      /\ v = Addr e /\ blocks s !! e = Some other
                      /\ SampleOverflow.c_str (key other)
                         = SampleOverflow.c_str k)
                /\ o = Returns (Some v, s))
  \/ (exists u, o = Faults u).
Proof.
  intros Hp H. unfold load_slot in H. unfold bindM at 1 2 in H.
  rewrite (load_pool_valid _ _ _ Hp) in H. cbn [bind] in H.
  destruct (Z.leb_spec 0 i) as [Hi | Hi]; [| cbn in H; exec_inv; eauto].
  destruct (entries p !! Z.to_nat i) as [slot |] eqn:Hslot;
    [| cbn in H; exec_inv; eauto].
  cbn [ret bind] in H. unfold bindM at 1 in H.
  destruct slot as [| e]; [cbn in H; exec_inv; eauto |].
  cbn [load_entry] in H.
  destruct (blocks s !! e) as [other |] eqn:He; [| cbn in H; exec_inv; eauto].
  cbn [bind] in H. unfold bindM at 1 in H.
  destruct (strcmp_pure (key other) k s) as [[c Hc] | [u Hu]];
    [| rewrite Hu in H; cbn in H; exec_inv; eauto].
  rewrite Hc in H. cbn [bind] in H.
  pose proof (strcmp_zero_iff _ _ _ _ Hc) as Hzero.
  destruct (Z.eqb_spec c 0) as [Hc0 | Hne].
  - unfold bindM at 1 2 in H. rewrite (load_pool_valid _ _ _ Hp) in H.
    cbn [bind] in H.
    destruct (Z.leb_spec 0 i); [| lia]. rewrite Hslot in H.
    cbn in H. destruct H as ([] & tr' & -> & -> & ->).
    right. left. exists (Addr e). split; [| reflexivity].
    split; [reflexivity |]. exists e, other. intuition.
  - cbn in H. destruct H as [-> ->]. auto.
Qed.

(** A turn that goes on has met a live entry with a different key. *)
Lemma lookup_turn_none a p k s i :
  pools s !! a = Some p ->
  (slot <- load_slot (Addr a) i ;;
   other <- load_entry slot ;;
   c <- strcmp (key other) k ;;
   if c =? 0 then
     found <- load_slot (Addr a) i ;;
     pthread_mutex_unlock (pool_lock (Addr a)) ;;
     ret (Some found)
   else
     ret None) s = Ret (None, s) ->
  exists e other c,
    0 <= i /\ entries p !! Z.to_nat i = Some (Addr e)
    /\ blocks s !! e = Some other
    /\ strcmp (key other) k s = Ret (c, s) /\ c <> 0.
Proof.
  intros Hp H. unfold load_slot in H. unfold bindM at 1 2 in H.
  rewrite (load_pool_valid _ _ _ Hp) in H. cbn [bind] in H.
  destruct (Z.leb_spec 0 i) as [Hi | Hi]; [| discriminate].
  destruct (entries p !! Z.to_nat i) as [slot |] eqn:Hslot; [| discriminate].
  cbn [ret bind] in H. unfold bindM at 1 in H.
  destruct slot as [| e]; [discriminate |].
  cbn [load_entry] in H.
  destruct (blocks s !! e) as [other |] eqn:He; [| discriminate].
  cbn [bind] in H. unfold bindM at 1 in H.
  destruct (strcmp_pure (key other) k s) as [[c Hc] | [u Hu]];
    [| rewrite Hu in H; discriminate].
  rewrite Hc in H. cbn [bind] in H.
  destruct (Z.eqb_spec c 0) as [Hc0 | Hne].
  - unfold bindM at 1 2 in H. rewrite (load_pool_valid _ _ _ Hp) in H.
    cbn [bind] in H.
    destruct (Z.leb_spec 0 i); [| lia]. rewrite Hslot in H. discriminate.
  - exists e, other, c. auto.
Qed.

Lemma held_acquire_release (l : mutex) :
  held [Acquire l; Release l] = [].
Proof. cbn. by rewrite decide_True. Qed.

(** The ways [pool_lookup] returns. *)
Lemma pool_lookup_cases pool key s tr r s' :
  exec (pool_lookup pool key s) tr (Returns (r, s')) ->
  s' = s
  /\ ((lock_ops tr = [] /\ r = NULL /\ (pool = NULL \/ key = None))
      \/ exists a p k,
           pool = Addr a /\ key = Some k /\ pools s !! a = Some p
           /\ lock_ops tr = [Acquire (pool_lock pool); Release (pool_lock pool)]
           /\ ((r = NULL
                /\ forall j, 0 <= j < count p ->
                     exists e ks, slot_key s p j e ks
                                  /\ ks <> SampleOverflow.c_str k)
               \/ (exists i, 0 <= i < count p
                     /\ slot_key s p i r (SampleOverflow.c_str k)
                     /\ forall j, 0 <= j < i ->
                          exists e ks, slot_key s p j e ks
                                       /\ ks <> SampleOverflow.c_str k))).
Proof.
  intros H. unfold pool_lookup in H.
  destruct key as [k |];
    [| cbn in H; destruct H as [-> [= <- <-]]; split; [reflexivity |]; left; auto].
  destruct pool as [| a];
    [cbn in H; destruct H as [-> [= <- <-]]; split; [reflexivity |]; left; auto |].
  cbn [is_null] in H.
  unfold bindM at 1 in H. cbn [pthread_mutex_lock trigger bind exec] in H.
  destruct H as ([] & tr1 & -> & H).
  unfold bindM at 1 in H.
  destruct (pools s !! a) as [p |] eqn:Hp;
    [| cbn in H; rewrite Hp in H; destruct H as [_ [=]]].
  rewrite (load_pool_valid _ _ _ Hp) in H. cbn [bind] in H.
  unfold bindM at 1 in H. apply exec_bind in H.
  destruct H as [(hs & tr2 & tr3 & Hloop & H & ->) | [(u & _ & Hu) | [_ Hu]]];
    [| discriminate Hu | discriminate Hu].
  destruct hs as [hit s1].
  assert (forall j, 0 <= j ->
            (slot <- load_slot (Addr a) j ;;
             other <- load_entry slot ;;
             c <- strcmp (StorageModule.key other) k ;;
             if c =? 0 then
               found <- load_slot (Addr a) j ;;
               pthread_mutex_unlock (pool_lock (Addr a)) ;;
               ret (Some found)
             else
               ret None) s = Ret (None, s) ->
            exists e ks, slot_key s p j e ks /\ ks <> SampleOverflow.c_str k)
    as Hmiss.
  { intros j Hj Hturn.
    destruct (lookup_turn_none _ _ _ _ _ Hp Hturn)
      as (e & other & c & _ & Hslot & He & Hc & Hne).
    exists (Addr e), (SampleOverflow.c_str (StorageModule.key other)).
    split; [unfold slot_key; eauto 10 |].
    intros Heq. apply Hne. by apply (strcmp_zero_iff _ _ _ _ Hc). }
  eapply (for_upto_scan_at _ s) in Hloop;
    [| intros i tr o Hturn; exact (lookup_turn_cases a p k s i tr o Hp Hturn)].
  destruct Hloop as [(-> & [= -> ->] & Hall)
                    | [(j & v & Hj & [-> Hv] & [= -> ->] & Hbefore) | [u [=]]]].
  - cbn in H. destruct H as ([] & tr4 & -> & -> & [= <- <-]).
    split; [reflexivity |]. right. exists a, p, k.
    do 2 (split; [reflexivity |]). split; [exact Hp |].
    split; [reflexivity |]. left. split; [reflexivity |].
    intros j Hj. apply Hmiss; [lia |]. apply Hall. lia.
  - cbn in H. destruct H as [-> [= <- <-]].
    split; [reflexivity |]. right. exists a, p, k.
    do 2 (split; [reflexivity |]). split; [exact Hp |].
    split; [reflexivity |]. right. exists j.
    destruct Hv as (e & other & Hj0 & Hslot & -> & He & Hkey).
    split; [lia |]. split; [unfold slot_key; eauto 10 |].
    intros j' Hj'. apply Hmiss; [lia |]. apply Hbefore. lia.
Qed.

(** One turn of the duplicate-key loop of [pool_insert], with what it
    has compared. *)
Lemma insert_turn_cases a p entry s i tr o :
  pools s !! a = Some p ->
  exec ((slot <- load_slot (Addr a) i ;;
         other <- load_entry slot ;;
         mine <- load_entry entry ;;
         c <- strcmp (key other) (key mine) ;;
         if c =? 0 then
           pthread_mutex_unlock (pool_lock (Addr a)) ;;
           ret (Some (- EEXIST))
         else
           ret None) s) tr o ->
  (tr = [] /\ o = Returns (None, s))
  \/ (exists v, (tr = [Ev (Unlock (pool_lock (Addr a))) tt] /\ v = - EEXIST
                 /\ exists e m mine,
                      entry = Addr m /\ blocks s !! m = Some mine
                      /\ slot_key s p i e (SampleOverflow.c_str (key mine)))
                /\ o = Returns (Some v, s))
  \/ (exists u, o = Faults u).
Proof.
  intros Hp H. unfold load_slot in H. unfold bindM at 1 2 in H.
  rewrite (load_pool_valid _ _ _ Hp) in H. cbn [bind] in H.
  destruct (Z.leb_spec 0 i) as [Hi | Hi]; [| cbn in H; exec_inv; eauto].
  destruct (entries p !! Z.to_nat i) as [slot |] eqn:Hslot;
    [| cbn in H; exec_inv; eauto].
  cbn [ret bind] in H. unfold bindM at 1 in H.
  destruct slot as [| e]; [cbn in H; exec_inv; eauto |].
  cbn [load_entry] in H.
  destruct (blocks s !! e) as [other |] eqn:He; [| cbn in H; exec_inv; eauto].
  cbn [bind] in H. unfold bindM at 1 in H.
  destruct entry as [| m]; [cbn in H; exec_inv; eauto |].
  cbn [load_entry] in H.
  destruct (blocks s !! m) as [mine |] eqn:Hm; [| cbn in H; exec_inv; eauto].
  cbn [bind] in H. unfold bindM at 1 in H.
  destruct (strcmp_pure (key other) (key mine) s) as [[c Hc] | [u Hu]];
    [| rewrite Hu in H; cbn in H; exec_inv; eauto].
  rewrite Hc in H. cbn [bind] in H.
  pose proof (strcmp_zero_iff _ _ _ _ Hc) as Hzero.
  destruct (Z.eqb_spec c 0) as [Hc0 | Hne].
  - cbn in H. destruct H as ([] & tr' & -> & -> & ->).
    right. left. exists (- EEXIST). split; [| reflexivity].
    do 2 (split; [reflexivity |]). exists (Addr e), m, mine.
    split; [reflexivity |]. split; [exact Hm |]. unfold slot_key.
    split; [lia |]. split; [exact Hslot |]. exists e, other. intuition.
  - cbn in H. destruct H as [-> ->]. auto.
Qed.

(** A turn of that loop that goes on has met a live entry with another
    key. *)
Lemma insert_turn_none a p entry s i :
  pools s !! a = Some p ->
  (slot <- load_slot (Addr a) i ;;
   other <- load_entry slot ;;
   mine <- load_entry entry ;;
   c <- strcmp (key other) (key mine) ;;
   if c =? 0 then
     pthread_mutex_unlock (pool_lock (Addr a)) ;;
     ret (Some (- EEXIST))
   else
     ret None) s = Ret (None, s) ->
  exists e other m mine c,
    0 <= i /\ entries p !! Z.to_nat i = Some (Addr e)
    /\ blocks s !! e = Some other
    /\ entry = Addr m /\ blocks s !! m = Some mine
    /\ strcmp (key other) (key mine) s = Ret (c, s) /\ c <> 0.
Proof.
  intros Hp H. unfold load_slot in H. unfold bindM at 1 2 in H.
  rewrite (load_pool_valid _ _ _ Hp) in H. cbn [bind] in H.
  destruct (Z.leb_spec 0 i) as [Hi | Hi]; [| discriminate].
  destruct (entries p !! Z.to_nat i) as [slot |] eqn:Hslot; [| discriminate].
  cbn [ret bind] in H. unfold bindM at 1 in H.
  destruct slot as [| e]; [discriminate |].
  cbn [load_entry] in H.
  destruct (blocks s !! e) as [other |] eqn:He; [| discriminate].
  cbn [bind] in H. unfold bindM at 1 in H.
  destruct entry as [| m]; [discriminate |].
  cbn [load_entry] in H.
  destruct (blocks s !! m) as [mine |] eqn:Hm; [| discriminate].
  cbn [bind] in H. unfold bindM at 1 in H.
  destruct (strcmp_pure (key other) (key mine) s) as [[c Hc] | [u Hu]];
    [| rewrite Hu in H; discriminate].
  rewrite Hc in H. cbn [bind] in H.
  destruct (Z.eqb_spec c 0) as [Hc0 | Hne]; [discriminate |].
  exists e, other, m, mine, c. auto 10.
Qed.

(** What a return of [pool_insert] after the lock was taken says about
    the pool it was given. *)
Lemma pool_insert_outcomes a entry s p tr r s' :
  pools s !! a = Some p ->
  exec (pool_insert (Addr a) entry s) tr (Returns (r, s')) ->
  (r = - EINVAL /\ entry = NULL)
  \/ (r = - ENOSPC /\ POOL_SIZE <= count p)
  \/ (r = - EEXIST
      /\ exists i e m mine,
           0 <= i < count p /\ entry = Addr m /\ blocks s !! m = Some mine
           /\ slot_key s p i e (SampleOverflow.c_str (key mine)))
  \/ (r = 0
      /\ 0 <= count p < POOL_SIZE
      /\ count p < Z.of_nat (length (entries p))
      /\ s' = mkState
                (<[a := mkPool (<[Z.to_nat (count p) := entry]> (entries p))
                          (count p + 1)]> (pools s))
                (blocks s)
      /\ forall j, 0 <= j < count p ->
           (slot <- load_slot (Addr a) j ;;
            other <- load_entry slot ;;
            mine <- load_entry entry ;;
            c <- strcmp (key other) (key mine) ;;
            if c =? 0 then
              pthread_mutex_unlock (pool_lock (Addr a)) ;;
              ret (Some (- EEXIST))
            else
              ret None) s = Ret (None, s)).
Proof.
  intros Hp H. unfold pool_insert in H. cbn [is_null orb] in H.
  destruct (is_null entry) eqn:Hnull.
  { cbn in H. destruct H as [-> [= <- <-]]. left. by destruct entry. }
  unfold bindM at 1 in H. cbn [pthread_mutex_lock trigger bind exec] in H.
  destruct H as ([] & tr1 & -> & H).
  unfold bindM at 1 in H.
  rewrite (load_pool_valid _ _ _ Hp) in H. cbn [bind] in H.
  destruct (Z.geb_spec (count p) POOL_SIZE) as [Hfull | Hroom].
  { cbn in H. destruct H as [-> [= <- <-]]. right. left. auto. }
  unfold bindM at 1 in H. apply exec_bind in H.
  destruct H as [(ds & tr2 & tr3 & Hloop & H & ->) | [(u & _ & Hu) | [_ Hu]]];
    [| discriminate Hu | discriminate Hu].
  destruct ds as [dup s1].
  eapply (for_upto_scan_at _ s) in Hloop;
    [| intros i tr o Hturn; exact (insert_turn_cases a p entry s i tr o Hp Hturn)].
  destruct Hloop as [(-> & [= -> ->] & Hall)
                    | [(j & v & Hj & (-> & -> & Hv) & [= -> ->] & _) | [u [=]]]].
  - right. right. right.
    unfold bindM at 1 in H.
    rewrite (load_pool_valid _ _ _ Hp) in H. cbn [bind] in H.
    unfold bindM at 1 in H. unfold store_slot at 1 in H.
    unfold bindM at 1 in H.
    rewrite (load_pool_valid _ _ _ Hp) in H. cbn [bind] in H.
    destruct (Z.leb_spec 0 (count p)) as [Hc0 | Hc0];
      [| cbn in H; destruct H as [_ [=]]].
    destruct (Z.ltb_spec (count p) (Z.of_nat (length (entries p)))) as [Hlt | Hlt];
      [| cbn in H; destruct H as [_ [=]]].
    cbn [andb] in H.
    rewrite (store_pool_valid _ _ _ _ Hp) in H. cbn [bind] in H.
    unfold bindM at 1 in H.
    rewrite (load_pool_valid a _ _ (lookup_insert_eq _ _ _)) in H.
    cbn [bind] in H. unfold bindM at 1 in H.
    rewrite (store_pool_valid a _ _ _ (lookup_insert_eq _ _ _)) in H.
    cbn in H. destruct H as ([] & tr4 & -> & -> & [= -> ->]).
    split; [reflexivity |]. split; [lia |]. split; [lia |]. split.
    + rewrite insert_insert_eq.
      rewrite wrap_int_id by (unfold INT_MIN, INT_MAX, POOL_SIZE in *; lia).
      reflexivity.
    + intros j Hj'. apply Hall. lia.
  - right. right. left. cbn in H. destruct H as [-> [= <- <-]].
    split; [reflexivity |].
    destruct Hv as (e & m & mine & -> & Hm & Hkey).
    exists j, e, m, mine. split; [lia |]. auto.
Qed.

(** A turn of the lookup loop at a slot whose entry compares unequal,
    and at one whose entry compares equal. *)
Lemma lookup_turn_miss a p k s i e other c :
  pools s !! a = Some p -> 0 <= i ->
  entries p !! Z.to_nat i = Some (Addr e) -> blocks s !! e = Some other ->
  strcmp (key other) k s = Ret (c, s) -> c <> 0 ->
  (slot <- load_slot (Addr a) i ;;
   other <- load_entry slot ;;
   c <- strcmp (key other) k ;;
   if c =? 0 then
     found <- load_slot (Addr a) i ;;
     pthread_mutex_unlock (pool_lock (Addr a)) ;;
     ret (Some found)
   else
     ret None) s = Ret (None, s).
Proof.
  intros Hp Hi Hslot He Hc Hne. unfold load_slot, bindM.
  rewrite (load_pool_valid _ _ _ Hp). cbn [bind].
  destruct (Z.leb_spec 0 i); [| lia]. rewrite Hslot. cbn [ret bind load_entry].
  rewrite He. cbn [bind]. rewrite Hc. cbn [bind].
  destruct (Z.eqb_spec c 0); [lia | reflexivity].
Qed.

Lemma lookup_turn_hit a p k s i e other :
  pools s !! a = Some p -> 0 <= i ->
  entries p !! Z.to_nat i = Some (Addr e) -> blocks s !! e = Some other ->
  strcmp (key other) k s = Ret (0, s) ->
  (slot <- load_slot (Addr a) i ;;
   other <- load_entry slot ;;
   c <- strcmp (key other) k ;;
   if c =? 0 then
     found <- load_slot (Addr a) i ;;
     pthread_mutex_unlock (pool_lock (Addr a)) ;;
     ret (Some found)
   else
     ret None) s
  = Vis (Unlock (pool_lock (Addr a))) (fun _ => Ret (Some (Addr e), s)).
Proof.
  intros Hp Hi Hslot He Hc. unfold load_slot, bindM.
  rewrite (load_pool_valid _ _ _ Hp). cbn [bind].
  destruct (Z.leb_spec 0 i); [| lia]. rewrite Hslot. cbn [ret bind load_entry].
  rewrite He. cbn [bind]. rewrite Hc. cbn [bind Z.eqb].
  rewrite (load_pool_valid _ _ _ Hp). cbn [bind].
  destruct (Z.leb_spec 0 i); [| lia]. rewrite Hslot. reflexivity.
Qed.

(** X1. [pool_lookup] is read-only and balanced: whenever it returns, the
    store is the one it was called with and [pool->pool_lock] is not
    held (it was acquired and released once, or never acquired when
    [pool] or [key] is null). *)
Theorem pool_lookup_keeps_store_and_lock pool key s tr o r s' :
  exec (pool_lookup pool key s) tr o ->
  o = Returns (r, s') ->
  s' = s
  /\ held (lock_ops tr) = []
  /\ (lock_ops tr = []
      \/ lock_ops tr = [Acquire (pool_lock pool); Release (pool_lock pool)]).
Proof.
  intros H ->. apply pool_lookup_cases in H.
  destruct H as [-> [(-> & _) | (a & p & k & _ & _ & _ & -> & _)]].
  - auto.
  - rewrite held_acquire_release. auto.
Qed.

Lemma pool_lookup_keeps_store_and_lock_witness :
  one_entry_store = one_entry_store
  /\ held (lock_ops (fst (run env (pool_lookup (Addr 1)
                                     (Some (key (entry_named x42)))
                                     one_entry_store)))) = []
  /\ (lock_ops (fst (run env (pool_lookup (Addr 1)
                                (Some (key (entry_named x42)))
                                one_entry_store))) = []
      \/ lock_ops (fst (run env (pool_lookup (Addr 1)
                                   (Some (key (entry_named x42)))
                                   one_entry_store)))
         = [Acquire (pool_lock (Addr 1)); Release (pool_lock (Addr 1))]).
Proof.
  refine (pool_lookup_keeps_store_and_lock (Addr 1)
            (Some (key (entry_named x42))) one_entry_store _ _ NULL
            one_entry_store (exec_run env _) _).
  vm_compute. reflexivity.
Defined.

(** X2. What [pool_lookup] returns for a pool [p] and a key [k]: either
    a pointer held in some slot [i] below [count] that addresses a live
    entry whose key is the string of [k], no lower slot holding that
    key; or [NULL], and then every slot below [count] holds a live entry
    with another key. *)
Theorem pool_lookup_returns_first_match a k s p tr o r s' :
  pools s !! a = Some p ->
  exec (pool_lookup (Addr a) (Some k) s) tr o ->
  o = Returns (r, s') ->
  (r = NULL
   /\ forall j, 0 <= j < count p ->
        exists e ks, slot_key s p j e ks /\ ks <> SampleOverflow.c_str k)
  \/ (exists i, 0 <= i < count p
        /\ slot_key s p i r (SampleOverflow.c_str k)
        /\ forall j, 0 <= j < i ->
             exists e ks, slot_key s p j e ks /\ ks <> SampleOverflow.c_str k).
Proof.
  intros Hp H ->. apply pool_lookup_cases in H.
  destruct H as [_ [(_ & _ & [[=] | [=]])
                   | (a' & p' & k' & [= <-] & [= <-] & Hp' & _ & Hr)]].
  rewrite Hp in Hp'. injection Hp' as <-. exact Hr.
Qed.

Lemma pool_lookup_returns_first_match_witness :
  (Addr 10 = NULL
   /\ forall j, 0 <= j < count (mkPool (Addr 10 :: replicate 63 NULL) 1) ->
        exists e ks,
          slot_key one_entry_store (mkPool (Addr 10 :: replicate 63 NULL) 1)
            j e ks
          /\ ks <> SampleOverflow.c_str (key (entry_named x41)))
  \/ (exists i, 0 <= i < count (mkPool (Addr 10 :: replicate 63 NULL) 1)
        /\ slot_key one_entry_store (mkPool (Addr 10 :: replicate 63 NULL) 1)
             i (Addr 10) (SampleOverflow.c_str (key (entry_named x41)))
        /\ forall j, 0 <= j < i ->
             exists e ks,
               slot_key one_entry_store
                 (mkPool (Addr 10 :: replicate 63 NULL) 1) j e ks
               /\ ks <> SampleOverflow.c_str (key (entry_named x41))).
Proof.
  refine (pool_lookup_returns_first_match 1%N (key (entry_named x41))
            one_entry_store (mkPool (Addr 10 :: replicate 63 NULL) 1)
            _ _ (Addr 10) one_entry_store _ (exec_run env _) _).
  - vm_compute. reflexivity.
  - vm_compute. reflexivity.
Defined.

(** X3. Insert, then look up.  After [pool_insert] has returned 0 for an
    entry whose key array holds a NUL, every run of [pool_lookup] on the
    same pool with that key returns the pointer that was inserted; the
    store is not changed and the lock is released again. *)
Theorem pool_lookup_after_pool_insert pool entry s tr s' m mine tr' o :
  exec (pool_insert pool entry s) tr (Returns (0, s')) ->
  entry = Addr m -> blocks s !! m = Some mine -> In x00 (key mine) ->
  exec (pool_lookup pool (Some (key mine)) s') tr' o ->
  o = Returns (entry, s')
  /\ lock_ops tr' = [Acquire (pool_lock pool); Release (pool_lock pool)].
Proof.
  intros Hins -> Hm Hnul H.
  destruct (pool_insert_cases _ _ _ _ _ _ Hins)
    as [([=] & _) | [([=] & _) | [([=] & _) | (_ & _ & a & p & -> & Hp & _)]]].
  destruct (pool_insert_outcomes _ _ _ _ _ _ _ Hp Hins)
    as [([=] & _) | [([=] & _) | [([=] & _) | (_ & Hcount & Hlen & -> & Hall)]]].
  set (p' := mkPool (<[Z.to_nat (count p) := Addr m]> (entries p)) (count p + 1))
    in *.
  set (s' := mkState (<[a := p']> (pools s)) (blocks s)) in *.
  assert (pools s' !! a = Some p') as Hp' by apply lookup_insert_eq.
  unfold pool_lookup in H. cbn [is_null] in H.
  unfold bindM at 1 in H. cbn [pthread_mutex_lock trigger bind exec] in H.
  destruct H as ([] & tr1 & -> & H).
  unfold bindM at 1 in H.
  rewrite (load_pool_valid _ _ _ Hp') in H. cbn [bind] in H.
  unfold bindM at 1 in H.
  replace (Z.to_nat (count p')) with (Z.to_nat (count p) + 1)%nat in H
    by (subst p'; cbn [count]; lia).
  rewrite for_upto_skip in H.
  - cbn [for_upto] in H.
    rewrite (lookup_turn_hit a p' (key mine) s' _ m mine) in H;
      [| exact Hp' | lia | | exact Hm | by apply strcmp_same].
    + cbn in H. destruct H as ([] & tr2 & -> & -> & ->). auto.
    + subst p'. cbn [entries].
      replace (Z.to_nat (0 + Z.of_nat (Z.to_nat (count p))))
        with (Z.to_nat (count p)) by lia.
      apply list_lookup_insert_eq. lia.
  - intros j Hj.
    destruct (insert_turn_none _ _ _ _ _ Hp (Hall j ltac:(lia)))
      as (e & other & m' & mine' & c & Hj0 & Hslot & He & [= <-] & Hm' & Hc & Hne).
    rewrite Hm in Hm'. injection Hm' as <-.
    apply (lookup_turn_miss a p' (key mine) s' j e other c);
      [exact Hp' | lia | | exact He | by apply (strcmp_any_store _ _ s) | exact Hne].
    subst p'. cbn [entries]. rewrite list_lookup_insert_ne by lia. exact Hslot.
Qed.

Lemma pool_lookup_after_pool_insert_witness :
  snd (run env (pool_lookup (Addr 1) (Some (key (entry_named x42)))
                  (mkState
                     {[ 1%N := mkPool (Addr 10 :: Addr 11 :: replicate 62 NULL) 2 ]}
                     sample_blocks)))
  = Returns (Addr 11,
             mkState
               {[ 1%N := mkPool (Addr 10 :: Addr 11 :: replicate 62 NULL) 2 ]}
               sample_blocks)
  /\ lock_ops (fst (run env (pool_lookup (Addr 1) (Some (key (entry_named x42)))
                  (mkState
                     {[ 1%N := mkPool (Addr 10 :: Addr 11 :: replicate 62 NULL) 2 ]}
                     sample_blocks))))
     = [Acquire (pool_lock (Addr 1)); Release (pool_lock (Addr 1))].
Proof.
  refine (pool_lookup_after_pool_insert (Addr 1) (Addr 11) one_entry_store
            (fst (run env (pool_insert (Addr 1) (Addr 11) one_entry_store)))
            _ 11%N (entry_named x42) _ _ _ eq_refl _ _ (exec_run env _)).
  - vm_compute. eexists _, _. split; [reflexivity |].
    eexists _, _. split; [reflexivity |]. split; reflexivity.
  - vm_compute. reflexivity.
  - vm_compute. auto.
Defined.

(** X4. A successful [pool_insert] appends: with [pool->count = n] before
    the call, [0 <= n < POOL_SIZE], slot [n] now holds [entry], [count]
    is [n + 1], every other slot, every other pool and every entry is as
    before, and no slot below [n] held a key equal to the new one.  A
    result [-EEXIST] means that some slot below [count] holds a live
    entry with the same key as [entry]. *)
Theorem pool_insert_appends_or_reports_duplicate a entry s p tr o r s' :
  pools s !! a = Some p ->
  exec (pool_insert (Addr a) entry s) tr o ->
  o = Returns (r, s') ->
  (r = 0 ->
   0 <= count p < POOL_SIZE
   /\ pools s' = <[a := mkPool (<[Z.to_nat (count p) := entry]> (entries p))
                           (count p + 1)]> (pools s)
   /\ blocks s' = blocks s
   /\ forall j, 0 <= j < count p ->
        exists e ks, slot_key s p j e ks
          /\ forall m mine, entry = Addr m -> blocks s !! m = Some mine ->
                ks <> SampleOverflow.c_str (key mine))
  /\ (r = - EEXIST ->
      exists i e m mine,
        0 <= i < count p /\ entry = Addr m /\ blocks s !! m = Some mine
        /\ slot_key s p i e (SampleOverflow.c_str (key mine))).
Proof.
  intros Hp H ->.
  destruct (pool_insert_outcomes _ _ _ _ _ _ _ Hp H)
    as [(-> & _) | [(-> & _) | [(-> & Hdup) | (-> & Hcount & Hlen & -> & Hall)]]];
    (split; [intros [=] | intros [=]]); try exact Hdup.
  split; [exact Hcount |]. split; [reflexivity |]. split; [reflexivity |].
  intros j Hj.
  destruct (insert_turn_none _ _ _ _ _ Hp (Hall j Hj))
    as (e & other & m & mine & c & Hj0 & Hslot & He & -> & Hm & Hc & Hne).
  exists (Addr e), (SampleOverflow.c_str (key other)).
  split; [unfold slot_key; eauto 10 |].
  intros m' mine' [= <-] Hm'. rewrite Hm in Hm'. injection Hm' as <-.
  intros Heq. apply Hne. by apply (strcmp_zero_iff _ _ _ _ Hc).
Qed.

Lemma pool_insert_appends_or_reports_duplicate_witness :
  0 <= count (mkPool (Addr 10 :: replicate 63 NULL) 1) < POOL_SIZE
  /\ pools (mkState
              {[ 1%N := mkPool (Addr 10 :: Addr 11 :: replicate 62 NULL) 2 ]}
              sample_blocks)
     = <[1%N := mkPool (<[Z.to_nat (count (mkPool (Addr 10 :: replicate 63 NULL) 1))
                          := Addr 11]>
                         (entries (mkPool (Addr 10 :: replicate 63 NULL) 1)))
                  (count (mkPool (Addr 10 :: replicate 63 NULL) 1) + 1)]>
         (pools one_entry_store)
  /\ blocks (mkState
               {[ 1%N := mkPool (Addr 10 :: Addr 11 :: replicate 62 NULL) 2 ]}
               sample_blocks)
     = blocks one_entry_store
  /\ forall j, 0 <= j < count (mkPool (Addr 10 :: replicate 63 NULL) 1) ->
       exists e ks,
         slot_key one_entry_store (mkPool (Addr 10 :: replicate 63 NULL) 1)
           j e ks
         /\ forall m mine, Addr 11 = Addr m ->
               blocks one_entry_store !! m = Some mine ->
               ks <> SampleOverflow.c_str (key mine).
Proof.
  refine (proj1 (pool_insert_appends_or_reports_duplicate 1%N (Addr 11)
                   one_entry_store (mkPool (Addr 10 :: replicate 63 NULL) 1)
                   _ _ 0 _ _ (exec_run env _) _) eq_refl).
  - vm_compute. reflexivity.
  - vm_compute. reflexivity.
Defined.

(** [strlen] of a NUL-terminated array is the length of its string. *)
Lemma strlen_terminated (k : list byte) (s : state) :
  In x00 k ->
  strlen k s = Ret (Z.of_nat (length (SampleOverflow.c_str k)), s).
Proof.
  induction k as [| b k IH]; simpl; [tauto |].
  destruct (is_nul b) eqn:Hb; [reflexivity |].
  intros [-> | Hin]; [discriminate |].
  unfold bindM. rewrite (IH Hin). cbn [bind ret length].
  by rewrite Nat2Z.inj_succ, Z.add_1_l.
Qed.

(** X5. [validate_key] accepts exactly the keys of 1 to 255 bytes: for a
    NUL-terminated array it returns 0 when the string has between 1 and
    [MAX_KEY_LEN - 1] bytes, [-EINVAL] when it is empty and
    [-ENAMETOOLONG] when it has [MAX_KEY_LEN] bytes or more; so an
    accepted key and its terminator fit [key[MAX_KEY_LEN]]. *)
Theorem validate_key_accepts_1_to_255_bytes k s :
  In x00 k ->
  exists r, validate_key (Some k) s = Ret (r, s)
    /\ (r = 0 <->
        1 <= Z.of_nat (length (SampleOverflow.c_str k)) <= MAX_KEY_LEN - 1)
    /\ (r = - EINVAL <-> SampleOverflow.c_str k = [])
    /\ (r = - ENAMETOOLONG <->
        MAX_KEY_LEN <= Z.of_nat (length (SampleOverflow.c_str k))).
Proof.
  intros Hin. unfold validate_key, bindM.
  rewrite (strlen_terminated _ _ Hin). cbn [bind].
  set (n := length (SampleOverflow.c_str k)).
  assert (SampleOverflow.c_str k = [] <-> n = 0%nat) as Hnil
    by (subst n; destruct (SampleOverflow.c_str k); simpl; split;
        congruence).
  unfold MAX_KEY_LEN in *.
  destruct (Z.eqb_spec (Z.of_nat n) 0) as [H0 | H0].
  - eexists. split; [reflexivity |]. rewrite Hnil.
    vm_compute (- EINVAL). vm_compute (- ENAMETOOLONG). lia.
  - destruct (Z.geb_spec (Z.of_nat n) 256) as [Hbig | Hsmall];
      (eexists; split; [reflexivity |]); rewrite Hnil;
      vm_compute (- EINVAL); vm_compute (- ENAMETOOLONG); lia.
Qed.

Lemma validate_key_accepts_1_to_255_bytes_witness :
  exists r, validate_key (Some (key (entry_named x41))) one_entry_store
            = Ret (r, one_entry_store)
    /\ (r = 0 <->
        1 <= Z.of_nat (length (SampleOverflow.c_str (key (entry_named x41))))
          <= MAX_KEY_LEN - 1)
    /\ (r = - EINVAL <-> SampleOverflow.c_str (key (entry_named x41)) = [])
    /\ (r = - ENAMETOOLONG <->
        MAX_KEY_LEN
        <= Z.of_nat (length (SampleOverflow.c_str (key (entry_named x41))))).
Proof.
  apply validate_key_accepts_1_to_255_bytes. vm_compute. auto.
Defined.

End StorageLookupFacts.

(** ** sample_branch.c: results of the input and command handlers *)

Section SampleBranchResults.
Import SampleBranch.

(** The scanning loop of [process_input] over cells that exist. *)
Lemma scan_in_bounds (buf : list byte) (s : state) (n : nat) :
  forall k : nat,
    (k + n <= length buf)%nat ->
    exists r,
      for_upto n (Z.of_nat k) (fun i =>
        b <- load buf i ;;
        if is_nul b then ret (Some tt) else ret None) s = Ret (r, s).
Proof.
  induction n as [| n IH]; intros k Hk; [eexists; reflexivity |].
  cbn [for_upto]. unfold bindM at 1. unfold load at 1.
  destruct (Z.leb_spec 0 (Z.of_nat k)); [| lia]. rewrite Nat2Z.id.
  destruct (lookup_lt_is_Some_2 buf k ltac:(lia)) as [b ->].
  cbn [ret bind]. destruct (is_nul b); cbn [ret bind]; [eauto |].
  replace (Z.of_nat k + 1) with (Z.of_nat (S k)) by lia.
  apply IH. lia.
Qed.

(** The loop stops at a NUL it meets. *)
Lemma scan_to_nul (buf : list byte) (s : state) (n : nat) :
  forall k j : nat,
    (k <= j < k + n)%nat -> buf !! j = Some x00 ->
    exists r,
      for_upto n (Z.of_nat k) (fun i =>
        b <- load buf i ;;
        if is_nul b then ret (Some tt) else ret None) s = Ret (r, s).
Proof.
  induction n as [| n IH]; intros k j Hj Hnul; [lia |].
  cbn [for_upto]. unfold bindM at 1. unfold load at 1.
  destruct (Z.leb_spec 0 (Z.of_nat k)); [| lia]. rewrite Nat2Z.id.
  destruct (lookup_lt_is_Some_2 buf k) as [b Hb].
  { apply lookup_lt_Some in Hnul. lia. }
  rewrite Hb. cbn [ret bind].
  destruct (is_nul b) eqn:Hbn; cbn [ret bind]; [eauto |].
  replace (Z.of_nat k + 1) with (Z.of_nat (S k)) by lia.
  apply (IH (S k) j); [| exact Hnul].
  destruct (decide (j = k)) as [-> | Hne]; [| lia].
  rewrite Hb in Hnul. injection Hnul as ->. discriminate.
Qed.

(** Without a NUL the loop runs off a buffer shorter than [size]. *)
Lemma scan_past_end (buf : list byte) (s : state) (n : nat) :
  forall k : nat,
    (k <= length buf < k + n)%nat -> ~ In x00 buf ->
    for_upto n (Z.of_nat k) (fun i =>
      b <- load buf i ;;
      if is_nul b then ret (Some tt) else ret None) s
    = Undef (OutOfBounds (Z.of_nat (length buf)) (Z.of_nat (length buf))).
Proof.
  induction n as [| n IH]; intros k Hk Hnul; [lia |].
  cbn [for_upto]. unfold bindM at 1. unfold load at 1.
  destruct (Z.leb_spec 0 (Z.of_nat k)); [| lia]. rewrite Nat2Z.id.
  destruct (buf !! k) as [b |] eqn:Hb.
  - cbn [ret bind]. destruct (is_nul b) eqn:Hbn.
    + exfalso. apply Hnul. destruct b; try discriminate.
      apply list_elem_of_In, list_elem_of_lookup. eauto.
    + cbn [ret bind]. replace (Z.of_nat k + 1) with (Z.of_nat (S k)) by lia.
      apply IH; [| exact Hnul]. apply lookup_lt_Some in Hb. lia.
  - apply lookup_ge_None in Hb. cbn [undef bind].
    assert (k = length buf) as -> by lia. reflexivity.
Qed.

(** X6. The results of [process_input]: -1 for a null [buffer], -2 for
    [size <= 0], -3 for [size > 1024], each without touching the store.
    For [1 <= size <= 1024] it adds one to [global_counter] and returns
    0 when the buffer has at least [size] bytes or a NUL among its first
    [size] bytes; a shorter buffer without NUL is read one past its
    end. *)
Theorem process_input_results :
  (forall size s, process_input None size s = Ret (-1, s))
  /\ (forall buf size s, size <= 0 ->
        process_input (Some buf) size s = Ret (-2, s))
  /\ (forall buf size s, 1024 < size ->
        process_input (Some buf) size s = Ret (-3, s))
  /\ (forall buf size s, 0 < size <= 1024 ->
        (size <= Z.of_nat (length buf)
         \/ exists j : nat, Z.of_nat j < size /\ buf !! j = Some x00) ->
        process_input (Some buf) size s
        = Ret (0, set_global_counter (wrap_int (global_counter s + 1)) s))
  /\ (forall buf size s, 0 < size <= 1024 ->
        Z.of_nat (length buf) < size -> ~ In x00 buf ->
        process_input (Some buf) size s
        = Undef (OutOfBounds (Z.of_nat (length buf))
                   (Z.of_nat (length buf)))).
Proof.
  split; [reflexivity |]. split; [| split; [| split]].
  - intros buf size s Hs. unfold process_input.
    destruct (Z.leb_spec size 0); [reflexivity | lia].
  - intros buf size s Hs. unfold process_input.
    destruct (Z.leb_spec size 0); [lia |].
    destruct (Z.gtb_spec size 1024); [reflexivity | lia].
  - intros buf size s Hs Hok. unfold process_input.
    destruct (Z.leb_spec size 0); [lia |].
    destruct (Z.gtb_spec size 1024); [lia |].
    unfold bindM. cbn [modify bind].
    destruct Hok as [Hlen | (j & Hj & Hnul)].
    + destruct (scan_in_bounds buf
                  (set_global_counter (wrap_int (global_counter s + 1)) s)
                  (Z.to_nat size) 0 ltac:(lia)) as [r Hr].
      change (Z.of_nat 0) with 0 in Hr. unfold bindM in Hr. rewrite Hr.
      reflexivity.
    + destruct (scan_to_nul buf
                  (set_global_counter (wrap_int (global_counter s + 1)) s)
                  (Z.to_nat size) 0 j ltac:(lia) Hnul) as [r Hr].
      change (Z.of_nat 0) with 0 in Hr. unfold bindM in Hr. rewrite Hr.
      reflexivity.
  - intros buf size s Hs Hlen Hnul. unfold process_input.
    destruct (Z.leb_spec size 0); [lia |].
    destruct (Z.gtb_spec size 1024); [lia |].
    unfold bindM. cbn [modify bind].
    pose proof (scan_past_end buf
                  (set_global_counter (wrap_int (global_counter s + 1)) s)
                  (Z.to_nat size) 0 ltac:(lia) Hnul) as Hr.
    change (Z.of_nat 0) with 0 in Hr. unfold bindM in Hr. rewrite Hr.
    reflexivity.
Qed.

Lemma process_input_results_witness :
  process_input (Some [x41; x42]) 0 initial = Ret (-2, initial)
  /\ process_input (Some [x41; x42]) 2000 initial = Ret (-3, initial)
  /\ process_input (Some [x41; x00]) 10 initial
     = Ret (0, set_global_counter
                 (wrap_int (global_counter initial + 1)) initial)
  /\ process_input (Some [x41; x42]) 10 initial
     = Undef (OutOfBounds (Z.of_nat (length [x41; x42]))
                (Z.of_nat (length [x41; x42]))).
Proof.
  destruct process_input_results as (_ & H2 & H3 & H4 & H5).
  split; [| split; [| split]].
  - apply H2. lia.
  - apply H3. lia.
  - apply H4; [lia |]. right. exists 1%nat. split; [lia | reflexivity].
  - apply H5; [lia | simpl; lia |]. simpl. intros [H | [H | []]]; discriminate.
Defined.

(** What [handle_command] does, in closed form. *)
Lemma handle_command_run (fuel : nat) (cmd : Z) (s : state) :
  (3 <= fuel)%nat ->
  handle_command fuel cmd s
  = Ret (if cmd =? 1 then (-1, set_g_status 1 s)
         else if (cmd =? 2) || (cmd =? 3) then (0, set_g_status 0 s)
         else (-1, set_g_status (-1) s)).
Proof.
  intros Hfuel.
  assert (forall v, 0 < v <= 3 ->
            (while fuel (fun s => g_status s >? 0) decrement_status ;; ret 0)
              (set_g_status v s)
            = Ret (0, set_g_status 0 s)) as Hloop.
  { intros v Hv. unfold bindM.
    rewrite status_loop_terminates by (unfold INT_MAX; simpl; lia).
    cbn [bind ret]. simpl. rewrite Z.min_r by lia. reflexivity. }
  destruct cmd as [| p | p];
    [| destruct p as [[q | q |] | [q | q |] |] |];
    cbn -[while]; try reflexivity.
  - apply (Hloop 3). lia.
  - apply (Hloop 2). lia.
Qed.

(** X7. [handle_command] returns 0 exactly for the commands 2 and 3, and
    then [g_status] is 0; for every other command it returns -1, with
    [g_status] left at 1 for command 1 and at -1 otherwise.  It never
    changes [global_counter]. *)
Theorem handle_command_results fuel cmd s :
  (3 <= fuel)%nat ->
  exists r s',
    handle_command fuel cmd s = Ret (r, s')
    /\ global_counter s' = global_counter s
    /\ (r = 0 <-> cmd = 2 \/ cmd = 3)
    /\ (r = 0 \/ r = -1)
    /\ (r = 0 -> g_status s' = 0)
    /\ (cmd = 1 -> g_status s' = 1)
    /\ (r <> 0 -> cmd <> 1 -> g_status s' = -1).
Proof.
  intros Hfuel. rewrite handle_command_run by exact Hfuel.
  destruct (Z.eqb_spec cmd 1) as [-> | H1].
  { eexists _, _. split; [reflexivity |]. simpl. repeat split; lia. }
  destruct (Z.eqb_spec cmd 2) as [-> | H2].
  { eexists _, _. split; [reflexivity |]. simpl. repeat split; lia. }
  destruct (Z.eqb_spec cmd 3) as [-> | H3].
  { eexists _, _. split; [reflexivity |]. simpl. repeat split; lia. }
  eexists _, _. split; [reflexivity |]. simpl. repeat split; lia.
Qed.

Lemma handle_command_results_witness :
  exists r s',
    handle_command 3 2 initial = Ret (r, s')
    /\ global_counter s' = global_counter initial
    /\ (r = 0 <-> 2 = 2 \/ 2 = 3)
    /\ (r = 0 \/ r = -1)
    /\ (r = 0 -> g_status s' = 0)
    /\ (2 = 1 -> g_status s' = 1)
    /\ (r <> 0 -> 2 <> 1 -> g_status s' = -1).
Proof. apply handle_command_results. lia. Defined.

(** X8. [cmd_handler] hands [data] to [process_input] only after command
    2 or 3: for any other command it returns whatever [data] and [len]
    are, and [global_counter] is unchanged.  After command 2 or 3 it
    goes on exactly like [process_input(data, len)] started with
    [g_status = 0]. *)
Theorem cmd_handler_gates_process_input fuel cmd data len s :
  (3 <= fuel)%nat ->
  (cmd <> 2 -> cmd <> 3 ->
   exists s', cmd_handler fuel cmd data len s = Ret (tt, s')
              /\ global_counter s' = global_counter s)
  /\ (cmd = 2 \/ cmd = 3 ->
      cmd_handler fuel cmd data len s
      = (process_input data len ;; ret tt) (set_g_status 0 s)).
Proof.
  intros Hfuel. unfold cmd_handler. unfold bindM at 1 3.
  rewrite handle_command_run by exact Hfuel. split.
  - intros H2 H3.
    destruct (Z.eqb_spec cmd 1); [eexists; split; reflexivity |].
    destruct (Z.eqb_spec cmd 2); [lia |].
    destruct (Z.eqb_spec cmd 3); [lia |].
    eexists; split; reflexivity.
  - intros [-> | ->]; reflexivity.
Qed.

Lemma cmd_handler_gates_process_input_witness :
  (exists s', cmd_handler 3 1 (Some [x41]) 10 initial = Ret (tt, s')
              /\ global_counter s' = global_counter initial)
  /\ cmd_handler 3 2 (Some [x41; x00]) 10 initial
     = (process_input (Some [x41; x00]) 10 ;; ret tt) (set_g_status 0 initial).
Proof.
  destruct (cmd_handler_gates_process_input 3 1 (Some [x41]) 10 initial
              ltac:(lia)) as [H1 _].
  destruct (cmd_handler_gates_process_input 3 2 (Some [x41; x00]) 10 initial
              ltac:(lia)) as [_ H2].
  split; [apply H1; lia | apply H2; auto].
Defined.

(** X9. [main] never processes its argument: the command it passes on is
    1, which [handle_command] always refuses.  With [argc < 2] it
    returns 1 and the store is untouched; otherwise it returns 0 with
    [g_status = 1], and in both cases [global_counter] is unchanged,
    whatever [argv[1]] is. *)
Theorem main_never_processes_its_argument fuel argc argv s :
  (3 <= fuel)%nat ->
  (2 <= argc -> (2 <= length argv)%nat) ->
  exists r s',
    main fuel argc argv s = Ret (r, s')
    /\ global_counter s' = global_counter s
    /\ (argc < 2 -> r = 1 /\ s' = s)
    /\ (2 <= argc -> r = 0 /\ g_status s' = 1).
Proof.
  intros Hfuel Hargv. unfold main.
  destruct (Z.ltb_spec argc 2) as [Hlt | Hge].
  - eexists _, _. split; [reflexivity |]. repeat split; lia.
  - destruct (lookup_lt_is_Some_2 argv 1 ltac:(lia)) as [arg ->].
    unfold bindM at 1. unfold cmd_handler. unfold bindM at 1.
    rewrite handle_command_run by exact Hfuel.
    eexists _, _. split; [reflexivity |]. simpl. repeat split; lia.
Qed.

Lemma main_never_processes_its_argument_witness :
  exists r s',
    main 3 2 [Some [x61; x00]; Some [x41]] initial = Ret (r, s')
    /\ global_counter s' = global_counter initial
    /\ (2 < 2 -> r = 1 /\ s' = initial)
    /\ (2 <= 2 -> r = 0 /\ g_status s' = 1).
Proof.
  apply main_never_processes_its_argument; [lia | simpl; lia].
Defined.

End SampleBranchResults.

(** ** sample_lock.c: the callback entry points *)

Section SampleLockCallbacks.
Import SampleLock.

(** X10. [on_message_callback] returns with no lock held, whatever
    [type] is.  For [type == 1] it takes and releases [g_lock_a] once
    and adds one to [g_shared_data]; for [type == 2] it runs
    [path_a_handler] (the only case that touches [g_lock_b]); for any
    other [type] it performs no lock operation and leaves the store as
    it was. *)
Theorem on_message_callback_dispatch type data s tr o :
  exec (on_message_callback type data s) tr o ->
  held (lock_ops tr) = []
  /\ exists s', o = Returns (tt, s')
     /\ (type = 1 ->
         lock_ops tr = [Acquire g_lock_a; Release g_lock_a]
         /\ s' = set_g_shared_data (wrap_int (g_shared_data s + 1)) s)
     /\ (type = 2 ->
         lock_ops tr = [Acquire g_lock_a; Acquire g_lock_b;
                        Release g_lock_b; Release g_lock_a]
         /\ g_shared_data s' = 1
         /\ g_counter s' = wrap_int (g_counter s + 1))
     /\ (type <> 1 -> type <> 2 -> lock_ops tr = [] /\ s' = s).
Proof.
  intros H. unfold on_message_callback in H.
  destruct (Z.eqb_spec type 1) as [-> | H1];
    [| destruct (Z.eqb_spec type 2) as [-> | H2]];
    exec_inv; cbn; (split; [reflexivity |]); eexists;
    (split; [reflexivity |]); repeat split; intros; (lia || reflexivity).
Qed.

Lemma on_message_callback_dispatch_witness :
  held (lock_ops (fst (run env (on_message_callback 2 NULL initial)))) = [].
Proof.
  apply (on_message_callback_dispatch 2 NULL initial _ _ (exec_run env _)).
Defined.

(** X11. [thread_entry] always returns [NULL]; on the way it takes and
    releases [g_lock_a] exactly once, adds one to [g_shared_data] and
    leaves [g_counter] and [g_lock_b] alone. *)
Theorem thread_entry_increments_once arg s tr o :
  exec (thread_entry arg s) tr o ->
  o = Returns (NULL, set_g_shared_data (wrap_int (g_shared_data s + 1)) s)
  /\ lock_ops tr = [Acquire g_lock_a; Release g_lock_a].
Proof. intros H. exec_inv. cbn. auto. Qed.

Lemma thread_entry_increments_once_witness :
  snd (run env (thread_entry (Addr 4) initial))
  = Returns (NULL, set_g_shared_data (wrap_int (g_shared_data initial + 1))
                     initial)
  /\ lock_ops (fst (run env (thread_entry (Addr 4) initial)))
     = [Acquire g_lock_a; Release g_lock_a].
Proof.
  apply (thread_entry_increments_once (Addr 4) initial _ _ (exec_run env _)).
Defined.

End SampleLockCallbacks.

(** ** Calls of one unit from another *)

Lemma exec_translate {E F : Type -> Type} {A} (f : forall X, E X -> F X)
    (p : prog E A) (tr : list (event F)) (o : outcome A) :
  exec (translate f p) tr o ->
  exists tr0, exec p tr0 o /\ tr = map (translate_event f) tr0.
Proof.
  revert tr. induction p as [r | X e k IH | u |]; simpl; intros tr H.
  - destruct H as [-> ->]. exists []. auto.
  - destruct H as (x & tr' & -> & H).
    destruct (IH x tr' H) as (tr0 & H0 & ->).
    exists (Ev e x :: tr0). simpl. eauto.
  - destruct H as [-> ->]. exists []. auto.
  - destruct H as [-> ->]. exists []. auto.
Qed.

(** ** sample_protocol.c: opening, using and closing the connection *)

Section SampleProtocolIOFacts.
Import SampleProtocolIO.

(** X12. [init_connection] never leaks the socket: it returns -1 when
    [socket] fails (nothing else is called), -2 when [connect] fails,
    after closing the socket it had obtained, and otherwise the open
    socket itself.  [g_connection_state] becomes 1 only in the last
    case; in the other two the store is untouched. *)
Theorem init_connection_closes_failed_socket host port s tr o :
  exec (init_connection host port s) tr o ->
  (exists r, r < 0
     /\ tr = [Ev (Socket AF_INET SOCK_STREAM 0) r]
     /\ o = Returns (-1, s))
  \/ (exists fd c x, 0 <= fd /\ c < 0
       /\ tr = [Ev (Socket AF_INET SOCK_STREAM 0) fd;
                Ev (Connect fd AF_INET (port mod 2 ^ 16) sizeof_sockaddr_in) c;
                Ev (Close fd) x]
       /\ o = Returns (-2, s))
  \/ (exists fd c, 0 <= fd /\ 0 <= c
       /\ tr = [Ev (Socket AF_INET SOCK_STREAM 0) fd;
                Ev (Connect fd AF_INET (port mod 2 ^ 16) sizeof_sockaddr_in) c]
       /\ o = Returns (fd, SampleProtocol.mkState 1)).
Proof.
  intros H. unfold init_connection, bindM in H.
  cbn [trigger bind exec] in H. destruct H as (fd & tr1 & -> & H).
  destruct (Z.ltb_spec fd 0) as [Hfd | Hfd].
  { cbn in H. destruct H as [-> ->]. left. eauto. }
  cbn [trigger bind exec] in H. destruct H as (c & tr2 & -> & H).
  destruct (Z.ltb_spec c 0) as [Hc | Hc].
  - cbn in H. destruct H as (x & tr3 & -> & -> & ->).
    right. left. exists fd, c, x. auto.
  - cbn in H. destruct H as [-> ->]. right. right. exists fd, c. auto.
Qed.

Lemma init_connection_closes_failed_socket_witness :
  (exists r, r < 0
     /\ fst (run (env (-1)) (init_connection hello 80 (SampleProtocol.mkState 0)))
        = [Ev (Socket AF_INET SOCK_STREAM 0) r]
     /\ snd (run (env (-1)) (init_connection hello 80 (SampleProtocol.mkState 0)))
        = Returns (-1, SampleProtocol.mkState 0))
  \/ (exists fd c x, 0 <= fd /\ c < 0
       /\ fst (run (env (-1)) (init_connection hello 80 (SampleProtocol.mkState 0)))
          = [Ev (Socket AF_INET SOCK_STREAM 0) fd;
             Ev (Connect fd AF_INET (80 mod 2 ^ 16) sizeof_sockaddr_in) c;
             Ev (Close fd) x]
       /\ snd (run (env (-1)) (init_connection hello 80 (SampleProtocol.mkState 0)))
          = Returns (-2, SampleProtocol.mkState 0))
  \/ (exists fd c, 0 <= fd /\ 0 <= c
       /\ fst (run (env (-1)) (init_connection hello 80 (SampleProtocol.mkState 0)))
          = [Ev (Socket AF_INET SOCK_STREAM 0) fd;
             Ev (Connect fd AF_INET (80 mod 2 ^ 16) sizeof_sockaddr_in) c]
       /\ snd (run (env (-1)) (init_connection hello 80 (SampleProtocol.mkState 0)))
          = Returns (fd, SampleProtocol.mkState 1)).
Proof.
  apply (init_connection_closes_failed_socket hello 80
           (SampleProtocol.mkState 0) _ _ (exec_run (env (-1)) _)).
Defined.

(** X13. [send_data] is balanced on each of its three returns: the lock
    operations are one acquire and one release of [conn_lock] and the
    store is untouched.  With [fd < 0] it returns -1 and never calls
    [send]; otherwise it calls [send] exactly once, with [conn_lock]
    held, and returns -2 when the result is negative and the result
    itself when it is not. *)
Theorem send_data_is_balanced fd input_buffer len s tr o :
  exec (send_data fd input_buffer len s) tr o ->
  lock_ops tr = [Acquire SampleProtocol.conn_lock;
                 Release SampleProtocol.conn_lock]
  /\ held (lock_ops tr) = []
  /\ exists r, o = Returns (r, s)
     /\ (fd < 0 -> r = -1 /\ held_where is_send tr = [])
     /\ (0 <= fd ->
         held_where is_send tr = [[SampleProtocol.conn_lock]]
         /\ exists n, In (Ev (Send fd input_buffer len 0) n) tr
              /\ (wrap_int n < 0 -> r = -2)
              /\ (0 <= wrap_int n -> r = wrap_int n)).
Proof.
  intros H. unfold send_data, bindM in H.
  cbn [pthread_mutex_lock trigger bind exec] in H.
  destruct H as ([] & tr1 & -> & H).
  destruct (Z.ltb_spec fd 0) as [Hfd | Hfd].
  { cbn in H. destruct H as ([] & tr2 & -> & -> & ->).
    cbn. do 2 (split; [reflexivity |]). eexists. split; [reflexivity |].
    split; [auto | lia]. }
  cbn [pthread_mutex_unlock trigger bind exec] in H.
  destruct H as (n & tr2 & -> & H).
  destruct (Z.ltb_spec (wrap_int n) 0) as [Hn | Hn];
    cbn in H; destruct H as ([] & tr3 & -> & -> & ->);
    cbn; (do 2 (split; [reflexivity |])); (eexists; split; [reflexivity |]);
    (split; [lia |]); intros _; (split; [reflexivity |]);
    exists n; (split; [auto |]); split; intros; (lia || reflexivity).
Qed.

Lemma send_data_is_balanced_witness :
  lock_ops (fst (run (env 5) (send_data 3 hello 5 (SampleProtocol.mkState 1))))
  = [Acquire SampleProtocol.conn_lock; Release SampleProtocol.conn_lock].
Proof.
  apply (send_data_is_balanced 3 hello 5 (SampleProtocol.mkState 1) _ _
           (exec_run (env 5) _)).
Defined.

(** X14. [process_handler] returns with [conn_lock] released for every
    [cmd].  Only [cmd == 2] makes a blocking call (the [recv], with
    [conn_lock] held); [cmd == 0] closes [fd] and sets
    [g_connection_state] to 0; a [cmd] other than 0, 1, 2 does nothing
    at all. *)
Theorem process_handler_dispatch buffer fd cmd s tr o :
  exec (process_handler buffer fd cmd s) tr o ->
  held (lock_ops tr) = []
  /\ exists s', o = Returns (tt, s')
     /\ (cmd = 2 ->
         held_where blocking tr = [[SampleProtocol.conn_lock]] /\ s' = s)
     /\ (cmd <> 2 -> held_where blocking tr = [])
     /\ (cmd = 1 -> s' = s)
     /\ (cmd = 0 ->
         s' = SampleProtocol.mkState 0
         /\ exists x, tr = [Ev (Base (SampleProtocol.Lock SampleProtocol.conn_lock)) tt;
                            Ev (Close fd) x;
                            Ev (Base (SampleProtocol.Unlock SampleProtocol.conn_lock)) tt])
     /\ (cmd <> 0 -> cmd <> 1 -> cmd <> 2 -> tr = [] /\ s' = s).
Proof.
  intros H. unfold process_handler in H.
  destruct (Z.eqb_spec cmd 1) as [-> | H1].
  { unfold send_data in H. exec_inv; cbn; (split; [reflexivity |]);
      eexists; (split; [reflexivity |]); repeat split; intros;
      (lia || reflexivity). }
  destruct (Z.eqb_spec cmd 2) as [-> | H2].
  { unfold liftM, SampleProtocol.recv_data_handler in H.
    exec_inv; cbn; (split; [reflexivity |]);
      eexists; (split; [reflexivity |]); repeat split; intros;
      (lia || reflexivity). }
  destruct (Z.eqb_spec cmd 0) as [-> | H0].
  { unfold close_connection in H.
    exec_inv; cbn; (split; [reflexivity |]);
      eexists; (split; [reflexivity |]).
    split; [lia |]. split; [reflexivity |]. split; [lia |].
    split; [| lia]. intros _. split; [reflexivity |]. eexists. reflexivity. }
  exec_inv. cbn. split; [reflexivity |]. eexists. split; [reflexivity |].
  repeat split; intros; (lia || reflexivity).
Qed.

Lemma process_handler_dispatch_witness :
  held (lock_ops (fst (run (env 4)
                         (process_handler (Addr 16) 3 2
                            (SampleProtocol.mkState 1))))) = [].
Proof.
  apply (process_handler_dispatch (Addr 16) 3 2 (SampleProtocol.mkState 1)
           _ _ (exec_run (env 4) _)).
Defined.

End SampleProtocolIOFacts.

(** ** sample_overflow.c: the unchecked variants *)

Section SampleOverflowMore.
Import SampleOverflow.

(** X15. [allocate_buffer] always calls [malloc], with the product
    reduced modulo [SIZE_MAX + 1]: the request equals [count * size]
    when the product fits [size_t] and is smaller than it when it does
    not. *)
Theorem allocate_buffer_requests_wrapped_product count size tr o :
  0 <= count <= SIZE_MAX -> 0 <= size <= SIZE_MAX ->
  exec (allocate_buffer count size tt) tr o ->
  exists n p,
    tr = [Ev (Malloc n) p] /\ o = Returns (p, tt)
    /\ 0 <= n <= SIZE_MAX
    /\ (count * size <= SIZE_MAX -> n = count * size)
    /\ (SIZE_MAX < count * size -> n < count * size).
Proof.
  intros Hc Hs H. cbn in H. destruct H as (p & tr' & -> & -> & ->).
  exists (size_mul count size), p. do 2 (split; [reflexivity |]).
  unfold size_mul, SIZE_MAX in *.
  pose proof (Z.mod_pos_bound (count * size) (2 ^ 64 - 1 + 1) ltac:(lia)).
  split; [lia |]. split.
  - intros Hfit. apply Z.mod_small. nia.
  - intros Hbig. lia.
Qed.

Lemma allocate_buffer_requests_wrapped_product_witness :
  exists n p,
    fst (run (env 0 0) (allocate_buffer (2 ^ 32) (2 ^ 32) tt))
    = [Ev (Malloc n) p]
    /\ snd (run (env 0 0) (allocate_buffer (2 ^ 32) (2 ^ 32) tt))
       = Returns (p, tt)
    /\ 0 <= n <= SIZE_MAX
    /\ (2 ^ 32 * 2 ^ 32 <= SIZE_MAX -> n = 2 ^ 32 * 2 ^ 32)
    /\ (SIZE_MAX < 2 ^ 32 * 2 ^ 32 -> n < 2 ^ 32 * 2 ^ 32).
Proof.
  apply (allocate_buffer_requests_wrapped_product (2 ^ 32) (2 ^ 32) _ _);
    [vm_compute; split; discriminate | vm_compute; split; discriminate |].
  apply (exec_run (env 0 0)).
Defined.

End SampleOverflowMore.

(** ** sample_overflow.c: [stat], then use the path again *)

Section SampleOverflowStatFacts.
Import SampleOverflowStat.

(** X16. [delete_if_regular] unlinks [path] by name, and only right
    after a [stat] of the same [path] that answered 0 and reported a
    regular file; [open_regular_file] opens [path] by name, and only
    right after a [stat] of the same [path] that did not fail and
    reported a regular file.  In every other run the [stat] is the only
    call and the result is -1. *)
Theorem stat_then_use_by_path path :
  (forall tr o, exec (delete_if_regular path tt) tr o ->
     (exists r m, (r <> 0 \/ SampleOverflow.S_ISREG m = false)
        /\ map path_of tr = [StatPath path r m] /\ o = Returns (-1, tt))
     \/ (exists m u, SampleOverflow.S_ISREG m = true
          /\ map path_of tr = [StatPath path 0 m; UnlinkPath path u]
          /\ o = Returns (u, tt)))
  /\ (forall tr o, exec (open_regular_file path tt) tr o ->
     (exists r m, (r < 0 \/ SampleOverflow.S_ISREG m = false)
        /\ map path_of tr = [StatPath path r m] /\ o = Returns (-1, tt))
     \/ (exists r m fd, 0 <= r /\ SampleOverflow.S_ISREG m = true
          /\ map path_of tr
             = [StatPath path r m;
                OpenPath path SampleOverflow.O_RDONLY fd]
          /\ o = Returns (fd, tt))).
Proof.
  split; intros tr o H.
  - unfold delete_if_regular, bindM in H. cbn [trigger bind exec] in H.
    destruct H as ([r m] & tr1 & -> & H).
    destruct (Z.eqb_spec r 0) as [-> | Hr];
      [destruct (SampleOverflow.S_ISREG m) eqn:Hreg |]; cbn in H.
    + destruct H as (u & tr2 & -> & -> & ->). right. exists m, u. auto.
    + destruct H as [-> ->]. left. exists 0, m. auto.
    + destruct H as [-> ->]. left. exists r, m. auto.
  - unfold open_regular_file, bindM in H. cbn [trigger bind exec] in H.
    destruct H as ([r m] & tr1 & -> & H).
    destruct (Z.ltb_spec r 0) as [Hr | Hr];
      [| destruct (SampleOverflow.S_ISREG m) eqn:Hreg]; cbn in H.
    + destruct H as [-> ->]. left. exists r, m. auto.
    + destruct H as (fd & tr2 & -> & -> & ->). right. exists r, m, fd. auto.
    + destruct H as [-> ->]. left. exists r, m. auto.
Qed.

Lemma stat_then_use_by_path_witness :
  (exists r m, (r <> 0 \/ SampleOverflow.S_ISREG m = false)
     /\ map path_of (fst (run (env 0 SampleOverflow.S_IFREG 0)
                            (delete_if_regular "old.log" tt)))
        = [StatPath "old.log" r m]
     /\ snd (run (env 0 SampleOverflow.S_IFREG 0)
               (delete_if_regular "old.log" tt)) = Returns (-1, tt))
  \/ (exists m u, SampleOverflow.S_ISREG m = true
       /\ map path_of (fst (run (env 0 SampleOverflow.S_IFREG 0)
                              (delete_if_regular "old.log" tt)))
          = [StatPath "old.log" 0 m; UnlinkPath "old.log" u]
       /\ snd (run (env 0 SampleOverflow.S_IFREG 0)
                 (delete_if_regular "old.log" tt)) = Returns (u, tt)).
Proof.
  apply (proj1 (stat_then_use_by_path "old.log") _ _
           (exec_run (env 0 SampleOverflow.S_IFREG 0) _)).
Defined.

End SampleOverflowStatFacts.

(** ** sample_overflow.c: [build_path] *)

Section BuildPathFacts.
Import SampleOverflow.

Lemma c_str_no_nul (l : list byte) :
  Forall (fun b => is_nul b = false) (c_str l).
Proof.
  induction l as [| b l IH]; simpl; [constructor |].
  destruct (is_nul b) eqn:Hb; [constructor | by constructor].
Qed.

Lemma c_str_of_no_nul (l : list byte) :
  Forall (fun b => is_nul b = false) l -> c_str l = l.
Proof.
  induction 1 as [| b l Hb _ IH]; simpl; [reflexivity |].
  by rewrite Hb, IH.
Qed.

Lemma strlen_is_length (l : list byte) :
  strlen l = Z.of_nat (length (c_str l)).
Proof.
  induction l as [| b l IH]; simpl; [reflexivity |].
  destruct (is_nul b); simpl; lia.
Qed.

(** The search of [strcat] stops at the terminator of the string in
    [dest]. *)
Lemma find_nul_from_spec (l : list byte) :
  Forall (fun b => is_nul b = false) l ->
  forall (i cap : Z) (rest : array),
    find_nul_from i cap ((Some <$> l) ++ Some x00 :: rest) tt
    = Ret (i + Z.of_nat (length l), tt).
Proof.
  induction 1 as [| b l Hb _ IH]; intros i cap rest; simpl.
  - by rewrite Z.add_0_r.
  - rewrite Hb, IH. do 2 f_equal. lia.
Qed.

(** [strcat] onto a string of [length l] bytes, when the result fits and
    when it does not. *)
Lemma strcat_fits (l src : list byte) (rest : array) :
  Forall (fun b => is_nul b = false) l ->
  Z.of_nat (length l) + strlen src
  < Z.of_nat (length ((Some <$> l) ++ Some x00 :: rest)) ->
  exists rest',
    strcat ((Some <$> l) ++ Some x00 :: rest) src tt
    = Ret ((Some <$> (l ++ c_str src)) ++ Some x00 :: rest', tt)
    /\ length ((Some <$> (l ++ c_str src)) ++ Some x00 :: rest')
       = length ((Some <$> l) ++ Some x00 :: rest).
Proof.
  intros Hl Hfit. unfold strcat, bindM.
  rewrite (find_nul_from_spec l Hl). cbn [bind]. rewrite Z.add_0_l.
  rewrite strcpy_from_fits by exact Hfit.
  rewrite take_app_length' by (symmetry; apply length_fmap).
  eexists. rewrite fmap_app, <- app_assoc. split; [reflexivity |].
  rewrite strlen_is_length in Hfit.
  rewrite !length_app, !length_fmap in *. cbn [length] in *.
  rewrite length_drop, length_app, length_fmap. cbn [length]. lia.
Qed.

Lemma strcat_overflows (l src : list byte) (rest : array) :
  Forall (fun b => is_nul b = false) l ->
  Z.of_nat (length ((Some <$> l) ++ Some x00 :: rest))
  <= Z.of_nat (length l) + strlen src ->
  strcat ((Some <$> l) ++ Some x00 :: rest) src tt
  = Undef (OutOfBounds (Z.of_nat (length ((Some <$> l) ++ Some x00 :: rest)))
             (Z.of_nat (length ((Some <$> l) ++ Some x00 :: rest)))).
Proof.
  intros Hl Hover. unfold strcat, bindM.
  rewrite (find_nul_from_spec l Hl). cbn [bind]. rewrite Z.add_0_l.
  apply strcpy_from_overflow; [| exact Hover].
  rewrite length_app, length_fmap. lia.
Qed.

(** [strcpy] into a fresh array, in the same shape. *)
Lemma strcpy_fits (n : nat) (src : list byte) :
  strlen src < Z.of_nat n ->
  exists rest,
    strcpy (local_array n) src tt
    = Ret ((Some <$> c_str src) ++ Some x00 :: rest, tt)
    /\ length ((Some <$> c_str src) ++ Some x00 :: rest) = n.
Proof.
  intros Hfit. unfold strcpy. change 0 with (Z.of_nat 0).
  rewrite strcpy_from_fits
    by (unfold local_array; rewrite length_replicate; lia).
  rewrite take_0, app_nil_l. eexists. split; [reflexivity |].
  rewrite strlen_is_length in Hfit.
  rewrite length_app, length_fmap. cbn [length].
  unfold local_array. rewrite length_drop, length_replicate. lia.
Qed.

(** X17. [build_path] fits [dir], a slash, [file] and the terminator
    into its 128-byte [path] exactly when
    [strlen(dir) + 1 + strlen(file) < 128]: then it prints the joined
    path; from 128 on, one of its three copies stores at index 128, past
    the end of the array. *)
Theorem build_path_bounds dir file :
  (strlen dir + 1 + strlen file < 128 ->
   exists path,
     build_path dir file tt
     = Vis (Printf (String.append "Path: %s" newline)
              [ArgStr (c_str dir ++ x2f :: c_str file)])
         (fun _ => Ret (path, tt)))
  /\ (128 <= strlen dir + 1 + strlen file ->
      build_path dir file tt = Undef (OutOfBounds 128 128)).
Proof.
  pose proof (strlen_nonneg dir) as Hd. pose proof (strlen_nonneg file) as Hf.
  assert (Forall (fun b => is_nul b = false) (c_str dir ++ [x2f])) as Hnf.
  { apply Forall_app. split; [apply c_str_no_nul | by repeat constructor]. }
  assert (length (c_str dir ++ [x2f]) = S (length (c_str dir))) as Hlen
    by (rewrite length_app; simpl; lia).
  split; intros Hsize; unfold build_path, bindM; cbv zeta.
  - destruct (strcpy_fits 128 dir ltac:(lia)) as (r1 & -> & L1). cbn [bind].
    destruct (strcat_fits (c_str dir) slash r1 (c_str_no_nul dir))
      as (r2 & -> & L2).
    { rewrite L1, <- strlen_is_length. change (strlen slash) with 1. lia. }
    cbn [bind]. change (c_str slash) with [x2f] in *.
    destruct (strcat_fits (c_str dir ++ [x2f]) file r2 Hnf) as (r3 & -> & L3).
    { rewrite L2, L1, Hlen. pose proof (strlen_is_length dir). lia. }
    cbn [bind]. unfold load_str. rewrite load_str_from_spec. cbn [bind trigger].
    rewrite c_str_of_no_nul
      by (apply Forall_app; split; [exact Hnf | apply c_str_no_nul]).
    rewrite <- app_assoc. eexists. reflexivity.
  - destruct (Z.le_gt_cases 128 (strlen dir)) as [Hdir | Hdir].
    { unfold strcpy. change 0 with (Z.of_nat 0) at 1.
      rewrite strcpy_from_overflow; [reflexivity | cbn; lia | cbn; lia]. }
    destruct (strcpy_fits 128 dir ltac:(lia)) as (r1 & -> & L1). cbn [bind].
    destruct (Z.le_gt_cases 128 (strlen dir + 1)) as [Hslash | Hslash].
    { rewrite strcat_overflows;
        [by rewrite L1 | apply c_str_no_nul |].
      rewrite L1, <- strlen_is_length. change (strlen slash) with 1. lia. }
    destruct (strcat_fits (c_str dir) slash r1 (c_str_no_nul dir))
      as (r2 & -> & L2).
    { rewrite L1, <- strlen_is_length. change (strlen slash) with 1. lia. }
    cbn [bind]. change (c_str slash) with [x2f] in *.
    rewrite strcat_overflows; [by rewrite L2, L1 | exact Hnf |].
    rewrite L2, L1, Hlen. pose proof (strlen_is_length dir). lia.
Qed.

Lemma build_path_bounds_witness :
  (exists path,
     build_path [x75; x73; x72] [x62; x69; x6e] tt
     = Vis (Printf (String.append "Path: %s" newline)
              [ArgStr (c_str [x75; x73; x72] ++ x2f :: c_str [x62; x69; x6e])])
         (fun _ => Ret (path, tt)))
  /\ build_path (repeat x41 100) (repeat x42 27) tt
     = Undef (OutOfBounds 128 128).
Proof.
  split.
  - apply (proj1 (build_path_bounds [x75; x73; x72] [x62; x69; x6e])).
    vm_compute. reflexivity.
  - apply (proj2 (build_path_bounds (repeat x41 100) (repeat x42 27))).
    vm_compute. discriminate.
Defined.

End BuildPathFacts.

(** ** storage_module.c: allocating and writing entries *)

Section StorageApiFacts.
Import StorageModule StorageApi.

Lemma c_str_pad (n : nat) :
  forall k : list byte,
    SampleOverflow.c_str (SampleOverflow.pad n k ++ [x00])
    = take n (SampleOverflow.c_str k).
Proof.
  induction n as [| n IH]; intros k; [by destruct (SampleOverflow.c_str k) |].
  destruct k as [| b k]; simpl; [reflexivity |].
  destruct (is_nul b) eqn:Hb; simpl; [reflexivity |].
  by rewrite Hb, IH.
Qed.

(** The key array of a new entry: [MAX_KEY_LEN] bytes ending in NUL that
    hold the first 255 bytes of the given key. *)
Lemma copied_key_spec (k : list byte) :
  Z.of_nat (length (copied_key k)) = MAX_KEY_LEN
  /\ In x00 (copied_key k)
  /\ SampleOverflow.c_str (copied_key k)
     = take 255 (SampleOverflow.c_str k).
Proof.
  unfold copied_key. change (Z.to_nat (MAX_KEY_LEN - 1)) with 255%nat.
  split; [| split].
  - by rewrite length_app, length_pad.
  - apply in_or_app. right. by left.
  - apply c_str_pad.
Qed.

(** X18. The runs of [alloc_entry] for a non-null [key]: the first
    [malloc] fails and [NULL] is returned; or the second fails and
    [NULL] is returned while the block from the first is never given to
    [free] (it is lost); or both succeed and the new block is returned,
    holding the key copied into a NUL-terminated array of [MAX_KEY_LEN]
    bytes (the first 255 bytes of [key]), the data pointer, [size] and a
    reference count of 1.  Nothing else in the store changes. *)
Theorem alloc_entry_outcomes k size s tr o :
  exec (alloc_entry (Some k) size s) tr o ->
  (mallocs tr = [(sizeof_block_entry_t, NULL)] /\ frees tr = []
   /\ o = Returns (NULL, s))
  \/ (exists a,
       mallocs tr = [(sizeof_block_entry_t, Addr a); (size, NULL)]
       /\ frees tr = [] /\ o = Returns (NULL, s))
  \/ (exists a d e,
       mallocs tr = [(sizeof_block_entry_t, Addr a); (size, Addr d)]
       /\ frees tr = []
       /\ lock_ops tr = []
       /\ o = Returns (Addr a, mkState (pools s) (<[a := e]> (blocks s)))
       /\ data e = Addr d /\ StorageModule.size e = size /\ ref_count e = 1
       /\ Z.of_nat (length (key e)) = MAX_KEY_LEN
       /\ In x00 (key e)
       /\ SampleOverflow.c_str (key e) = take 255 (SampleOverflow.c_str k)).
Proof.
  intros H. unfold alloc_entry, bindM in H. cbn [trigger bind exec] in H.
  destruct H as (entry & tr1 & -> & H).
  destruct entry as [| a]; cbn [is_null] in H.
  { cbn in H. destruct H as [-> ->]. left. auto. }
  cbn [trigger bind exec] in H. destruct H as (d & tr2 & -> & H).
  destruct d as [| d]; cbn [is_null] in H.
  { cbn in H. destruct H as [-> ->]. right. left. exists a. auto. }
  cbn in H. destruct H as ([] & tr3 & -> & -> & ->).
  right. right. exists a, d, (mkEntry (copied_key k) (Addr d) size 1).
  destruct (copied_key_spec k) as (Hlen & Hnul & Hstr).
  cbn. auto 12.
Qed.

Lemma alloc_entry_outcomes_witness :
  (mallocs (fst (run (env (Addr 20) NULL)
                   (alloc_entry (Some [x41; x00]) 8 one_entry_store)))
   = [(sizeof_block_entry_t, NULL)]
   /\ frees (fst (run (env (Addr 20) NULL)
                    (alloc_entry (Some [x41; x00]) 8 one_entry_store))) = []
   /\ snd (run (env (Addr 20) NULL)
             (alloc_entry (Some [x41; x00]) 8 one_entry_store))
      = Returns (NULL, one_entry_store))
  \/ (exists a,
       mallocs (fst (run (env (Addr 20) NULL)
                       (alloc_entry (Some [x41; x00]) 8 one_entry_store)))
       = [(sizeof_block_entry_t, Addr a); (8, NULL)]
       /\ frees (fst (run (env (Addr 20) NULL)
                        (alloc_entry (Some [x41; x00]) 8 one_entry_store)))
          = []
       /\ snd (run (env (Addr 20) NULL)
                 (alloc_entry (Some [x41; x00]) 8 one_entry_store))
          = Returns (NULL, one_entry_store))
  \/ (exists a d e,
       mallocs (fst (run (env (Addr 20) NULL)
                       (alloc_entry (Some [x41; x00]) 8 one_entry_store)))
       = [(sizeof_block_entry_t, Addr a); (8, Addr d)]
       /\ frees (fst (run (env (Addr 20) NULL)
                        (alloc_entry (Some [x41; x00]) 8 one_entry_store)))
          = []
       /\ lock_ops (fst (run (env (Addr 20) NULL)
                           (alloc_entry (Some [x41; x00]) 8 one_entry_store)))
          = []
       /\ snd (run (env (Addr 20) NULL)
                 (alloc_entry (Some [x41; x00]) 8 one_entry_store))
          = Returns (Addr a,
                     mkState (pools one_entry_store)
                       (<[a := e]> (blocks one_entry_store)))
       /\ data e = Addr d /\ StorageModule.size e = 8 /\ ref_count e = 1
       /\ Z.of_nat (length (key e)) = MAX_KEY_LEN
       /\ In x00 (key e)
       /\ SampleOverflow.c_str (key e)
          = take 255 (SampleOverflow.c_str [x41; x00])).
Proof.
  apply (alloc_entry_outcomes [x41; x00] 8 one_entry_store _ _
           (exec_run (env (Addr 20) NULL) _)).
Defined.

(** *** Calls into the pool layer *)

Lemma exec_pool_call {R} (m : StorageModule.C R) s tr o :
  exec (pool_call m s) tr o ->
  exists tr0, exec (m s) tr0 o /\ tr = map (translate_event (@Pool)) tr0.
Proof. apply exec_translate. Qed.

Lemma lock_ops_pool (tr0 : list (event StorageModule.ext)) :
  lock_ops (map (translate_event (@Pool)) tr0) = StorageModule.lock_ops tr0.
Proof.
  induction tr0 as [| [X e x] tr0 IH]; [reflexivity |].
  unfold lock_ops, StorageModule.lock_ops in *.
  cbn [map omap list_omap]. rewrite IH. by destruct e.
Qed.

Lemma mallocs_pool (tr0 : list (event StorageModule.ext)) :
  mallocs (map (translate_event (@Pool)) tr0) = [].
Proof.
  induction tr0 as [| [X e x] tr0 IH]; [reflexivity |].
  unfold mallocs in *. cbn [map omap list_omap]. by rewrite IH.
Qed.

Lemma frees_pool (tr0 : list (event StorageModule.ext)) :
  frees (map (translate_event (@Pool)) tr0) = [].
Proof.
  induction tr0 as [| [X e x] tr0 IH]; [reflexivity |].
  unfold frees in *. cbn [map omap list_omap]. by rewrite IH.
Qed.

Lemma lock_ops_app (tr1 tr2 : list (event ext)) :
  lock_ops (tr1 ++ tr2) = lock_ops tr1 ++ lock_ops tr2.
Proof. apply omap_app. Qed.

Lemma mallocs_app (tr1 tr2 : list (event ext)) :
  mallocs (tr1 ++ tr2) = mallocs tr1 ++ mallocs tr2.
Proof. apply omap_app. Qed.

Lemma frees_app (tr1 tr2 : list (event ext)) :
  frees (tr1 ++ tr2) = frees tr1 ++ frees tr2.
Proof. apply omap_app. Qed.

(** *** Validation *)

Lemma validate_key_run (k : list byte) (s : state) :
  In x00 k ->
  validate_key (Some k) s
  = Ret (if Z.of_nat (length (SampleOverflow.c_str k)) =? 0 then - EINVAL
         else if Z.of_nat (length (SampleOverflow.c_str k)) >=? MAX_KEY_LEN
              then - ENAMETOOLONG
              else 0, s).
Proof.
  intros Hin. unfold validate_key, bindM.
  rewrite (strlen_terminated _ _ Hin). cbn [bind].
  destruct (_ =? 0); [reflexivity |]. by destruct (_ >=? _).
Qed.

(** X19. [storage_write] checks its input before it does anything: a
    null key, an empty key, a key of [MAX_KEY_LEN] bytes or more, a
    [size] of 0 or one above [MAX_BLOCK_SIZE] are answered with
    [-EINVAL], [-ENAMETOOLONG], [-EINVAL] and [-EFBIG], without a call
    and with the store untouched. *)
Theorem storage_write_rejects_invalid_input pool data size s :
  storage_write pool None data size s = Ret (- EINVAL, s)
  /\ (forall k, In x00 k ->
       let n := Z.of_nat (length (SampleOverflow.c_str k)) in
       (n = 0 -> storage_write pool (Some k) data size s = Ret (- EINVAL, s))
       /\ (MAX_KEY_LEN <= n ->
           storage_write pool (Some k) data size s
           = Ret (- ENAMETOOLONG, s))
       /\ (0 < n < MAX_KEY_LEN -> size = 0 ->
           storage_write pool (Some k) data size s = Ret (- EINVAL, s))
       /\ (0 < n < MAX_KEY_LEN -> MAX_BLOCK_SIZE < size ->
           storage_write pool (Some k) data size s = Ret (- EFBIG, s))).
Proof.
  split; [reflexivity |]. intros k Hin n.
  unfold MAX_KEY_LEN, MAX_BLOCK_SIZE in *.
  repeat split; intros;
    unfold storage_write; unfold bindM at 1; unfold pool_call at 1, liftM;
    rewrite (validate_key_run _ _ Hin); fold n; cbn [translate bind];
    unfold MAX_KEY_LEN;
    destruct (Z.eqb_spec n 0); try lia; try reflexivity;
    destruct (Z.geb_spec n 256); try lia; try reflexivity;
    cbn [Z.ltb Z.compare]; unfold bindM at 1; unfold pool_call at 1, liftM;
    unfold validate_size, MAX_BLOCK_SIZE.
  - subst size. reflexivity.
  - destruct (Z.eqb_spec size 0); [lia |].
    destruct (Z.gtb_spec size (4 * 1024 * 1024)); [reflexivity | lia].
Qed.

Lemma storage_write_rejects_invalid_input_witness :
  storage_write (Addr 1) (Some [x00]) NULL 8 one_entry_store
  = Ret (- EINVAL, one_entry_store)
  /\ storage_write (Addr 1) (Some [x41; x00]) NULL 0 one_entry_store
     = Ret (- EINVAL, one_entry_store)
  /\ storage_write (Addr 1) (Some [x41; x00]) NULL (MAX_BLOCK_SIZE + 1)
       one_entry_store
     = Ret (- EFBIG, one_entry_store).
Proof.
  destruct (storage_write_rejects_invalid_input (Addr 1) NULL 8 one_entry_store)
    as [_ H8].
  destruct (storage_write_rejects_invalid_input (Addr 1) NULL 0 one_entry_store)
    as [_ H0].
  destruct (storage_write_rejects_invalid_input (Addr 1) NULL
              (MAX_BLOCK_SIZE + 1) one_entry_store) as [_ Hbig].
  destruct (H8 [x00] ltac:(simpl; auto)) as (E1 & _).
  destruct (H0 [x41; x00] ltac:(simpl; auto)) as (_ & _ & E3 & _).
  destruct (Hbig [x41; x00] ltac:(simpl; auto)) as (_ & _ & _ & E4).
  split; [| split].
  - apply E1. reflexivity.
  - apply E3; [vm_compute; auto | reflexivity].
  - apply E4; [vm_compute; auto | lia].
Defined.

(** *** The retry loop *)

(** The pool layer calls nothing that answers: its runs are fixed by the
    store. *)
Lemma pool_layer_deterministic {A} (p : prog StorageModule.ext A) :
  forall tr o tr' o',
    exec p tr o -> exec p tr' o' -> tr = tr' /\ o = o'.
Proof.
  induction p as [r | X e k IH | u |]; simpl; intros tr o tr' o' H H'.
  - destruct H as [-> ->], H' as [-> ->]. auto.
  - destruct H as (x & tr1 & -> & H), H' as (x' & tr1' & -> & H').
    destruct e; destruct x, x'.
    + destruct (IH _ _ _ _ _ H H') as [-> ->]. auto.
    + destruct (IH _ _ _ _ _ H H') as [-> ->]. auto.
  - destruct H as [-> ->], H' as [-> ->]. auto.
  - destruct H as [-> ->], H' as [-> ->]. auto.
Qed.

(** [free_entry] on a live entry with data: both blocks are given back
    and the entry leaves the store. *)
Lemma free_entry_live a e d s tr o :
  blocks s !! a = Some e -> data e = Addr d ->
  exec (free_entry (Addr a) s) tr o ->
  o = Returns (tt, mkState (pools s) (delete a (blocks s)))
  /\ frees tr = [Addr d; Addr a] /\ mallocs tr = [] /\ lock_ops tr = [].
Proof.
  intros Ha Hd H. unfold free_entry in H. cbn [is_null] in H.
  unfold bindM at 1 in H. unfold pool_call, liftM in H.
  cbn [load_entry] in H. rewrite Ha in H. cbn [translate bind] in H.
  rewrite Hd in H. cbn in H.
  destruct H as ([] & tr1 & -> & [] & tr2 & -> & [] & tr3 & -> & -> & ->).
  cbn. rewrite delete_insert_eq. auto.
Qed.

(** One turn of the retry loop of [storage_write], from a store in which
    the new entry is live. *)
Lemma retry_turn pool a e d s1 tr o :
  blocks s1 !! a = Some e -> data e = Addr d ->
  exec ((r <- pool_call (pool_insert pool (Addr a)) ;;
         if r =? 0 then
           ret (Some 0)
         else if r =? - EEXIST then
           free_entry (Addr a) ;;
           ret (Some (- EEXIST))
         else
           ret None) s1) tr o ->
  exists tr0 o0,
    exec (pool_insert pool (Addr a) s1) tr0 o0
    /\ lock_ops tr = StorageModule.lock_ops tr0
    /\ mallocs tr = []
    /\ ((exists s2, o0 = Returns (0, s2) /\ o = Returns (Some 0, s2)
                    /\ frees tr = [])
        \/ (o0 = Returns (- EEXIST, s1)
            /\ o = Returns (Some (- EEXIST),
                            mkState (pools s1) (delete a (blocks s1)))
            /\ frees tr = [Addr d; Addr a])
        \/ (exists r, r <> 0 /\ r <> - EEXIST /\ o0 = Returns (r, s1)
                      /\ o = Returns (None, s1) /\ frees tr = [])
        \/ ((exists u, o0 = Faults u /\ o = Faults u)
            \/ (o0 = Unfinished /\ o = Unfinished))).
Proof.
  intros Ha Hd H. unfold bindM at 1 in H. apply exec_bind in H.
  destruct H as [(rs & tr1 & tr2 & H1 & H2 & ->) | [(u & H1 & ->) | [H1 ->]]].
  - destruct rs as [r s2]. apply exec_pool_call in H1.
    destruct H1 as (tr0 & H0 & ->). exists tr0, (Returns (r, s2)).
    split; [exact H0 |].
    rewrite lock_ops_app, mallocs_app, frees_app.
    rewrite lock_ops_pool, mallocs_pool, frees_pool.
    destruct (pool_insert_cases _ _ _ _ _ _ H0)
      as [(-> & -> & _) | [(-> & -> & _) | [(-> & -> & _) | (-> & _)]]].
    + cbn in H2. destruct H2 as [-> ->]. rewrite app_nil_r.
      do 2 (split; [reflexivity |]). right. right. left.
      exists (- EINVAL). repeat split; discriminate.
    + cbn in H2. destruct H2 as [-> ->]. rewrite app_nil_r.
      do 2 (split; [reflexivity |]). right. right. left.
      exists (- ENOSPC). repeat split; discriminate.
    + change (- EEXIST =? 0) with false in H2.
      change (- EEXIST =? - EEXIST) with true in H2. cbn iota in H2.
      unfold bindM at 1 in H2. apply exec_bind in H2.
      destruct H2 as [(us & tr3 & tr4 & H3 & H4 & ->) | [(u & H3 & _) | [H3 _]]].
      * destruct (free_entry_live _ _ _ _ _ _ Ha Hd H3) as ([= ->] & Hf & Hm & Hl).
        cbn in H4. destruct H4 as [-> ->]. rewrite app_nil_r, Hf, Hm, Hl.
        rewrite app_nil_r. do 2 (split; [reflexivity |]). right. left. auto.
      * destruct (free_entry_live _ _ _ _ _ _ Ha Hd H3) as ([=] & _).
      * destruct (free_entry_live _ _ _ _ _ _ Ha Hd H3) as ([=] & _).
    + cbn in H2. destruct H2 as [-> ->]. rewrite app_nil_r.
      do 2 (split; [reflexivity |]). left. eauto.
  - apply exec_pool_call in H1. destruct H1 as (tr0 & H0 & ->).
    exists tr0, (Faults u). split; [exact H0 |].
    rewrite lock_ops_pool, mallocs_pool. do 2 (split; [reflexivity |]).
    right. right. right. left. eauto.
  - apply exec_pool_call in H1. destruct H1 as (tr0 & H0 & ->).
    exists tr0, Unfinished. split; [exact H0 |].
    rewrite lock_ops_pool, mallocs_pool. do 2 (split; [reflexivity |]).
    right. right. right. right. auto.
Qed.

(** The whole retry loop: every turn sees the same store, so the first
    turn decides. *)
Lemma retry_loop pool a e d s1 :
  blocks s1 !! a = Some e -> data e = Addr d ->
  forall n i tr o,
    exec (for_upto (S n) i (fun retries : Z =>
            r <- pool_call (pool_insert pool (Addr a)) ;;
            if r =? 0 then
              ret (Some 0)
            else if r =? - EEXIST then
              free_entry (Addr a) ;;
              ret (Some (- EEXIST))
            else
              ret None) s1) tr o ->
    exists tr0 o0,
      exec (pool_insert pool (Addr a) s1) tr0 o0
      /\ mallocs tr = []
      /\ ((exists s2, o0 = Returns (0, s2) /\ o = Returns (Some 0, s2)
                      /\ frees tr = []
                      /\ lock_ops tr = StorageModule.lock_ops tr0)
          \/ (o0 = Returns (- EEXIST, s1)
              /\ o = Returns (Some (- EEXIST),
                              mkState (pools s1) (delete a (blocks s1)))
              /\ frees tr = [Addr d; Addr a]
              /\ lock_ops tr = StorageModule.lock_ops tr0)
          \/ (exists r, r <> 0 /\ r <> - EEXIST /\ o0 = Returns (r, s1)
                /\ o = Returns (None, s1) /\ frees tr = []
                /\ lock_ops tr
                   = concat (replicate (S n) (StorageModule.lock_ops tr0)))
          \/ (forall x, o <> Returns x)).
Proof.
  intros Ha Hd. induction n as [| n IH]; intros i tr o H.
  - cbn [for_upto] in H. apply exec_bind in H.
    destruct H as [(rs & tr1 & tr2 & H1 & H2 & ->) | [(u & H1 & ->) | [H1 ->]]].
    + destruct (retry_turn _ _ _ _ _ _ _ Ha Hd H1)
        as (tr0 & o0 & H0 & Hl & Hm & Hcase).
      exists tr0, o0. split; [exact H0 |].
      rewrite mallocs_app, frees_app, lock_ops_app, Hm, Hl.
      destruct Hcase as [(s2 & -> & [= ->] & Hf) | [(-> & [= ->] & Hf)
                        | [(r & Hr0 & Hr1 & -> & [= ->] & Hf) | [(u & _ & [=]) | (_ & [=])]]]];
        cbn in H2; destruct H2 as [-> ->]; rewrite Hf; cbn;
        rewrite ?app_nil_r; (split; [reflexivity |]).
      * left. eauto.
      * right. left. auto.
      * right. right. left. exists r. auto 10.
    + destruct (retry_turn _ _ _ _ _ _ _ Ha Hd H1)
        as (tr0 & o0 & H0 & Hl & Hm & Hcase).
      exists tr0, o0. split; [exact H0 |]. split; [exact Hm |].
      right. right. right. discriminate.
    + destruct (retry_turn _ _ _ _ _ _ _ Ha Hd H1)
        as (tr0 & o0 & H0 & Hl & Hm & Hcase).
      exists tr0, o0. split; [exact H0 |]. split; [exact Hm |].
      right. right. right. discriminate.
  - cbn [for_upto] in H. apply exec_bind in H.
    destruct H as [(rs & tr1 & tr2 & H1 & H2 & ->) | [(u & H1 & ->) | [H1 ->]]].
    + destruct (retry_turn _ _ _ _ _ _ _ Ha Hd H1)
        as (tr0 & o0 & H0 & Hl & Hm & Hcase).
      exists tr0, o0. split; [exact H0 |].
      rewrite mallocs_app, frees_app, lock_ops_app, Hm, Hl.
      destruct Hcase as [(s2 & -> & [= ->] & Hf) | [(-> & [= ->] & Hf)
                        | [(r & Hr0 & Hr1 & -> & [= ->] & Hf) | [(u & _ & [=]) | (_ & [=])]]]].
      * cbn in H2. destruct H2 as [-> ->]. rewrite Hf. cbn.
        rewrite ?app_nil_r. split; [reflexivity |]. left. eauto.
      * cbn in H2. destruct H2 as [-> ->]. rewrite Hf. cbn.
        rewrite ?app_nil_r. split; [reflexivity |]. right. left. auto.
      * cbn beta iota in H2.
        destruct (IH _ _ _ H2) as (tr0' & o0' & H0' & Hm' & Hcase').
        destruct (pool_layer_deterministic _ _ _ _ _ H0 H0') as [<- <-].
        rewrite Hm', Hf. split; [reflexivity |].
        destruct Hcase' as [(s2 & [= Hr _] & _) | [([= Hr] & _)
                           | [(r' & _ & _ & [= <-] & -> & Hf' & Hl') | Hno]]].
        -- congruence.
        -- congruence.
        -- right. right. left. exists r. rewrite Hf', Hl'.
           repeat split; assumption.
        -- right. right. right. exact Hno.
    + destruct (retry_turn _ _ _ _ _ _ _ Ha Hd H1)
        as (tr0 & o0 & H0 & Hl & Hm & Hcase).
      exists tr0, o0. split; [exact H0 |]. split; [exact Hm |].
      right. right. right. discriminate.
    + destruct (retry_turn _ _ _ _ _ _ _ Ha Hd H1)
        as (tr0 & o0 & H0 & Hl & Hm & Hcase).
      exists tr0, o0. split; [exact H0 |]. split; [exact Hm |].
      right. right. right. discriminate.
Qed.

(** *** [storage_write] on valid input *)

(** The runs of [storage_write] that return, for a key and a size that
    pass validation: the entry that was allocated, and what the first
    [pool_insert] on the store that holds it did. *)
Lemma storage_write_cases pool k data size s tr r s' :
  In x00 k ->
  0 < Z.of_nat (length (SampleOverflow.c_str k)) < MAX_KEY_LEN ->
  0 < size <= MAX_BLOCK_SIZE ->
  exec (storage_write pool (Some k) data size s) tr (Returns (r, s')) ->
  (r = - ENOMEM /\ s' = s /\ lock_ops tr = [] /\ frees tr = []
   /\ (mallocs tr = [(sizeof_block_entry_t, NULL)]
       \/ exists a, mallocs tr = [(sizeof_block_entry_t, Addr a);
                                  (size, NULL)]))
  \/ exists a d tr0,
       mallocs tr = [(sizeof_block_entry_t, Addr a); (size, Addr d)]
       /\ ((r = 0
            /\ exec (pool_insert pool (Addr a)
                       (mkState (pools s)
                          (<[a := mkEntry (copied_key k) (Addr d) size 1]>
                             (blocks s))))
                 tr0 (Returns (0, s'))
            /\ frees tr = []
            /\ lock_ops tr = StorageModule.lock_ops tr0)
           \/ (r = - EEXIST
               /\ exec (pool_insert pool (Addr a)
                          (mkState (pools s)
                             (<[a := mkEntry (copied_key k) (Addr d) size 1]>
                                (blocks s))))
                    tr0 (Returns (- EEXIST,
                           mkState (pools s)
                             (<[a := mkEntry (copied_key k) (Addr d) size 1]>
                                (blocks s))))
               /\ s' = mkState (pools s) (delete a (blocks s))
               /\ frees tr = [Addr d; Addr a]
               /\ lock_ops tr = StorageModule.lock_ops tr0)
           \/ (r = - EIO
               /\ (exists r0, r0 <> 0 /\ r0 <> - EEXIST
                    /\ exec (pool_insert pool (Addr a)
                               (mkState (pools s)
                                  (<[a := mkEntry (copied_key k) (Addr d) size 1]>
                                     (blocks s))))
                         tr0 (Returns (r0,
                                mkState (pools s)
                                  (<[a := mkEntry (copied_key k) (Addr d) size 1]>
                                     (blocks s)))))
               /\ s' = mkState (pools s) (delete a (blocks s))
               /\ frees tr = [Addr d; Addr a]
               /\ lock_ops tr
                  = StorageModule.lock_ops tr0 ++ StorageModule.lock_ops tr0
                    ++ StorageModule.lock_ops tr0)).
Proof.
  intros Hin Hn Hsize H. unfold storage_write in H.
  unfold bindM at 1 in H. unfold pool_call at 1, liftM in H.
  rewrite (validate_key_run _ _ Hin) in H. cbn [translate bind] in H.
  unfold MAX_KEY_LEN, MAX_BLOCK_SIZE in *.
  destruct (Z.eqb_spec (Z.of_nat (length (SampleOverflow.c_str k))) 0);
    [lia |].
  destruct (Z.geb_spec (Z.of_nat (length (SampleOverflow.c_str k))) 256);
    [lia |].
  cbn [Z.ltb Z.compare] in H.
  unfold bindM at 1 in H. unfold pool_call at 1, liftM in H.
  unfold validate_size, MAX_BLOCK_SIZE in H.
  destruct (Z.eqb_spec size 0); [lia |].
  destruct (Z.gtb_spec size (4 * 1024 * 1024)); [lia |].
  cbn [ret translate bind Z.ltb Z.compare] in H.
  unfold bindM at 1 in H. unfold alloc_entry at 1 in H.
  unfold bindM at 1 in H. cbn [trigger bind exec] in H.
  destruct H as (entry & tr1 & -> & H).
  destruct entry as [| a]; cbn [is_null] in H.
  { cbn in H. destruct H as [-> [= <- <-]]. left. cbn. auto 10. }
  unfold bindM at 1 in H. cbn [trigger bind exec] in H.
  destruct H as (dp & tr2 & -> & H).
  destruct dp as [| d]; cbn [is_null] in H.
  { cbn in H. destruct H as [-> [= <- <-]]. left. cbn.
    repeat split; eauto. }
  unfold bindM at 1 2 in H.
  cbn [store_entry modify trigger bind exec] in H.
  destruct H as ([] & tr3 & -> & H).
  cbn [ret bind is_null] in H.
  set (e := mkEntry (copied_key k) (Addr d) size 1) in *.
  set (s1 := mkState (pools s) (<[a := e]> (blocks s))) in *.
  assert (blocks s1 !! a = Some e) as Ha by apply lookup_insert_eq.
  unfold bindM at 1 in H. unfold pool_call at 1, liftM in H.
  cbn [load_entry] in H. rewrite Ha in H. cbn [translate bind] in H.
  unfold bindM at 1 in H. cbn [trigger bind exec] in H.
  destruct H as ([] & tr4 & -> & H).
  unfold bindM at 1 in H. change (Z.to_nat MAX_RETRIES) with 3%nat in H.
  apply exec_bind in H.
  destruct H as [(ds & trl & trt & Hloop & H & ->) | [(u & _ & [=]) | (_ & [=])]].
  destruct ds as [done s2].
  destruct (retry_loop pool a e d s1 Ha eq_refl _ _ _ _ Hloop)
    as (tr0 & o0 & Hins & Hm & Hcase).
  right. exists a, d, tr0.
  assert (forall tl, mallocs (Ev (Malloc sizeof_block_entry_t) (Addr a)
                       :: Ev (Malloc size) (Addr d)
                       :: Ev (MutexInit (entry_lock (Addr a))) tt
                       :: Ev (Memcpy (StorageModule.data e) data size) tt :: tl)
                     = (sizeof_block_entry_t, Addr a) :: (size, Addr d)
                       :: mallocs tl) as Emal by reflexivity.
  assert (forall tl, frees (Ev (Malloc sizeof_block_entry_t) (Addr a)
                       :: Ev (Malloc size) (Addr d)
                       :: Ev (MutexInit (entry_lock (Addr a))) tt
                       :: Ev (Memcpy (StorageModule.data e) data size) tt :: tl)
                     = frees tl) as Efree by reflexivity.
  assert (forall tl, lock_ops (Ev (Malloc sizeof_block_entry_t) (Addr a)
                       :: Ev (Malloc size) (Addr d)
                       :: Ev (MutexInit (entry_lock (Addr a))) tt
                       :: Ev (Memcpy (StorageModule.data e) data size) tt :: tl)
                     = lock_ops tl) as Elock by reflexivity.
  rewrite Emal, Efree, Elock, mallocs_app, frees_app, lock_ops_app, Hm.
  destruct Hcase as [(s3 & -> & [= -> ->] & Hf & Hl) | [(-> & [= -> ->] & Hf & Hl)
                    | [(r0 & Hr0 & Hr1 & -> & [= -> ->] & Hf & Hl) | Hno]]].
  - cbn in H. destruct H as [-> [= Hr Hs]]; subst r s'. rewrite Hf, Hl. cbn.
    rewrite ?app_nil_r. split; [reflexivity |]. left. auto.
  - cbn in H. destruct H as [-> [= Hr Hs]]; subst r s'. rewrite Hf, Hl. cbn.
    rewrite ?app_nil_r. split; [reflexivity |]. right. left.
    subst s1. cbn. rewrite delete_insert_eq. auto.
  - unfold bindM at 1 in H. apply exec_bind in H.
    destruct H as [(us & trf & trr & Hfree & H & ->) | [(u & _ & [=]) | (_ & [=])]].
    destruct (free_entry_live _ _ _ _ _ _ Ha eq_refl Hfree)
      as ([= ->] & Hff & Hfm & Hfl).
    cbn in H. destruct H as [-> [= Hr Hs]]; subst r s'.
    rewrite mallocs_app, frees_app, lock_ops_app, Hf, Hl, Hff, Hfm, Hfl. cbn.
    rewrite ?app_nil_r. split; [reflexivity |]. right. right.
    split; [reflexivity |]. split; [eauto |].
    subst s1. cbn. rewrite delete_insert_eq. auto.
  - exfalso. eapply Hno. reflexivity.
Qed.


(** [strcmp] reads its second argument up to the first NUL only. *)
Lemma strcmp_same_string (x : list byte) :
  forall (b b' : list byte) (s s' : state) (c : Z),
    In x00 b -> In x00 b' ->
    SampleOverflow.c_str b = SampleOverflow.c_str b' ->
    strcmp x b s = Ret (c, s) -> strcmp x b' s' = Ret (c, s').
Proof.
  induction x as [| cx x IH]; intros [| cb b] [| cb' b'] s s' c Hb Hb' Heq;
    simpl in *; try tauto; try discriminate.
  assert (cb = cb' /\ (is_nul cb = false ->
            SampleOverflow.c_str b = SampleOverflow.c_str b'
            /\ In x00 b /\ In x00 b')) as [<- Hrest].
  { destruct (is_nul cb) eqn:Hn, (is_nul cb') eqn:Hn'; try discriminate.
    - apply is_nul_true in Hn, Hn'. split; [congruence | discriminate].
    - injection Heq as <- Heq. split; [reflexivity |]. intros _.
      split; [exact Heq |].
      split; [destruct Hb as [-> | Hb] | destruct Hb' as [-> | Hb']];
        try assumption; discriminate. }
  destruct (Byte.eqb cx cb) eqn:Hx; simpl; [| by intros [= ->]].
  apply Byte.byte_dec_bl in Hx as <-.
  destruct (is_nul cx) eqn:Hn; [by intros [= ->] |].
  destruct (Hrest eq_refl) as (Hs & Hi & Hi'). by apply IH.
Qed.

(** Insert an entry, then look up a key that spells the same string as
    the entry's key: the lookup answers the entry. *)
Lemma lookup_after_insert pool m mine k s tr s' tr' o :
  exec (pool_insert pool (Addr m) s) tr (Returns (0, s')) ->
  blocks s !! m = Some mine -> In x00 (key mine) -> In x00 k ->
  SampleOverflow.c_str (key mine) = SampleOverflow.c_str k ->
  exec (pool_lookup pool (Some k) s') tr' o ->
  o = Returns (Addr m, s')
  /\ StorageModule.lock_ops tr'
     = [Acquire (pool_lock pool); Release (pool_lock pool)].
Proof.
  intros Hins Hm Hnul Hk Hstr H.
  destruct (pool_insert_cases _ _ _ _ _ _ Hins)
    as [([=] & _) | [([=] & _) | [([=] & _) | (_ & _ & a & p & -> & Hp & _)]]].
  destruct (pool_insert_outcomes _ _ _ _ _ _ _ Hp Hins)
    as [([=] & _) | [([=] & _) | [([=] & _) | (_ & Hcount & Hlen & -> & Hall)]]].
  set (p' := mkPool (<[Z.to_nat (count p) := Addr m]> (entries p)) (count p + 1))
    in *.
  set (s' := mkState (<[a := p']> (pools s)) (blocks s)) in *.
  assert (pools s' !! a = Some p') as Hp' by apply lookup_insert_eq.
  unfold pool_lookup in H. cbn [is_null] in H.
  unfold bindM at 1 in H. cbn [pthread_mutex_lock trigger bind exec] in H.
  destruct H as ([] & tr1 & -> & H).
  unfold bindM at 1 in H.
  rewrite (load_pool_valid _ _ _ Hp') in H. cbn [bind] in H.
  unfold bindM at 1 in H.
  replace (Z.to_nat (count p')) with (Z.to_nat (count p) + 1)%nat in H
    by (subst p'; cbn [count]; lia).
  rewrite for_upto_skip in H.
  - cbn [for_upto] in H.
    rewrite (lookup_turn_hit a p' k s' _ m mine) in H;
      [| exact Hp' | lia | | exact Hm
       | by apply (strcmp_same_string _ (key mine) k s'), strcmp_same].
    + cbn in H. destruct H as ([] & tr2 & -> & -> & ->). auto.
    + subst p'. cbn [entries].
      replace (Z.to_nat (0 + Z.of_nat (Z.to_nat (count p))))
        with (Z.to_nat (count p)) by lia.
      apply list_lookup_insert_eq. lia.
  - intros j Hj.
    destruct (insert_turn_none _ _ _ _ _ Hp (Hall j ltac:(lia)))
      as (e & other & m' & mine' & c & Hj0 & Hslot & He & [= <-] & Hm' & Hc & Hne).
    rewrite Hm in Hm'. injection Hm' as <-.
    apply (lookup_turn_miss a p' k s' j e other c);
      [exact Hp' | lia | | exact He
       | by apply (strcmp_same_string _ (key mine) k s) | exact Hne].
    subst p'. cbn [entries]. rewrite list_lookup_insert_ne by lia. exact Hslot.
Qed.

(** A key of fewer than [MAX_KEY_LEN] bytes is copied whole. *)
Lemma copied_key_short (k : list byte) :
  Z.of_nat (length (SampleOverflow.c_str k)) < MAX_KEY_LEN ->
  SampleOverflow.c_str (copied_key k) = SampleOverflow.c_str k.
Proof.
  intros Hlen. destruct (copied_key_spec k) as (_ & _ & ->).
  apply take_ge. unfold MAX_KEY_LEN in Hlen. lia.
Qed.



(** X21. Write, then look up.  After [storage_write] has returned 0 for
    a valid key, every run of [pool_lookup] on the same pool with that
    key returns the entry [storage_write] allocated: the block its first
    [malloc] answered, which holds the key, the data block of the second
    [malloc], the size and a reference count of 1.  Nothing was freed. *)
Theorem storage_write_then_pool_lookup pool k data size s tr s' tr' o :
  In x00 k ->
  0 < Z.of_nat (length (SampleOverflow.c_str k)) < MAX_KEY_LEN ->
  0 < size <= MAX_BLOCK_SIZE ->
  exec (storage_write pool (Some k) data size s) tr (Returns (0, s')) ->
  exec (pool_lookup pool (Some k) s') tr' o ->
  exists a d,
    mallocs tr = [(sizeof_block_entry_t, Addr a); (size, Addr d)]
    /\ frees tr = []
    /\ o = Returns (Addr a, s')
    /\ blocks s' !! a = Some (mkEntry (copied_key k) (Addr d) size 1)
    /\ SampleOverflow.c_str (copied_key k) = SampleOverflow.c_str k.
Proof.
  intros Hin Hn Hsize H Hlook.
  destruct (storage_write_cases _ _ _ _ _ _ _ _ Hin Hn Hsize H)
    as [([=] & _) | (a & d & tr0 & Hm & Hcase)].
  destruct Hcase as [(_ & Hins & Hf & _) | [([=] & _) | ([=] & _)]].
  exists a, d. split; [exact Hm |]. split; [exact Hf |].
  pose proof (copied_key_short k (proj2 Hn)) as Hstr.
  destruct (copied_key_spec k) as (_ & Hnul & _).
  destruct (lookup_after_insert pool a _ k _ _ _ _ _ Hins
              (lookup_insert_eq _ _ _) Hnul Hin Hstr Hlook) as [-> _].
  split; [reflexivity |]. split; [| exact Hstr].
  destruct (pool_insert_cases _ _ _ _ _ _ Hins)
    as [([=] & _) | [([=] & _) | [([=] & _) | (_ & _ & pa & p & -> & Hp & _)]]].
  destruct (pool_insert_outcomes _ _ _ _ _ _ _ Hp Hins)
    as [([=] & _) | [([=] & _) | [([=] & _) | (_ & _ & _ & -> & _)]]].
  apply lookup_insert_eq.
Qed.

Lemma storage_write_then_pool_lookup_witness :
  exists a d,
    mallocs (fst (run (env (Addr 20) (Addr 21))
                    (storage_write (Addr 1) (Some [x43; x00]) (Addr 30) 8
                       one_entry_store)))
    = [(sizeof_block_entry_t, Addr a); (8, Addr d)]
    /\ frees (fst (run (env (Addr 20) (Addr 21))
                     (storage_write (Addr 1) (Some [x43; x00]) (Addr 30) 8
                        one_entry_store))) = []
    /\ snd (run StorageModule.env
              (pool_lookup (Addr 1) (Some [x43; x00])
                 (mkState
                    {[ 1%N := mkPool (Addr 10 :: Addr 20 :: replicate 62 NULL) 2 ]}
                    (<[20%N := mkEntry (copied_key [x43; x00]) (Addr 21) 8 1]>
                       sample_blocks))))
       = Returns (Addr a,
           mkState
             {[ 1%N := mkPool (Addr 10 :: Addr 20 :: replicate 62 NULL) 2 ]}
             (<[20%N := mkEntry (copied_key [x43; x00]) (Addr 21) 8 1]>
                sample_blocks))
    /\ blocks
         (mkState
            {[ 1%N := mkPool (Addr 10 :: Addr 20 :: replicate 62 NULL) 2 ]}
            (<[20%N := mkEntry (copied_key [x43; x00]) (Addr 21) 8 1]>
               sample_blocks)) !! a
       = Some (mkEntry (copied_key [x43; x00]) (Addr d) 8 1)
    /\ SampleOverflow.c_str (copied_key [x43; x00])
       = SampleOverflow.c_str [x43; x00].
Proof.
  refine (storage_write_then_pool_lookup (Addr 1) [x43; x00] (Addr 30) 8
            one_entry_store _ _ _ _ _ _ _ _ (exec_run StorageModule.env _)).
  - vm_compute. auto.
  - vm_compute. split; reflexivity.
  - vm_compute. split; [reflexivity | discriminate].
  - pose proof (exec_run (env (Addr 20) (Addr 21))
                  (storage_write (Addr 1) (Some [x43; x00]) (Addr 30) 8
                     one_entry_store)) as Hexec.
    replace (snd (run (env (Addr 20) (Addr 21))
                    (storage_write (Addr 1) (Some [x43; x00]) (Addr 30) 8
                       one_entry_store)))
      with (Returns (0,
              mkState
                {[ 1%N := mkPool (Addr 10 :: Addr 20 :: replicate 62 NULL) 2 ]}
                (<[20%N := mkEntry (copied_key [x43; x00]) (Addr 21) 8 1]>
                   sample_blocks))) in Hexec
      by (vm_compute; reflexivity).
    exact Hexec.
Defined.

(** X22. What [storage_write] allocates and gives back.  For a valid key
    and size a call that returns gives 0, [-EEXIST], [-EIO] or
    [-ENOMEM].  On 0 both blocks were allocated, none was freed and the
    entry is in the store.  On [-EEXIST] and [-EIO] the data block and
    then the entry block were freed and the pools are as before the
    call.  On [-ENOMEM] the store is unchanged and nothing was freed:
    when it is the second [malloc] that failed, the entry block the
    first one answered is never given back. *)
Theorem storage_write_allocation_balance pool k data size s tr r s' :
  In x00 k ->
  0 < Z.of_nat (length (SampleOverflow.c_str k)) < MAX_KEY_LEN ->
  0 < size <= MAX_BLOCK_SIZE ->
  exec (storage_write pool (Some k) data size s) tr (Returns (r, s')) ->
  (r = 0 /\ frees tr = []
   /\ exists a d,
        mallocs tr = [(sizeof_block_entry_t, Addr a); (size, Addr d)]
        /\ blocks s' = <[a := mkEntry (copied_key k) (Addr d) size 1]>
                         (blocks s))
  \/ ((r = - EEXIST \/ r = - EIO)
      /\ exists a d,
           mallocs tr = [(sizeof_block_entry_t, Addr a); (size, Addr d)]
           /\ frees tr = [Addr d; Addr a]
           /\ s' = mkState (pools s) (delete a (blocks s)))
  \/ (r = - ENOMEM /\ s' = s /\ frees tr = []
      /\ (mallocs tr = [(sizeof_block_entry_t, NULL)]
          \/ exists a, mallocs tr = [(sizeof_block_entry_t, Addr a);
                                     (size, NULL)])).
Proof.
  intros Hin Hn Hsize H.
  destruct (storage_write_cases _ _ _ _ _ _ _ _ Hin Hn Hsize H)
    as [(-> & -> & _ & Hf & Hm) | (a & d & tr0 & Hm & Hcase)];
    [right; right; auto |].
  destruct Hcase as [(-> & Hins & Hf & _) | [(-> & _ & -> & Hf & _)
                    | (-> & _ & -> & Hf & _)]].
  - left. split; [reflexivity |]. split; [exact Hf |]. exists a, d.
    split; [exact Hm |].
    destruct (pool_insert_cases _ _ _ _ _ _ Hins)
      as [([=] & _) | [([=] & _) | [([=] & _) | (_ & _ & pa & p & -> & Hp & _)]]].
    destruct (pool_insert_outcomes _ _ _ _ _ _ _ Hp Hins)
      as [([=] & _) | [([=] & _) | [([=] & _) | (_ & _ & _ & -> & _)]]].
    reflexivity.
  - right. left. split; [by left |]. eauto.
  - right. left. split; [by right |]. eauto.
Qed.

Lemma storage_write_allocation_balance_witness :
  exists a,
    mallocs (fst (run (env (Addr 20) NULL)
                    (storage_write (Addr 1) (Some [x43; x00]) (Addr 30) 8
                       one_entry_store)))
    = [(sizeof_block_entry_t, Addr a); (8, NULL)]
    /\ frees (fst (run (env (Addr 20) NULL)
                     (storage_write (Addr 1) (Some [x43; x00]) (Addr 30) 8
                        one_entry_store))) = [].
Proof.
  assert (snd (run (env (Addr 20) NULL)
            (storage_write (Addr 1) (Some [x43; x00]) (Addr 30) 8
               one_entry_store))
          = Returns (- ENOMEM, one_entry_store)) as Hrun
    by (vm_compute; reflexivity).
  pose proof (exec_run (env (Addr 20) NULL)
                (storage_write (Addr 1) (Some [x43; x00]) (Addr 30) 8
                   one_entry_store)) as Hexec.
  rewrite Hrun in Hexec.
  destruct (storage_write_allocation_balance (Addr 1) [x43; x00] (Addr 30) 8
              one_entry_store _ _ _
              ltac:(vm_compute; auto) ltac:(vm_compute; split; reflexivity)
              ltac:(vm_compute; split; [reflexivity | discriminate])
              Hexec)
    as [([=] & _) | [([[=] | [=]] & _) | (_ & _ & Hf & [Hm | [a Hm]])]].
  - vm_compute in Hm. discriminate Hm.
  - exists a. split; [exact Hm | exact Hf].
Defined.

(** *** [storage_read] *)

Lemma copies_pool (tr0 : list (event StorageModule.ext)) :
  copies (map (translate_event (@Pool)) tr0) = [].
Proof.
  induction tr0 as [| [X e x] tr0 IH]; [reflexivity |].
  unfold copies in *. cbn [map omap list_omap]. by rewrite IH.
Qed.

Lemma size_stores_pool (tr0 : list (event StorageModule.ext)) :
  size_stores (map (translate_event (@Pool)) tr0) = [].
Proof.
  induction tr0 as [| [X e x] tr0 IH]; [reflexivity |].
  unfold size_stores in *. cbn [map omap list_omap]. by rewrite IH.
Qed.

Lemma copies_app (tr1 tr2 : list (event ext)) :
  copies (tr1 ++ tr2) = copies tr1 ++ copies tr2.
Proof. apply omap_app. Qed.

Lemma size_stores_app (tr1 tr2 : list (event ext)) :
  size_stores (tr1 ++ tr2) = size_stores tr1 ++ size_stores tr2.
Proof. apply omap_app. Qed.

(** A successful [storage_write]: the new entry is in the store and was
    put into the pool by a [pool_insert] that returned 0. *)
Lemma storage_write_ok pool k data size s tr s' :
  In x00 k ->
  0 < Z.of_nat (length (SampleOverflow.c_str k)) < MAX_KEY_LEN ->
  0 < size <= MAX_BLOCK_SIZE ->
  exec (storage_write pool (Some k) data size s) tr (Returns (0, s')) ->
  exists a d tr0,
    mallocs tr = [(sizeof_block_entry_t, Addr a); (size, Addr d)]
    /\ frees tr = []
    /\ exec (pool_insert pool (Addr a)
               (mkState (pools s)
                  (<[a := mkEntry (copied_key k) (Addr d) size 1]> (blocks s))))
         tr0 (Returns (0, s'))
    /\ blocks s' = <[a := mkEntry (copied_key k) (Addr d) size 1]> (blocks s)
    /\ In x00 (copied_key k)
    /\ SampleOverflow.c_str (copied_key k) = SampleOverflow.c_str k.
Proof.
  intros Hin Hn Hsize H.
  destruct (storage_write_cases _ _ _ _ _ _ _ _ Hin Hn Hsize H)
    as [([=] & _) | (a & d & tr0 & Hm & Hcase)].
  destruct Hcase as [(_ & Hins & Hf & _) | [([=] & _) | ([=] & _)]].
  exists a, d, tr0. split; [exact Hm |]. split; [exact Hf |].
  split; [exact Hins |].
  destruct (copied_key_spec k) as (_ & Hnul & _).
  split; [| split; [exact Hnul | exact (copied_key_short k (proj2 Hn))]].
  destruct (pool_insert_cases _ _ _ _ _ _ Hins)
    as [([=] & _) | [([=] & _) | [([=] & _) | (_ & _ & pa & p & -> & Hp & _)]]].
  destruct (pool_insert_outcomes _ _ _ _ _ _ _ Hp Hins)
    as [([=] & _) | [([=] & _) | [([=] & _) | (_ & _ & _ & -> & _)]]].
  reflexivity.
Qed.

Lemma strlen_pure (k : list byte) (s : state) :
  (exists n, strlen k s = Ret (n, s)) \/ (exists u, strlen k s = Undef u).
Proof.
  induction k as [| b k IH]; simpl; [right; eauto |].
  destruct (is_nul b); [left; eauto |].
  unfold bindM. destruct IH as [[n ->] | [u ->]]; cbn; eauto.
Qed.

Lemma validate_key_pure (key : option (list byte)) (s : state) :
  (exists r, validate_key key s = Ret (r, s)
             /\ (r = 0 \/ r = - EINVAL \/ r = - ENAMETOOLONG))
  \/ (exists u, validate_key key s = Undef u).
Proof.
  destruct key as [k |]; [| left; eexists; split; [reflexivity | auto]].
  unfold validate_key, bindM.
  destruct (strlen_pure k s) as [[n ->] | [u ->]]; [| right; eauto].
  cbn [bind]. left.
  destruct (n =? 0); [eexists; split; [reflexivity | auto] |].
  destruct (n >=? MAX_KEY_LEN); eexists; (split; [reflexivity | auto]).
Qed.

(** [storage_read] from the point where [pool_lookup] has answered a
    live entry. *)
Lemma storage_read_found m e buf buf_size out s tr o :
  blocks s !! m = Some e ->
  exec ((pool_call (pthread_mutex_lock (entry_lock (Addr m))) ;;
         e <- pool_call (load_entry (Addr m)) ;;
         if buf_size <? StorageModule.size e then
           pool_call (pthread_mutex_unlock (entry_lock (Addr m))) ;;
           ret (- ERANGE)
         else
           trigger (Memcpy buf (StorageModule.data e) (StorageModule.size e)) ;;
           (if negb (is_null out) then
              trigger (StoreSize out (StorageModule.size e))
            else
              ret tt) ;;
           pool_call (pthread_mutex_unlock (entry_lock (Addr m))) ;;
           ret 0) s) tr o ->
  lock_ops tr = [Acquire (entry_lock (Addr m)); Release (entry_lock (Addr m))]
  /\ mallocs tr = [] /\ frees tr = []
  /\ ((buf_size < StorageModule.size e
       /\ o = Returns (- ERANGE, s)
       /\ copies tr = [] /\ size_stores tr = [])
      \/ (StorageModule.size e <= buf_size
          /\ o = Returns (0, s)
          /\ copies tr = [(buf, StorageModule.data e, StorageModule.size e)]
          /\ size_stores tr
             = if is_null out then [] else [(out, StorageModule.size e)])).
Proof.
  intros He H.
  unfold bindM at 1 in H. cbn [pool_call liftM pthread_mutex_lock trigger
                                 translate bind exec] in H.
  destruct H as ([] & tr1 & -> & H).
  unfold bindM at 1 in H. unfold pool_call at 1, liftM in H.
  cbn [load_entry] in H. rewrite He in H. cbn [translate bind] in H.
  destruct (Z.ltb_spec buf_size (StorageModule.size e)) as [Hlt | Hge].
  - cbn in H. destruct H as ([] & tr2 & -> & -> & ->).
    split; [reflexivity |]. split; [reflexivity |]. split; [reflexivity |].
    left. auto.
  - unfold bindM at 1 in H. cbn [trigger bind exec] in H.
    destruct H as ([] & tr2 & -> & H).
    destruct out as [| q]; cbn in H.
    + destruct H as ([] & tr3 & -> & -> & ->).
      split; [reflexivity |]. split; [reflexivity |]. split; [reflexivity |].
      right. auto.
    + destruct H as ([] & tr3 & -> & [] & tr4 & -> & -> & ->).
      split; [reflexivity |]. split; [reflexivity |]. split; [reflexivity |].
      right. auto.
Qed.

(** X23. Write, then read.  After [storage_write] has returned 0 for a
    valid key and [size] bytes, every run of [storage_read] with that
    key returns: [-ERANGE] without copying when [buf_size < size], and
    otherwise 0 after one [memcpy] of exactly [size] bytes from the data
    block [storage_write] allocated to [buf], with [size] stored through
    [out_size] when that is not null.  The store is unchanged, and the
    entry's lock is taken only after the pool's lock has been
    released. *)
Theorem storage_write_then_storage_read pool k data size s tr s'
    buf buf_size out tr' o :
  In x00 k ->
  0 < Z.of_nat (length (SampleOverflow.c_str k)) < MAX_KEY_LEN ->
  0 < size <= MAX_BLOCK_SIZE ->
  exec (storage_write pool (Some k) data size s) tr (Returns (0, s')) ->
  exec (storage_read pool (Some k) buf buf_size out s') tr' o ->
  exists a d,
    mallocs tr = [(sizeof_block_entry_t, Addr a); (size, Addr d)]
    /\ lock_ops tr'
       = [Acquire (pool_lock pool); Release (pool_lock pool);
          Acquire (entry_lock (Addr a)); Release (entry_lock (Addr a))]
    /\ ((buf_size < size /\ o = Returns (- ERANGE, s')
         /\ copies tr' = [] /\ size_stores tr' = [])
        \/ (size <= buf_size /\ o = Returns (0, s')
            /\ copies tr' = [(buf, Addr d, size)]
            /\ size_stores tr' = if is_null out then [] else [(out, size)])).
Proof.
  intros Hin Hn Hsize Hw H.
  destruct (storage_write_ok _ _ _ _ _ _ _ Hin Hn Hsize Hw)
    as (a & d & tr0 & Hm & _ & Hins & Hb & Hnul & Hstr).
  exists a, d. split; [exact Hm |].
  unfold storage_read in H.
  unfold bindM at 1 in H. unfold pool_call at 1, liftM in H.
  rewrite (validate_key_run _ _ Hin) in H. cbn [translate bind] in H.
  unfold MAX_KEY_LEN in *.
  destruct (Z.eqb_spec (Z.of_nat (length (SampleOverflow.c_str k))) 0);
    [lia |].
  destruct (Z.geb_spec (Z.of_nat (length (SampleOverflow.c_str k))) 256);
    [lia |].
  cbn [Z.ltb Z.compare] in H.
  unfold bindM at 1 in H. apply exec_bind in H.
  assert (forall trl ol, exec (pool_call (pool_lookup pool (Some k)) s') trl ol ->
            ol = Returns (Addr a, s')
            /\ lock_ops trl
               = [Acquire (pool_lock pool); Release (pool_lock pool)]
            /\ copies trl = [] /\ size_stores trl = []) as Hlook.
  { intros trl ol Hl. apply exec_pool_call in Hl.
    destruct Hl as (trp & Hl & ->).
    rewrite lock_ops_pool, copies_pool, size_stores_pool.
    destruct (lookup_after_insert pool a _ k _ _ _ _ _ Hins
                (lookup_insert_eq _ _ _) Hnul Hin Hstr Hl) as [-> ->]. auto. }
  destruct H as [(es & trl & trt & Hl & H & ->) | [(u & Hl & _) | (Hl & _)]];
    [| by destruct (Hlook _ _ Hl) as [[=] _]
     | by destruct (Hlook _ _ Hl) as [[=] _]].
  destruct (Hlook _ _ Hl) as ([= ->] & Hlocks & Hc & Hs). cbn [is_null] in H.
  assert (blocks s' !! a = Some (mkEntry (copied_key k) (Addr d) size 1))
    as He by (rewrite Hb; apply lookup_insert_eq).
  destruct (storage_read_found _ _ _ _ _ _ _ _ He H) as (Hl2 & _ & _ & Hcase).
  rewrite lock_ops_app, copies_app, size_stores_app, Hlocks, Hl2, Hc, Hs.
  split; [reflexivity |]. exact Hcase.
Qed.

Lemma storage_write_then_storage_read_witness :
  exists a d,
    mallocs (fst (run (env (Addr 20) (Addr 21))
                    (storage_write (Addr 1) (Some [x43; x00]) (Addr 30) 8
                       one_entry_store)))
    = [(sizeof_block_entry_t, Addr a); (8, Addr d)]
    /\ lock_ops
         (fst (run (env NULL NULL)
                 (storage_read (Addr 1) (Some [x43; x00]) (Addr 40) 16 (Addr 41)
                    (mkState
                       {[ 1%N := mkPool (Addr 10 :: Addr 20 :: replicate 62 NULL)
                                   2 ]}
                       (<[20%N := mkEntry (copied_key [x43; x00]) (Addr 21) 8 1]>
                          sample_blocks)))))
       = [Acquire (pool_lock (Addr 1)); Release (pool_lock (Addr 1));
          Acquire (entry_lock (Addr a)); Release (entry_lock (Addr a))]
    /\ copies
         (fst (run (env NULL NULL)
                 (storage_read (Addr 1) (Some [x43; x00]) (Addr 40) 16 (Addr 41)
                    (mkState
                       {[ 1%N := mkPool (Addr 10 :: Addr 20 :: replicate 62 NULL)
                                   2 ]}
                       (<[20%N := mkEntry (copied_key [x43; x00]) (Addr 21) 8 1]>
                          sample_blocks)))))
       = [(Addr 40, Addr d, 8)].
Proof.
  pose proof (exec_run (env (Addr 20) (Addr 21))
                (storage_write (Addr 1) (Some [x43; x00]) (Addr 30) 8
                   one_entry_store)) as Hw.
  replace (snd (run (env (Addr 20) (Addr 21))
                  (storage_write (Addr 1) (Some [x43; x00]) (Addr 30) 8
                     one_entry_store)))
    with (Returns (0,
            mkState
              {[ 1%N := mkPool (Addr 10 :: Addr 20 :: replicate 62 NULL) 2 ]}
              (<[20%N := mkEntry (copied_key [x43; x00]) (Addr 21) 8 1]>
                 sample_blocks))) in Hw
    by (vm_compute; reflexivity).
  destruct (storage_write_then_storage_read (Addr 1) [x43; x00] (Addr 30) 8
              one_entry_store _ _ (Addr 40) 16 (Addr 41) _ _
              ltac:(vm_compute; auto) ltac:(vm_compute; split; reflexivity)
              ltac:(vm_compute; split; [reflexivity | discriminate])
              Hw (exec_run (env NULL NULL) _))
    as (a & d & Hm & Hl & [(Hlt & _) | (_ & _ & Hc & _)]); [lia |].
  exists a, d. split; [exact Hm |]. split; [exact Hl | exact Hc].
Defined.

(** X24. [storage_read] in general.  A call that returns has not changed
    the store and has allocated and freed nothing.  It returns
    [-EINVAL], [-ENAMETOOLONG] or [-ENOENT] without copying, having
    taken no lock or having taken and released [pool_lock]; or it found
    a live entry whose key spells the string of [key], took
    [entry->lock] after [pool_lock] had been released, and released it
    again: then it returns [-ERANGE] without copying when
    [buf_size < entry->size], and otherwise 0 after a single [memcpy] of
    [entry->size <= buf_size] bytes to [buf]. *)
Theorem storage_read_locks_and_copies pool key buf buf_size out s tr r s' :
  exec (storage_read pool key buf buf_size out s) tr (Returns (r, s')) ->
  s' = s /\ mallocs tr = [] /\ frees tr = []
  /\ (((r = - EINVAL \/ r = - ENAMETOOLONG \/ r = - ENOENT)
       /\ copies tr = [] /\ size_stores tr = []
       /\ (lock_ops tr = []
           \/ lock_ops tr
              = [Acquire (pool_lock pool); Release (pool_lock pool)]))
      \/ exists m e k,
           key = Some k /\ blocks s !! m = Some e
           /\ SampleOverflow.c_str (StorageModule.key e)
              = SampleOverflow.c_str k
           /\ lock_ops tr
              = [Acquire (pool_lock pool); Release (pool_lock pool);
                 Acquire (entry_lock (Addr m)); Release (entry_lock (Addr m))]
           /\ ((buf_size < StorageModule.size e /\ r = - ERANGE
                /\ copies tr = [] /\ size_stores tr = [])
               \/ (StorageModule.size e <= buf_size /\ r = 0
                   /\ copies tr
                      = [(buf, StorageModule.data e, StorageModule.size e)]
                   /\ size_stores tr
                      = if is_null out then []
                        else [(out, StorageModule.size e)]))).
Proof.
  intros H. unfold storage_read in H.
  unfold bindM at 1 in H. unfold pool_call at 1, liftM in H.
  destruct (validate_key_pure key s) as [(r0 & Hv & Hr0) | (u & Hv)];
    rewrite Hv in H; cbn [translate bind] in H;
    [| destruct H as [_ [=]]].
  destruct (Z.ltb_spec r0 0) as [Hneg | Hpos].
  { cbn in H. destruct H as [-> [= <- <-]].
    split; [reflexivity |]. split; [reflexivity |]. split; [reflexivity |].
    left. split; [| auto].
    destruct Hr0 as [-> | [-> | ->]]; [lia | auto | auto]. }
  unfold bindM at 1 in H. apply exec_bind in H.
  destruct H as [([entry s1] & trl & trt & Hl & H & ->) | [(u & _ & [=]) | (_ & [=])]].
  apply exec_pool_call in Hl. destruct Hl as (trp & Hl & ->).
  rewrite mallocs_app, frees_app, lock_ops_app, copies_app, size_stores_app,
    mallocs_pool, frees_pool, lock_ops_pool, copies_pool, size_stores_pool.
  destruct (pool_lookup_cases _ _ _ _ _ _ Hl) as [-> Hcase].
  destruct Hcase as [(Hlk & -> & _) | (a & p & k & -> & -> & Hp & Hlk & Hcase)].
  { cbn in H. destruct H as [-> [= <- <-]]. rewrite Hlk.
    split; [reflexivity |]. split; [reflexivity |]. split; [reflexivity |].
    left. auto 10. }
  rewrite Hlk.
  destruct Hcase as [(-> & _) | (i & _ & (_ & _ & m & e & -> & He & Hkey) & _)].
  { cbn in H. destruct H as [-> [= <- <-]].
    split; [reflexivity |]. split; [reflexivity |]. split; [reflexivity |].
    left. auto 10. }
  cbn [is_null] in H.
  destruct (storage_read_found _ _ _ _ _ _ _ _ He H) as (Hl2 & Hm & Hf & Hcase).
  rewrite Hl2, Hm, Hf.
  destruct Hcase as [(Hlt & [= <- <-] & Hc & Hs) | (Hge & [= <- <-] & Hc & Hs)];
    rewrite Hc, Hs;
    (split; [reflexivity |]); (split; [reflexivity |]);
    (split; [reflexivity |]); right; exists m, e, k;
    (split; [reflexivity |]); (split; [exact He |]);
    (split; [exact Hkey |]); (split; [reflexivity |]); auto.
Qed.

Lemma storage_read_locks_and_copies_witness :
  snd (run (env NULL NULL)
         (storage_read (Addr 1) (Some [x41; x00]) (Addr 40) 0 NULL
            one_entry_store))
  = Returns (- ERANGE, one_entry_store)
  /\ copies (fst (run (env NULL NULL)
                    (storage_read (Addr 1) (Some [x41; x00]) (Addr 40) 0 NULL
                       one_entry_store))) = [].
Proof.
  assert (snd (run (env NULL NULL)
            (storage_read (Addr 1) (Some [x41; x00]) (Addr 40) 0 NULL
               one_entry_store))
          = Returns (- ERANGE, one_entry_store)) as Hrun
    by (vm_compute; reflexivity).
  split; [exact Hrun |].
  pose proof (exec_run (env NULL NULL)
                (storage_read (Addr 1) (Some [x41; x00]) (Addr 40) 0 NULL
                   one_entry_store)) as Hexec.
  rewrite Hrun in Hexec.
  destruct (storage_read_locks_and_copies _ _ _ _ _ _ _ _ _ Hexec)
    as (_ & _ & _ & [(_ & Hc & _) | (m & e & k & _ & _ & _ & _ & Hcase)]);
    [exact Hc |].
  destruct Hcase as [(_ & _ & Hc & _) | (_ & [=] & _)]. exact Hc.
Defined.

(** *** [storage_delete] *)

(** A counted loop from the store [s] whose turns go on silently or not
    at all: the first turn that does not go on decides. *)
Lemma for_upto_first {E S R} (body : Z -> M E S (option R)) (s : S) :
  forall n i,
    (forall j tr o, i <= j < i + Z.of_nat n -> exec (body j s) tr o ->
       (tr = [] /\ o = Returns (None, s))
       \/ (forall x, o <> Returns (None, x))) ->
    forall tr o, exec (for_upto n i body s) tr o ->
      (tr = [] /\ o = Returns (None, s)
       /\ forall j, i <= j < i + Z.of_nat n -> body j s = Ret (None, s))
      \/ exists j o',
           i <= j < i + Z.of_nat n
           /\ (forall j', i <= j' < j -> body j' s = Ret (None, s))
           /\ exec (body j s) tr o'
           /\ ((exists v s', o' = Returns (Some v, s')
                             /\ o = Returns (Some v, s'))
               \/ (exists u, o' = Faults u /\ o = Faults u)
               \/ (o' = Unfinished /\ o = Unfinished)).
Proof.
  induction n as [| n IH]; intros i Hbody tr o H.
  - cbn in H. destruct H as [-> ->]. left. repeat split. intros j Hj. lia.
  - cbn [for_upto] in H. apply exec_bind in H.
    destruct H as [([r s1] & tr1 & tr2 & H1 & H2 & ->) | [(u & H1 & ->) | [H1 ->]]].
    + destruct (Hbody i _ _ ltac:(lia) H1) as [[-> [= -> ->]] | Hno].
      * apply exec_nil_returns in H1.
        destruct (IH (i + 1) ltac:(intros j tr' o' Hj; apply Hbody; lia) _ _ H2)
          as [(-> & -> & Hall) | (j & o' & Hj & Hbefore & Hj' & Ho)].
        -- left. repeat split. intros j Hj.
           destruct (Z.eq_dec j i) as [-> | Hne]; [exact H1 | apply Hall; lia].
        -- right. exists j, o'. split; [lia |]. split; [| auto].
           intros j' Hj''.
           destruct (Z.eq_dec j' i) as [-> | Hne]; [exact H1 | apply Hbefore; lia].
      * destruct r as [v |]; [| by destruct (Hno s1)].
        cbn in H2. destruct H2 as [-> ->]. rewrite app_nil_r.
        right. exists i, (Returns (Some v, s1)). split; [lia |].
        split; [intros j' Hj'; lia |]. split; [exact H1 |]. left. eauto.
    + right. exists i, (Faults u). split; [lia |].
      split; [intros j' Hj'; lia |]. split; [exact H1 |]. right. left. eauto.
    + right. exists i, Unfinished. split; [lia |].
      split; [intros j' Hj'; lia |]. split; [exact H1 |]. right. right. auto.
Qed.

Lemma load_slot_valid a p s i e :
  pools s !! a = Some p -> 0 <= i -> entries p !! Z.to_nat i = Some e ->
  load_slot (Addr a) i s = Ret (e, s).
Proof.
  intros Hp Hi He. unfold load_slot, bindM.
  rewrite (load_pool_valid _ _ _ Hp). cbn [bind].
  destruct (Z.leb_spec 0 i); [| lia]. by rewrite He.
Qed.

Lemma store_slot_valid a p s i e :
  pools s !! a = Some p -> 0 <= i < Z.of_nat (length (entries p)) ->
  store_slot (Addr a) i e s
  = Ret (tt, mkState (<[a := mkPool (<[Z.to_nat i := e]> (entries p)) (count p)]>
                        (pools s)) (blocks s)).
Proof.
  intros Hp Hi. unfold store_slot, bindM.
  rewrite (load_pool_valid _ _ _ Hp). cbn [bind].
  destruct (Z.leb_spec 0 i); [| lia].
  destruct (Z.ltb_spec i (Z.of_nat (length (entries p)))); [| lia].
  cbn [andb]. apply (store_pool_valid _ _ _ _ Hp).
Qed.

(** [strcmp(pool->entries[i]->key, key)] answers for a slot that holds
    a live entry whose key array is terminated, and faults otherwise. *)
Lemma key_at_cases a p k i s :
  pools s !! a = Some p ->
  (exists m other c,
      0 <= i /\ entries p !! Z.to_nat i = Some (Addr m)
      /\ blocks s !! m = Some other
      /\ strcmp (key other) k s = Ret (c, s)
      /\ key_at (Addr a) i k s = Ret (c, s))
  \/ (exists u, key_at (Addr a) i k s = Undef u).
Proof.
  intros Hp.
  assert (key_at (Addr a) i k s
          = match (if 0 <=? i then entries p !! Z.to_nat i else None) with
            | Some (Addr m) =>
                match blocks s !! m with
                | Some other => strcmp (key other) k s
                | None => Undef InvalidPointer
                end
            | Some NULL => Undef NullDereference
            | None => Undef (OutOfBounds i (Z.of_nat (length (entries p))))
            end) as ->.
  { unfold key_at, load_slot, bindM.
    rewrite (load_pool_valid _ _ _ Hp). cbn [bind].
    destruct (if 0 <=? i then entries p !! Z.to_nat i else None)
      as [[| m] |]; cbn; [reflexivity | | reflexivity].
    by destruct (blocks s !! m). }
  destruct (Z.leb_spec 0 i) as [Hi | Hi]; [| right; eauto].
  destruct (entries p !! Z.to_nat i) as [slot |] eqn:Hslot; [| right; eauto].
  destruct slot as [| m]; [right; eauto |].
  destruct (blocks s !! m) as [other |] eqn:He; [| right; eauto].
  destruct (strcmp_pure (key other) k s) as [[c Hc] | [u Hu]].
  - left. exists m, other, c. rewrite Hc. auto.
  - right. exists u. exact Hu.
Qed.

(** The loop that closes the gap: [n] turns from slot [j0] move the
    slots [j0 + 1 .. j0 + n] down by one and change nothing else. *)
Lemma shift_loop a :
  forall (n : nat) (j0 : Z) (s : state) (p : block_pool_t),
    pools s !! a = Some p -> 0 <= j0 ->
    (Z.to_nat j0 + n < length (entries p))%nat ->
    exists es',
      length es' = length (entries p)
      /\ (forall j : nat,
            es' !! j = if decide (Z.to_nat j0 <= j < Z.to_nat j0 + n)%nat
                       then entries p !! S j else entries p !! j)
      /\ for_upto n j0
           (fun j => next <- pool_call (load_slot (Addr a) (j + 1)) ;;
                     pool_call (store_slot (Addr a) j next) ;;
                     ret (@None unit)) s
         = Ret (None, mkState (<[a := mkPool es' (count p)]> (pools s))
                        (blocks s)).
Proof.
  induction n as [| n IH]; intros j0 s p Hp Hj0 Hlen.
  - exists (entries p). split; [reflexivity |]. split.
    + intros j. destruct (decide _) as [Hj | Hj]; [lia | reflexivity].
    + destruct s as [ps bs], p as [es c]. cbn in *.
      by rewrite insert_id.
  - destruct (lookup_lt_is_Some_2 (entries p) (S (Z.to_nat j0)) ltac:(lia))
      as [next Hnext].
    set (p1 := mkPool (<[Z.to_nat j0 := next]> (entries p)) (count p)).
    set (s1 := mkState (<[a := p1]> (pools s)) (blocks s)).
    destruct (IH (j0 + 1) s1 p1 (lookup_insert_eq _ _ _) ltac:(lia))
      as (es' & Hlen' & Hes & Heq).
    { subst p1. cbn [entries]. rewrite length_insert. lia. }
    exists es'. split; [| split].
    + rewrite Hlen'. subst p1. cbn [entries]. apply length_insert.
    + intros j. rewrite Hes. subst p1. cbn [entries].
      replace (Z.to_nat (j0 + 1)) with (S (Z.to_nat j0)) by lia.
      destruct (decide (S (Z.to_nat j0) <= j < S (Z.to_nat j0) + n)%nat) as [Hj | Hj].
      * rewrite decide_True by lia. apply list_lookup_insert_ne. lia.
      * destruct (decide (j = Z.to_nat j0)) as [-> | Hne].
        -- rewrite decide_True by lia.
           rewrite list_lookup_insert_eq by lia. by rewrite Hnext.
        -- rewrite decide_False by lia. apply list_lookup_insert_ne. lia.
    + cbn [for_upto]. unfold bindM at 1. unfold pool_call at 1, liftM.
      rewrite (load_slot_valid a p s (j0 + 1) next Hp ltac:(lia))
        by (replace (Z.to_nat (j0 + 1)) with (S (Z.to_nat j0)) by lia;
            exact Hnext).
      cbn [translate bind]. unfold bindM at 1. unfold pool_call at 1, liftM.
      rewrite (store_slot_valid a p s j0 next Hp) by lia.
      cbn [translate bind ret]. fold p1. fold s1.
      rewrite Heq. subst s1 p1. cbn [pools blocks count].
      by rewrite insert_insert_eq.
Qed.

(** [free_entry] on a live entry. *)
Lemma free_entry_runs a e s tr o :
  blocks s !! a = Some e ->
  exec (free_entry (Addr a) s) tr o ->
  o = Returns (tt, mkState (pools s) (delete a (blocks s)))
  /\ frees tr = match data e with
                | NULL => [Addr a]
                | Addr d => [Addr d; Addr a]
                end
  /\ mallocs tr = [] /\ lock_ops tr = [].
Proof.
  intros Ha H. destruct (data e) as [| d] eqn:Hd;
    [| by apply (free_entry_live a e d)].
  unfold free_entry in H. cbn [is_null] in H.
  unfold bindM at 1 in H. unfold pool_call, liftM in H.
  cbn [load_entry] in H. rewrite Ha in H. cbn [translate bind] in H.
  rewrite Hd in H. cbn in H.
  destruct H as ([] & tr1 & -> & [] & tr2 & -> & -> & ->). auto.
Qed.

Local Abbreviation delete_turn pool p k :=
  (fun i : Z =>
     c <- pool_call (key_at pool i k) ;;
     if c =? 0 then
       entry <- pool_call (load_slot pool i) ;;
       for_upto (Z.to_nat (wrap_int (count p - 1) - i)) i
         (fun j => next <- pool_call (load_slot pool (j + 1)) ;;
                   pool_call (store_slot pool j next) ;;
                   ret (@None unit)) ;;
       pool_call (decrement_count pool) ;;
       pool_call (pthread_mutex_unlock (pool_lock pool)) ;;
       free_entry entry ;;
       ret (Some 0)
     else
       ret None)%prog.

Lemma key_at_valid a p k i s m other :
  pools s !! a = Some p -> 0 <= i ->
  entries p !! Z.to_nat i = Some (Addr m) -> blocks s !! m = Some other ->
  key_at (Addr a) i k s = strcmp (key other) k s.
Proof.
  intros Hp Hi Hslot He. unfold key_at. unfold bindM at 1.
  rewrite (load_slot_valid _ _ _ _ _ Hp Hi Hslot). cbn [bind].
  unfold bindM. cbn [load_entry]. by rewrite He.
Qed.

(** A turn of the search loop of [storage_delete] at a slot whose key
    differs, and at one whose key matches. *)
Lemma delete_turn_miss a p k s i c :
  key_at (Addr a) i k s = Ret (c, s) -> c <> 0 ->
  delete_turn (Addr a) p k i s = Ret (None, s).
Proof.
  intros Hk Hc. unfold bindM at 1. unfold pool_call at 1, liftM.
  rewrite Hk. cbn [translate bind].
  destruct (Z.eqb_spec c 0); [lia | reflexivity].
Qed.

Lemma delete_turn_hit a p k s i m e tr o :
  pools s !! a = Some p ->
  0 <= i < count p -> count p <= Z.of_nat (length (entries p)) ->
  count p <= INT_MAX ->
  entries p !! Z.to_nat i = Some (Addr m) -> blocks s !! m = Some e ->
  key_at (Addr a) i k s = Ret (0, s) ->
  exec (delete_turn (Addr a) p k i s) tr o ->
  exists es',
    length es' = length (entries p)
    /\ (forall j : nat,
          es' !! j = if decide (Z.to_nat i <= j < Z.to_nat (count p) - 1)%nat
                     then entries p !! S j else entries p !! j)
    /\ o = Returns (Some 0,
             mkState (<[a := mkPool es' (count p - 1)]> (pools s))
               (delete m (blocks s)))
    /\ lock_ops tr = [Release (pool_lock (Addr a))]
    /\ frees tr = match data e with
                  | NULL => [Addr m]
                  | Addr d => [Addr d; Addr m]
                  end
    /\ mallocs tr = [].
Proof.
  intros Hp Hi Hlen Hmax Hslot He Hk H.
  unfold bindM at 1 in H. unfold pool_call at 1, liftM in H.
  rewrite Hk in H. cbn [translate bind Z.eqb] in H.
  unfold bindM at 1 in H. unfold pool_call at 1, liftM in H.
  rewrite (load_slot_valid _ _ _ _ _ Hp (proj1 Hi) Hslot) in H.
  cbn [translate bind] in H.
  rewrite wrap_int_id in H by (unfold INT_MIN, INT_MAX in *; lia).
  destruct (shift_loop a (Z.to_nat (count p - 1 - i)) i s p Hp (proj1 Hi)
              ltac:(lia)) as (es' & Hlen' & Hes & Heq).
  unfold bindM at 1 in H. rewrite Heq in H. cbn [bind] in H.
  set (p2 := mkPool es' (count p)) in *.
  set (s2 := mkState (<[a := p2]> (pools s)) (blocks s)) in *.
  unfold bindM at 1 in H. unfold pool_call at 1, liftM in H.
  unfold decrement_count in H. unfold bindM at 1 in H.
  rewrite (load_pool_valid a p2 s2 (lookup_insert_eq _ _ _)) in H.
  cbn [bind] in H.
  rewrite (store_pool_valid a p2 _ s2 (lookup_insert_eq _ _ _)) in H.
  cbn [translate bind] in H.
  rewrite wrap_int_id in H by (subst p2; cbn; unfold INT_MIN, INT_MAX in *; lia).
  unfold bindM at 1 in H.
  cbn [pool_call liftM pthread_mutex_unlock trigger translate bind exec] in H.
  destruct H as ([] & tr1 & -> & H).
  unfold bindM at 1 in H. apply exec_bind in H.
  subst s2 p2. cbn [pools blocks entries count] in H.
  rewrite insert_insert_eq in H.
  set (s3 := mkState (<[a := mkPool es' (count p - 1)]> (pools s)) (blocks s))
    in *.
  assert (forall trf o', exec (free_entry (Addr m) s3) trf o' ->
            o' = Returns (tt, mkState (pools s3) (delete m (blocks s3)))
            /\ frees trf = match data e with
                           | NULL => [Addr m]
                           | Addr d => [Addr d; Addr m]
                           end
            /\ mallocs trf = [] /\ lock_ops trf = []) as Hfree.
  { intros trf o' Hf. apply (free_entry_runs m e s3 trf o' He Hf). }
  destruct H as [(us & trf & trr & Hf & H & ->) | [(u & Hf & _) | (Hf & _)]];
    [| by destruct (Hfree _ _ Hf) as [[=] _]
     | by destruct (Hfree _ _ Hf) as [[=] _]].
  destruct (Hfree _ _ Hf) as ([= ->] & Hfr & Hma & Hlo).
  cbn in H. destruct H as [-> ->]. rewrite app_nil_r.
  exists es'. split; [exact Hlen' |]. split.
  { intros j. rewrite Hes.
    destruct (decide (Z.to_nat i <= j < Z.to_nat i + Z.to_nat (count p - 1 - i))%nat);
      [rewrite decide_True by lia | rewrite decide_False by lia]; reflexivity. }
  split; [reflexivity |].
  change (lock_ops (Ev (Pool (Unlock (pool_lock (Addr a)))) tt :: trf))
    with (Release (pool_lock (Addr a)) :: lock_ops trf).
  change (frees (Ev (Pool (Unlock (pool_lock (Addr a)))) tt :: trf))
    with (frees trf).
  change (mallocs (Ev (Pool (Unlock (pool_lock (Addr a)))) tt :: trf))
    with (mallocs trf).
  rewrite Hlo, Hfr, Hma. auto.
Qed.

(** The turns of the search loop, for a well-formed pool. *)
Lemma delete_turn_cases a p k s i tr o :
  pools s !! a = Some p ->
  0 <= i < count p -> count p <= Z.of_nat (length (entries p)) ->
  count p <= INT_MAX ->
  exec (delete_turn (Addr a) p k i s) tr o ->
  (exists m other,
      entries p !! Z.to_nat i = Some (Addr m) /\ blocks s !! m = Some other
      /\ SampleOverflow.c_str (key other) <> SampleOverflow.c_str k
      /\ tr = [] /\ o = Returns (None, s))
  \/ (exists m e es',
         entries p !! Z.to_nat i = Some (Addr m) /\ blocks s !! m = Some e
         /\ SampleOverflow.c_str (key e) = SampleOverflow.c_str k
         /\ length es' = length (entries p)
         /\ (forall j : nat,
               es' !! j
               = if decide (Z.to_nat i <= j < Z.to_nat (count p) - 1)%nat
                 then entries p !! S j else entries p !! j)
         /\ o = Returns (Some 0,
                  mkState (<[a := mkPool es' (count p - 1)]> (pools s))
                    (delete m (blocks s)))
         /\ lock_ops tr = [Release (pool_lock (Addr a))]
         /\ frees tr = match data e with
                       | NULL => [Addr m]
                       | Addr d => [Addr d; Addr m]
                       end
         /\ mallocs tr = [])
  \/ (exists u, o = Faults u).
Proof.
  intros Hp Hi Hlen Hmax H.
  destruct (key_at_cases a p k i s Hp)
    as [(m & other & c & _ & Hslot & He & Hc & Hk) | (u & Hk)].
  - pose proof (strcmp_zero_iff _ _ _ _ Hc) as Hzero.
    destruct (Z.eq_dec c 0) as [-> | Hne].
    + right. left.
      destruct (delete_turn_hit _ _ _ _ _ _ _ _ _ Hp Hi Hlen Hmax Hslot He Hk H)
        as (es' & Hlen' & Hes & -> & Hl & Hf & Hm).
      exists m, other, es'. split; [exact Hslot |]. split; [exact He |].
      split; [by apply Hzero |]. auto 10.
    + left. pose proof (delete_turn_miss _ p _ _ _ _ Hk Hne) as Hmiss.
      cbv beta in Hmiss, H. rewrite Hmiss in H.
      cbn in H. destruct H as [-> ->].
      exists m, other. split; [exact Hslot |]. split; [exact He |].
      split; [| auto]. intros Heq. apply Hne. by apply Hzero.
  - right. right. unfold bindM at 1 in H. unfold pool_call at 1, liftM in H.
    rewrite Hk in H. cbn in H. destruct H as [_ ->]. eauto.
Qed.

(** X25. [storage_delete] removes the first match and frees it.  For a
    pool of [POOL_SIZE] slots with [count <= POOL_SIZE] and a valid
    key, a call that returns gives [-ENOENT], with the store unchanged,
    when every slot below [count] holds a live entry with another key;
    or 0, and then: slot [i] was the first whose entry [e] has the key,
    the slots [i + 1 .. count - 1] have moved down by one, [count] is
    one less, [e->data] (when not null) and the entry itself have been
    given to [free] whatever [e->ref_count] was, and the entry is gone
    from the store.  Either way [pool_lock] was taken and released
    once. *)
Theorem storage_delete_removes_first_match a p k s tr r s' :
  pools s !! a = Some p ->
  Z.of_nat (length (entries p)) = POOL_SIZE -> count p <= POOL_SIZE ->
  In x00 k ->
  0 < Z.of_nat (length (SampleOverflow.c_str k)) < MAX_KEY_LEN ->
  exec (storage_delete (Addr a) (Some k) s) tr (Returns (r, s')) ->
  lock_ops tr = [Acquire (pool_lock (Addr a)); Release (pool_lock (Addr a))]
  /\ mallocs tr = []
  /\ ((r = - ENOENT /\ s' = s /\ frees tr = []
       /\ forall j, 0 <= j < count p ->
            exists e ks, slot_key s p j e ks /\ ks <> SampleOverflow.c_str k)
      \/ (r = 0
          /\ exists i m e es',
               0 <= i < count p
               /\ slot_key s p i (Addr m) (SampleOverflow.c_str k)
               /\ blocks s !! m = Some e
               /\ (forall j, 0 <= j < i ->
                     exists e' ks, slot_key s p j e' ks
                                   /\ ks <> SampleOverflow.c_str k)
               /\ frees tr = match data e with
                             | NULL => [Addr m]
                             | Addr d => [Addr d; Addr m]
                             end
               /\ s' = mkState (<[a := mkPool es' (count p - 1)]> (pools s))
                         (delete m (blocks s))
               /\ length es' = length (entries p)
               /\ forall j : nat,
                    es' !! j
                    = if decide (Z.to_nat i <= j < Z.to_nat (count p) - 1)%nat
                      then entries p !! S j else entries p !! j)).
Proof.
  intros Hp Hsize Hcount Hin Hn H.
  assert (count p <= Z.of_nat (length (entries p))) as Hlen by lia.
  assert (count p <= INT_MAX) as Hmax
    by (unfold POOL_SIZE, INT_MAX in *; lia).
  unfold storage_delete in H.
  unfold bindM at 1 in H. unfold pool_call at 1, liftM in H.
  rewrite (validate_key_run _ _ Hin) in H. cbn [translate bind] in H.
  unfold MAX_KEY_LEN in *.
  destruct (Z.eqb_spec (Z.of_nat (length (SampleOverflow.c_str k))) 0);
    [lia |].
  destruct (Z.geb_spec (Z.of_nat (length (SampleOverflow.c_str k))) 256);
    [lia |].
  cbn [Z.ltb Z.compare is_null] in H.
  unfold bindM at 1 in H.
  cbn [pool_call liftM pthread_mutex_lock trigger translate bind exec] in H.
  destruct H as ([] & tr1 & -> & H).
  unfold bindM at 1 in H. unfold pool_call at 1, liftM in H.
  rewrite (load_pool_valid _ _ _ Hp) in H. cbn [translate bind] in H.
  unfold bindM at 1 in H. apply exec_bind in H.
  destruct H as [([done s1] & trl & trt & Hloop & H & ->)
                | [(u & _ & [=]) | (_ & [=])]].
  assert (forall j trj oj,
            0 <= j < count p -> exec (delete_turn (Addr a) p k j s) trj oj ->
            trj = [] /\ oj = Returns (None, s) ->
            exists e ks, slot_key s p j e ks /\ ks <> SampleOverflow.c_str k)
    as Hmiss.
  { intros j trj oj Hj Hex [-> ->].
    destruct (delete_turn_cases _ _ _ _ _ _ _ Hp Hj Hlen Hmax Hex)
      as [(m & other & Hslot & He & Hne & _)
         | [(m & e & es' & _ & _ & _ & _ & _ & [=] & _) | (u & [=])]].
    exists (Addr m), (SampleOverflow.c_str (key other)).
    split; [| exact Hne]. split; [lia |]. split; [exact Hslot |]. eauto. }
  apply for_upto_first in Hloop.
  - destruct Hloop as [(-> & [= -> ->] & Hall)
                      | (i & o' & Hi & Hbefore & Hturn & Ho)].
    + cbn in H. destruct H as ([] & tr2 & -> & -> & [= Hr Hs]). subst r s'.
      split; [reflexivity |]. split; [reflexivity |]. left.
      split; [reflexivity |]. split; [reflexivity |]. split; [reflexivity |].
      intros j Hj. apply (Hmiss j [] (Returns (None, s)) Hj); [| auto].
      rewrite (Hall j ltac:(lia)). cbn. auto.
    + destruct Ho as [(v & s2 & -> & [= -> ->]) | [(u & _ & [=]) | (_ & [=])]].
      assert (0 <= i < count p) as Hi' by lia.
      destruct (delete_turn_cases _ _ _ _ _ _ _ Hp Hi' Hlen Hmax Hturn)
        as [(m & other & _ & _ & _ & _ & [=])
           | [(m & e & es' & Hslot & He & Hkey & Hlen' & Hes & [= -> ->]
               & Hl & Hf & Hm) | (u & [=])]].
      cbn in H. destruct H as [-> [= Hr Hs]]. subst r s'. rewrite app_nil_r.
      change (lock_ops (Ev (Pool (Lock (pool_lock (Addr a)))) tt :: trl))
        with (Acquire (pool_lock (Addr a)) :: lock_ops trl).
      change (mallocs (Ev (Pool (Lock (pool_lock (Addr a)))) tt :: trl))
        with (mallocs trl).
      change (frees (Ev (Pool (Lock (pool_lock (Addr a)))) tt :: trl))
        with (frees trl).
      rewrite Hl, Hm, Hf.
      split; [reflexivity |]. split; [reflexivity |]. right.
      split; [reflexivity |]. exists i, m, e, es'.
      split; [lia |].
      split; [split; [lia |]; split; [exact Hslot |]; eauto |].
      split; [exact He |].
      split; [| auto].
      intros j Hj. apply (Hmiss j [] (Returns (None, s)) ltac:(lia)); [| auto].
      rewrite (Hbefore j ltac:(lia)). cbn. auto.
  - intros j trj oj Hj Hex.
    assert (0 <= j < count p) as Hj' by lia.
    destruct (delete_turn_cases _ _ _ _ _ _ _ Hp Hj' Hlen Hmax Hex)
      as [(m & other & _ & _ & _ & -> & ->)
         | [(m & e & es' & _ & _ & _ & _ & _ & -> & _) | (u & ->)]];
      [left; auto | right; intros x [=] | right; intros x [=]].
Qed.

Lemma storage_delete_removes_first_match_witness :
  snd (run (env NULL NULL)
         (storage_delete (Addr 1) (Some [x41; x00]) one_entry_store))
  = Returns (0, mkState {[ 1%N := mkPool (Addr 10 :: replicate 63 NULL) 0 ]}
                  (delete 10%N sample_blocks))
  /\ lock_ops (fst (run (env NULL NULL)
                      (storage_delete (Addr 1) (Some [x41; x00])
                         one_entry_store)))
     = [Acquire (pool_lock (Addr 1)); Release (pool_lock (Addr 1))].
Proof.
  assert (snd (run (env NULL NULL)
            (storage_delete (Addr 1) (Some [x41; x00]) one_entry_store))
          = Returns (0, mkState
                          {[ 1%N := mkPool (Addr 10 :: replicate 63 NULL) 0 ]}
                          (delete 10%N sample_blocks))) as Hrun
    by (vm_compute; reflexivity).
  split; [exact Hrun |].
  pose proof (exec_run (env NULL NULL)
                (storage_delete (Addr 1) (Some [x41; x00]) one_entry_store))
    as Hexec.
  rewrite Hrun in Hexec.
  exact (proj1 (storage_delete_removes_first_match 1%N
                  (mkPool (Addr 10 :: replicate 63 NULL) 1) [x41; x00]
                  one_entry_store _ _ _
                  ltac:(vm_compute; reflexivity) ltac:(vm_compute; reflexivity)
                  ltac:(vm_compute; discriminate) ltac:(vm_compute; auto)
                  ltac:(vm_compute; split; reflexivity) Hexec)).
Defined.

(** X26. Write, then delete.  After [storage_write] has returned 0 on a
    pool of [POOL_SIZE] slots, every run of [storage_delete] with the
    same key returns 0: it frees the data block and the entry block
    that [storage_write] allocated, and leaves the pool with the
    [count] and the slots below [count] it had before the write.  The
    slot at [count] is not cleared: it still holds the pointer to the
    entry, which is no longer allocated. *)
Theorem storage_write_then_storage_delete pa p k data size s tr s' tr' o :
  In x00 k ->
  0 < Z.of_nat (length (SampleOverflow.c_str k)) < MAX_KEY_LEN ->
  0 < size <= MAX_BLOCK_SIZE ->
  pools s !! pa = Some p ->
  Z.of_nat (length (entries p)) = POOL_SIZE ->
  exec (storage_write (Addr pa) (Some k) data size s) tr (Returns (0, s')) ->
  exec (storage_delete (Addr pa) (Some k) s') tr' o ->
  exists a d,
    mallocs tr = [(sizeof_block_entry_t, Addr a); (size, Addr d)]
    /\ frees tr' = [Addr d; Addr a]
    /\ lock_ops tr'
       = [Acquire (pool_lock (Addr pa)); Release (pool_lock (Addr pa))]
    /\ o = Returns (0,
             mkState
               (<[pa := mkPool (<[Z.to_nat (count p) := Addr a]> (entries p))
                          (count p)]> (pools s))
               (delete a (blocks s))).
Proof.
  intros Hin Hn Hsize Hp Hsz Hw H.
  destruct (storage_write_ok _ _ _ _ _ _ _ Hin Hn Hsize Hw)
    as (a & d & tr0 & Hm & _ & Hins & _ & Hnul & Hstr).
  exists a, d. split; [exact Hm |].
  set (mine := mkEntry (copied_key k) (Addr d) size 1) in *.
  set (s1 := mkState (pools s) (<[a := mine]> (blocks s))) in *.
  assert (pools s1 !! pa = Some p) as Hp1 by exact Hp.
  destruct (pool_insert_outcomes _ _ _ _ _ _ _ Hp1 Hins)
    as [([=] & _) | [([=] & _) | [([=] & _) | (_ & Hcount & Hlt & -> & Hall)]]].
  set (p' := mkPool (<[Z.to_nat (count p) := Addr a]> (entries p)) (count p + 1))
    in *.
  set (s' := mkState (<[pa := p']> (pools s1)) (blocks s1)) in *.
  assert (pools s' !! pa = Some p') as Hp' by apply lookup_insert_eq.
  assert (blocks s' !! a = Some mine) as Ha by apply lookup_insert_eq.
  unfold storage_delete in H.
  unfold bindM at 1 in H. unfold pool_call at 1, liftM in H.
  rewrite (validate_key_run _ _ Hin) in H. cbn [translate bind] in H.
  unfold MAX_KEY_LEN in Hn.
  destruct (Z.eqb_spec (Z.of_nat (length (SampleOverflow.c_str k))) 0);
    [lia |].
  destruct (Z.geb_spec (Z.of_nat (length (SampleOverflow.c_str k))) MAX_KEY_LEN)
    as [Hge |]; [unfold MAX_KEY_LEN in Hge; lia |].
  cbn [Z.ltb Z.compare is_null] in H.
  unfold bindM at 1 in H.
  cbn [pool_call liftM pthread_mutex_lock trigger translate bind exec] in H.
  destruct H as ([] & tr1 & -> & H).
  unfold bindM at 1 in H. unfold pool_call at 1, liftM in H.
  rewrite (load_pool_valid _ _ _ Hp') in H. cbn [translate bind] in H.
  unfold bindM at 1 in H.
  replace (Z.to_nat (count p')) with (Z.to_nat (count p) + 1)%nat in H
    by (subst p'; cbn [count]; lia).
  rewrite for_upto_skip in H.
  - assert (forall trh oh,
              exec (delete_turn (Addr pa) p' k
                      (0 + Z.of_nat (Z.to_nat (count p))) s') trh oh ->
              oh = Returns (Some 0,
                     mkState (<[pa := mkPool (entries p') (count p)]> (pools s'))
                       (delete a (blocks s')))
              /\ lock_ops trh = [Release (pool_lock (Addr pa))]
              /\ frees trh = [Addr d; Addr a]) as Hhit.
    { intros trh oh Hex.
      assert (0 <= 0 + Z.of_nat (Z.to_nat (count p)) < count p') as Hi
        by (subst p'; cbn [count]; lia).
      assert (Z.to_nat (0 + Z.of_nat (Z.to_nat (count p)))
              = Z.to_nat (count p)) as Hidx by lia.
      assert (entries p' !! Z.to_nat (0 + Z.of_nat (Z.to_nat (count p)))
              = Some (Addr a)) as Hslot.
      { rewrite Hidx. subst p'. cbn [entries].
        apply list_lookup_insert_eq. lia. }
      assert (count p' <= Z.of_nat (length (entries p'))) as Hlen
        by (subst p'; cbn [count entries]; rewrite length_insert; lia).
      assert (count p' <= INT_MAX) as Hmax
        by (subst p'; cbn [count]; unfold POOL_SIZE, INT_MAX in *; lia).
      assert (key_at (Addr pa) (0 + Z.of_nat (Z.to_nat (count p))) k s'
              = Ret (0, s')) as Hk.
      { rewrite (key_at_valid pa p' k _ s' a mine Hp' (proj1 Hi) Hslot Ha).
        apply (strcmp_same_string _ (key mine) k s'); [exact Hnul | exact Hin
          | exact Hstr | by apply strcmp_same]. }
      destruct (delete_turn_hit pa p' k s' _ a mine trh oh Hp' Hi Hlen Hmax
                  Hslot Ha Hk Hex) as (es' & Hlen' & Hes & -> & Hl & Hf & _).
      assert (es' = entries p') as ->.
      { apply list_eq. intros j. rewrite Hes.
        destruct (decide _) as [Hj | Hj]; [| reflexivity].
        subst p'. cbn [count] in Hj. lia. }
      replace (count p' - 1) with (count p) by (subst p'; cbn [count]; lia).
      auto. }
    apply exec_bind in H.
    assert (forall trh oh,
              exec (for_upto 1 (0 + Z.of_nat (Z.to_nat (count p)))
                      (delete_turn (Addr pa) p' k) s') trh oh ->
              oh = Returns (Some 0,
                     mkState (<[pa := mkPool (entries p') (count p)]> (pools s'))
                       (delete a (blocks s')))
              /\ lock_ops trh = [Release (pool_lock (Addr pa))]
              /\ frees trh = [Addr d; Addr a]) as Hloop.
    { intros trh oh Hex. cbn [for_upto] in Hex. apply exec_bind in Hex.
      destruct Hex as [(rs & trh1 & trh2 & Hh & Hex & ->)
                      | [(u & Hh & _) | (Hh & _)]];
        [| by destruct (Hhit _ _ Hh) as [[=] _]
         | by destruct (Hhit _ _ Hh) as [[=] _]].
      destruct (Hhit _ _ Hh) as ([= ->] & Hl & Hf).
      cbn in Hex. destruct Hex as [-> ->]. rewrite app_nil_r. auto. }
    destruct H as [([done s2] & trh & trt & Hh & H & ->) | [(u & Hh & _) | (Hh & _)]];
      [| by destruct (Hloop _ _ Hh) as [[=] _]
       | by destruct (Hloop _ _ Hh) as [[=] _]].
    destruct (Hloop _ _ Hh) as ([= -> ->] & Hl & Hf).
    cbn in H. destruct H as [-> ->]. rewrite !app_nil_r.
    change (lock_ops (Ev (Pool (Lock (pool_lock (Addr pa)))) tt :: trh))
      with (Acquire (pool_lock (Addr pa)) :: lock_ops trh).
    change (frees (Ev (Pool (Lock (pool_lock (Addr pa)))) tt :: trh))
      with (frees trh).
    rewrite Hl, Hf. split; [reflexivity |]. split; [reflexivity |].
    subst s' p' s1. cbn [pools blocks entries count].
    by rewrite insert_insert_eq, delete_insert_eq.
  - intros j Hj.
    destruct (insert_turn_none _ _ _ _ _ Hp1 (Hall j ltac:(lia)))
      as (e & other & m' & mine' & c & Hj0 & Hslot & He & [= <-] & Hm' & Hc & Hne).
    assert (blocks s1 !! a = Some mine) as Ha1 by apply lookup_insert_eq.
    rewrite Ha1 in Hm'. injection Hm' as <-.
    apply (delete_turn_miss pa p' k s' j c); [| exact Hne].
    rewrite (key_at_valid pa p' k j s' e other Hp' Hj0); [| | exact He].
    + by apply (strcmp_same_string _ (key mine) k s1).
    + subst p'. cbn [entries]. rewrite list_lookup_insert_ne by lia. exact Hslot.
Qed.

Lemma storage_write_then_storage_delete_witness :
  exists a d,
    mallocs (fst (run (env (Addr 20) (Addr 21))
                    (storage_write (Addr 1) (Some [x43; x00]) (Addr 30) 8
                       one_entry_store)))
    = [(sizeof_block_entry_t, Addr a); (8, Addr d)]
    /\ frees
         (fst (run (env NULL NULL)
                 (storage_delete (Addr 1) (Some [x43; x00])
                    (mkState
                       {[ 1%N := mkPool (Addr 10 :: Addr 20 :: replicate 62 NULL)
                                   2 ]}
                       (<[20%N := mkEntry (copied_key [x43; x00]) (Addr 21) 8 1]>
                          sample_blocks)))))
       = [Addr d; Addr a]
    /\ snd (run (env NULL NULL)
              (storage_delete (Addr 1) (Some [x43; x00])
                 (mkState
                    {[ 1%N := mkPool (Addr 10 :: Addr 20 :: replicate 62 NULL)
                                2 ]}
                    (<[20%N := mkEntry (copied_key [x43; x00]) (Addr 21) 8 1]>
                       sample_blocks))))
       = Returns (0,
           mkState
             (<[1%N := mkPool (<[1%nat := Addr a]>
                                 (Addr 10 :: replicate 63 NULL)) 1]>
                (pools one_entry_store))
             (delete a (blocks one_entry_store))).
Proof.
  pose proof (exec_run (env (Addr 20) (Addr 21))
                (storage_write (Addr 1) (Some [x43; x00]) (Addr 30) 8
                   one_entry_store)) as Hw.
  replace (snd (run (env (Addr 20) (Addr 21))
                  (storage_write (Addr 1) (Some [x43; x00]) (Addr 30) 8
                     one_entry_store)))
    with (Returns (0,
            mkState
              {[ 1%N := mkPool (Addr 10 :: Addr 20 :: replicate 62 NULL) 2 ]}
              (<[20%N := mkEntry (copied_key [x43; x00]) (Addr 21) 8 1]>
                 sample_blocks))) in Hw
    by (vm_compute; reflexivity).
  destruct (storage_write_then_storage_delete 1%N
              (mkPool (Addr 10 :: replicate 63 NULL) 1) [x43; x00] (Addr 30) 8
              one_entry_store _ _ _ _
              ltac:(vm_compute; auto) ltac:(vm_compute; split; reflexivity)
              ltac:(vm_compute; split; [reflexivity | discriminate])
              ltac:(vm_compute; reflexivity) ltac:(vm_compute; reflexivity)
              Hw (exec_run (env NULL NULL) _))
    as (a & d & Hm & Hf & _ & Ho).
  exists a, d. split; [exact Hm |]. split; [exact Hf | exact Ho].
Defined.

(** *** [storage_batch_write] *)






End StorageApiFacts.
